(** * obsidian-oos-picbed: the upload / rewrite / delete workflow of [src/main.ts]

    A shallow embedding of the plugin's TypeScript into Rocq and the
    properties of its specification that can be settled on it.

    Part I is the program: the JavaScript values the code works on
    (strings of UTF-16 code units, the regular expressions of the file,
    the URI coders, the [URL] parser on the addresses the code builds),
    the host editor, and the methods of [OssUploader] and
    [OssPicbedPlugin] as functions that pass the state of the session
    along.  An [await] is a point where the surroundings decide the
    outcome of the request and what has become of the document
    meanwhile.  The handlers the plugin registers (for a paste and for
    the context menu), the handlers of the settings tab and [onload]
    follow the methods.

    Part II is what holds of the program: facts about strings, patterns
    and coders first, then the statements about the plugin, each under
    the number of the claim of the specification it settles, and after
    them further properties of the methods and handlers. *)

From Stdlib Require Import String Ascii.
From Stdlib Require Import List NArith ZArith Lia Bool DecimalPos.
Import ListNotations.

(* ##################################################################### *)
(** * Part I: the program *)
(* ##################################################################### *)

(* ===================================================================== *)
(** ** JavaScript strings                                                 *)
(* ===================================================================== *)

(** A JavaScript string is a sequence of UTF-16 code units.  Offsets
    ([indexOf], [length], the editor's offsets) count code units. *)
Definition code_unit := N.
Definition jsstring := list code_unit.

(** A literal of the source, written as a Rocq string (ASCII only). *)
Definition lit (s : string) : jsstring :=
  map N_of_ascii (list_ascii_of_string s).

Fixpoint str_eqb (a b : jsstring) : bool :=
  match a, b with
  | [], [] => true
  | x :: a', y :: b' => (x =? y)%N && str_eqb a' b'
  | _, _ => false
  end.

(** JavaScript truthiness of a string: [!s] holds exactly for the empty one. *)
Definition truthy (s : jsstring) : bool :=
  match s with [] => false | _ :: _ => true end.

(** [s.startsWith(p)]. *)
Fixpoint startsWith (p s : jsstring) : bool :=
  match p, s with
  | [], _ => true
  | a :: p', b :: s' => (a =? b)%N && startsWith p' s'
  | _ :: _, [] => false
  end.

(** [s.indexOf(p)]: the offset of the first occurrence, [None] for [-1]. *)
Fixpoint indexOf (p s : jsstring) : option nat :=
  if startsWith p s then Some 0
  else match s with
       | [] => None
       | _ :: s' => option_map S (indexOf p s')
       end.

(** [s.includes(p)]. *)
Definition includes (p s : jsstring) : bool :=
  match indexOf p s with Some _ => true | None => false end.

(** [s.replace(p, r)] for a string pattern [p]: the first occurrence of
    [p] is replaced.  The replacement strings of the source contain no [$]
    pattern (it is always the empty string), so [r] is inserted as it is. *)
Definition replace_string (p r s : jsstring) : jsstring :=
  match indexOf p s with
  | None => s
  | Some i => firstn i s ++ r ++ skipn (i + length p) s
  end.

(** The pieces of [s] between the characters that satisfy [is_sep]: never
    the empty list. *)
Fixpoint split_by (is_sep : code_unit -> bool) (s : jsstring) : list jsstring :=
  match s with
  | [] => [[]]
  | c :: s' =>
      if is_sep c then [] :: split_by is_sep s'
      else match split_by is_sep s' with
           | [] => [[c]]
           | seg :: segs => (c :: seg) :: segs
           end
  end.

(** [s.split(sep)] for a one-character separator. *)
Definition split (sep : code_unit) (s : jsstring) : list jsstring :=
  split_by (N.eqb sep) s.

(** [parts.join(sep)]. *)
Fixpoint join (sep : jsstring) (parts : list jsstring) : jsstring :=
  match parts with
  | [] => []
  | [p] => p
  | p :: ps => p ++ sep ++ join sep ps
  end.

(** [parts.pop()] of a non-empty array: its last element. *)
Definition pop (parts : list jsstring) : jsstring := last parts [].

Definition SLASH : code_unit := 47%N.
Definition DOT : code_unit := 46%N.
Definition PERCENT : code_unit := 37%N.
Definition NEWLINE : code_unit := 10%N.

Definition is_slash (c : code_unit) : bool := (c =? SLASH)%N.

Fixpoint dropWhile (f : code_unit -> bool) (s : jsstring) : jsstring :=
  match s with
  | [] => []
  | c :: s' => if f c then dropWhile f s' else s
  end.

Fixpoint takeWhile (f : code_unit -> bool) (s : jsstring) : jsstring :=
  match s with
  | [] => []
  | c :: s' => if f c then c :: takeWhile f s' else []
  end.

(** [s.replace(/^\/+/, "")]: the leading run of slashes is removed. *)
Definition strip_leading_slashes (s : jsstring) : jsstring :=
  dropWhile is_slash s.

(** [s.replace(/^\/+|\/+$/g, "")]: the leading run and the trailing run of
    slashes are removed (a run in the middle is followed by another
    character, so [\/+$] does not match there). *)
Definition strip_slashes (s : jsstring) : jsstring :=
  rev (dropWhile is_slash (rev (dropWhile is_slash s))).

(** The characters of a decimal numeral. *)
Fixpoint uint_digits (d : Decimal.uint) : jsstring :=
  match d with
  | Decimal.Nil => []
  | Decimal.D0 d' => 48%N :: uint_digits d'
  | Decimal.D1 d' => 49%N :: uint_digits d'
  | Decimal.D2 d' => 50%N :: uint_digits d'
  | Decimal.D3 d' => 51%N :: uint_digits d'
  | Decimal.D4 d' => 52%N :: uint_digits d'
  | Decimal.D5 d' => 53%N :: uint_digits d'
  | Decimal.D6 d' => 54%N :: uint_digits d'
  | Decimal.D7 d' => 55%N :: uint_digits d'
  | Decimal.D8 d' => 56%N :: uint_digits d'
  | Decimal.D9 d' => 57%N :: uint_digits d'
  end.

(** [`${n}`] for an integral Number below 1e21 (a time stamp, a length):
    its decimal digits, with a minus sign when negative. *)
Definition Number_toString (z : Z) : jsstring :=
  let digits := uint_digits (N.to_uint (Z.abs_N z)) in
  if (z <? 0)%Z then 45%N :: digits else digits.

(* ===================================================================== *)
(** ** Regular expressions                                                *)
(* ===================================================================== *)

(** The constructs the regular expressions of [main.ts] are written with.
    Matching is the backtracking search of ECMAScript: alternatives in
    order, [r?] greedy, [.*?] lazy. *)
Inductive regex : Type :=
| Eps                       (* the empty pattern *)
| Chr (c : code_unit)       (* a literal character *)
| Any                       (* .      any character but a line terminator *)
| Seq (r1 r2 : regex)       (* r1 r2 *)
| Alt (r1 r2 : regex)       (* r1|r2 *)
| Opt (r : regex)           (* r?    *)
| LazyAny                   (* .*?   *)
| Group (r : regex).        (* (r)   a capturing group *)

(** A literal run of characters of a pattern. *)
Definition Lit (s : string) : regex :=
  fold_right (fun c r => Seq (Chr c) r) Eps (lit s).

(** Line terminators: LF, CR, U+2028, U+2029. *)
Definition is_line_terminator (c : code_unit) : bool :=
  ((c =? 10) || (c =? 13) || (c =? 8232) || (c =? 8233))%N.

(** Canonicalize of the [i] flag (no [u] flag), on the characters it can
    make equal to an ASCII literal: a lower-case ASCII letter is mapped to
    its upper case; a character outside ASCII is never mapped into ASCII.
    All literals of the patterns below are ASCII. *)
Definition canonicalize (ignoreCase : bool) (c : code_unit) : code_unit :=
  if (ignoreCase && (97 <=? c) && (c <=? 122))%N then (c - 32)%N else c.

Section Matcher.
Variable ignoreCase : bool.
Variable R : Type.

(** [rmatch r s caps k]: match [r] at the head of [s], then continue with
    [k] on what is left; [None] makes the matcher backtrack. *)
Fixpoint rmatch (r : regex) (s : jsstring) (caps : list jsstring)
    (k : jsstring -> list jsstring -> option R) : option R :=
  match r with
  | Eps => k s caps
  | Chr c =>
      match s with
      | x :: s' =>
          if (canonicalize ignoreCase x =? canonicalize ignoreCase c)%N
          then k s' caps else None
      | [] => None
      end
  | Any =>
      match s with
      | x :: s' => if is_line_terminator x then None else k s' caps
      | [] => None
      end
  | Seq r1 r2 => rmatch r1 s caps (fun s' caps' => rmatch r2 s' caps' k)
  | Alt r1 r2 =>
      match rmatch r1 s caps k with
      | Some x => Some x
      | None => rmatch r2 s caps k
      end
  | Opt r1 =>
      match rmatch r1 s caps k with
      | Some x => Some x
      | None => k s caps
      end
  | LazyAny =>
      (fix lazy (t : jsstring) : option R :=
         match k t caps with
         | Some x => Some x
         | None =>
             match t with
             | x :: t' => if is_line_terminator x then None else lazy t'
             | [] => None
             end
         end) s
  | Group r1 =>
      rmatch r1 s caps
        (fun s' caps' => k s' (caps' ++ [firstn (length s - length s') s]))
  end.

End Matcher.
Arguments rmatch ignoreCase {R} r s caps k.

(** A compiled [RegExp]: the pattern and its [i] flag.  The [g] flag only
    selects which of the operations below the code calls. *)
Record RegExp := { pattern : regex; ignoreCase : bool }.

(** A match: [index], [match[0]] and the captures [match[1]], ... *)
Record MatchResult := { index : nat; matched : jsstring; groups : list jsstring }.

(** The match that starts at the head of [s]: its length and captures. *)
Definition match_here (re : RegExp) (s : jsstring) : option (nat * list jsstring) :=
  rmatch (ignoreCase re) (pattern re) s []
    (fun s' caps => Some (length s - length s', caps)).

Definition shift (m : MatchResult) : MatchResult :=
  {| index := S (index m); matched := matched m; groups := groups m |}.

(** [re.exec(s)] with [lastIndex = 0] (and [s.match(re)] without [g]): the
    leftmost match. *)
Fixpoint exec (re : RegExp) (s : jsstring) : option MatchResult :=
  match match_here re s with
  | Some (n, caps) => Some {| index := 0; matched := firstn n s; groups := caps |}
  | None =>
      match s with
      | [] => None
      | _ :: s' => option_map shift (exec re s')
      end
  end.

(** [[...s.matchAll(re)]] for a global [re]: the matches from left to
    right, each search starting where the previous match ended (one
    further after an empty match).  [skip] counts the characters still
    covered by the previous match, [pos] the offset of [s]. *)
Fixpoint matchAll_from (re : RegExp) (s : jsstring) (skip pos : nat) : list MatchResult :=
  match skip with
  | S skip' =>
      match s with
      | [] => []
      | _ :: s' => matchAll_from re s' skip' (S pos)
      end
  | O =>
      match match_here re s with
      | Some (n, caps) =>
          {| index := pos; matched := firstn n s; groups := caps |} ::
          match s with
          | [] => []
          | _ :: s' => matchAll_from re s' (n - 1) (S pos)
          end
      | None =>
          match s with
          | [] => []
          | _ :: s' => matchAll_from re s' 0 (S pos)
          end
      end
  end.

Definition matchAll (re : RegExp) (s : jsstring) : list MatchResult :=
  matchAll_from re s 0 0.

(** [s.replace(re, "")] for a global [re]: every match is cut out. *)
Fixpoint strip_from (re : RegExp) (s : jsstring) (skip : nat) : jsstring :=
  match s with
  | [] => []
  | c :: s' =>
      match skip with
      | S skip' => strip_from re s' skip'
      | O =>
          match match_here re s with
          | Some (S n, _) => strip_from re s' n
          | _ => c :: strip_from re s' 0
          end
      end
  end.

Definition replace_all_empty (re : RegExp) (s : jsstring) : jsstring :=
  strip_from re s 0.

(** [s.replace(re, "")] without [g]: the leftmost match is cut out. *)
Definition replace_first_empty (re : RegExp) (s : jsstring) : jsstring :=
  match exec re s with
  | None => s
  | Some m => firstn (index m) s ++ skipn (index m + length (matched m)) s
  end.

(** [/!\[.*?\]\((.*?)\)/g] *)
Definition IMAGE_MARKDOWN_REGEX : RegExp :=
  {| pattern :=
       Seq (Lit "![") (Seq LazyAny (Seq (Lit "](") (Seq (Group LazyAny) (Lit ")"))));
     ignoreCase := false |}.

(** [/!\[.*?\]\(.*?\)/], the pattern [deleteImage] strips from its line. *)
Definition IMAGE_LINE_REGEX : RegExp :=
  {| pattern := Seq (Lit "![") (Seq LazyAny (Seq (Lit "](") (Seq LazyAny (Lit ")"))));
     ignoreCase := false |}.

(** [/!\[\[Pasted image.*?\.(?:png|jpe?g|gif|webp|svg)\]\]/gi] *)
Definition PASTED_IMAGE_REGEX : RegExp :=
  {| pattern :=
       Seq (Lit "![[Pasted image")
         (Seq LazyAny
            (Seq (Lit ".")
               (Seq (Alt (Lit "png")
                       (Alt (Seq (Lit "jp") (Seq (Opt (Lit "e")) (Lit "g")))
                          (Alt (Lit "gif") (Alt (Lit "webp") (Lit "svg")))))
                  (Lit "]]"))));
     ignoreCase := true |}.

(* ===================================================================== *)
(** ** [encodeURIComponent] and [decodeURIComponent]                      *)
(* ===================================================================== *)

Definition is_digit (c : code_unit) : bool := ((48 <=? c) && (c <=? 57))%N.
Definition is_upper (c : code_unit) : bool := ((65 <=? c) && (c <=? 90))%N.
Definition is_lower (c : code_unit) : bool := ((97 <=? c) && (c <=? 122))%N.

(** The characters [encodeURIComponent] leaves as they are:
    [A-Z a-z 0-9 - _ . ! ~ * ' ( )]. *)
Definition uriUnescaped (c : code_unit) : bool :=
  (is_upper c || is_lower c || is_digit c
   || (c =? 45) || (c =? 95) || (c =? 46) || (c =? 33) || (c =? 126)
   || (c =? 42) || (c =? 39) || (c =? 40) || (c =? 41))%N.

Definition is_leading_surrogate (c : code_unit) : bool :=
  ((55296 <=? c) && (c <=? 56319))%N.
Definition is_trailing_surrogate (c : code_unit) : bool :=
  ((56320 <=? c) && (c <=? 57343))%N.

(** UTF16SurrogatePairToCodePoint. *)
Definition surrogate_pair_to_code_point (lead trail : code_unit) : N :=
  ((lead - 55296) * 1024 + (trail - 56320) + 65536)%N.

(** UTF16EncodeCodePoint. *)
Definition UTF16EncodeCodePoint (cp : N) : jsstring :=
  if (cp <=? 65535)%N then [cp]
  else [((cp - 65536) / 1024 + 55296)%N; ((cp - 65536) mod 1024 + 56320)%N].

(** The UTF-8 transformation of a code point into octets. *)
Definition utf8_encode (cp : N) : list N :=
  if (cp <? 128)%N then [cp]
  else if (cp <? 2048)%N then [(192 + cp / 64)%N; (128 + cp mod 64)%N]
  else if (cp <? 65536)%N then
    [(224 + cp / 4096)%N; (128 + (cp / 64) mod 64)%N; (128 + cp mod 64)%N]
  else
    [(240 + cp / 262144)%N; (128 + (cp / 4096) mod 64)%N;
     (128 + (cp / 64) mod 64)%N; (128 + cp mod 64)%N].

Definition is_continuation (b : N) : bool := ((128 <=? b) && (b <=? 191))%N.

(** The code point of a well-formed UTF-8 sequence of octets: continuation
    octets in [80..BF], no overlong form, no surrogate, at most U+10FFFF. *)
Definition utf8_decode (octets : list N) : option N :=
  match octets with
  | [b1; b2] =>
      let v := ((b1 - 192) * 64 + (b2 - 128))%N in
      if (is_continuation b2 && (128 <=? v))%N then Some v else None
  | [b1; b2; b3] =>
      let v := ((b1 - 224) * 4096 + (b2 - 128) * 64 + (b3 - 128))%N in
      if (is_continuation b2 && is_continuation b3 && (2048 <=? v)
          && negb ((55296 <=? v) && (v <=? 57343)))%N
      then Some v else None
  | [b1; b2; b3; b4] =>
      let v := ((b1 - 240) * 262144 + (b2 - 128) * 4096 + (b3 - 128) * 64 + (b4 - 128))%N in
      if (is_continuation b2 && is_continuation b3 && is_continuation b4
          && (65536 <=? v) && (v <=? 1114111))%N
      then Some v else None
  | _ => None
  end.

Definition hex_digit (d : N) : code_unit :=
  if (d <? 10)%N then (48 + d)%N else (55 + d)%N.

(** ["%XX"], with upper-case hexadecimal digits. *)
Definition percent_encode_octet (b : N) : jsstring :=
  [PERCENT; hex_digit (b / 16); hex_digit (b mod 16)].

Definition percent_encode_octets (octets : list N) : jsstring :=
  flat_map percent_encode_octet octets.

Definition hex_value (c : code_unit) : option N :=
  if is_digit c then Some (c - 48)%N
  else if ((65 <=? c) && (c <=? 70))%N then Some (c - 55)%N
  else if ((97 <=? c) && (c <=? 102))%N then Some (c - 87)%N
  else None.

(** ParseHexOctet. *)
Definition hex_octet (h l : code_unit) : option N :=
  match hex_value h, hex_value l with
  | Some a, Some b => Some (16 * a + b)%N
  | _, _ => None
  end.

(** [encodeURIComponent(s)]; [None] when it throws a URIError (an unpaired
    surrogate). *)
Fixpoint encodeURIComponent (s : jsstring) : option jsstring :=
  match s with
  | [] => Some []
  | c :: s1 =>
      if uriUnescaped c then option_map (cons c) (encodeURIComponent s1)
      else if is_trailing_surrogate c then None
      else if is_leading_surrogate c then
        match s1 with
        | d :: s2 =>
            if is_trailing_surrogate d then
              option_map
                (app (percent_encode_octets (utf8_encode (surrogate_pair_to_code_point c d))))
                (encodeURIComponent s2)
            else None
        | [] => None
        end
      else option_map (app (percent_encode_octets (utf8_encode c))) (encodeURIComponent s1)
  end.

(** The number of leading 1 bits of an octet (5 stands for five or more). *)
Definition leading_ones (b : N) : nat :=
  if (b <? 128)%N then 0
  else if (b <? 192)%N then 1
  else if (b <? 224)%N then 2
  else if (b <? 240)%N then 3
  else if (b <? 248)%N then 4
  else 5.

(** A continuation escape ["%XX"] of a multi-octet sequence. *)
Definition escape_octet (p h l : code_unit) : option N :=
  if (p =? PERCENT)%N then hex_octet h l else None.

Definition decoded (octets : list N) (rest : option jsstring) : option jsstring :=
  match utf8_decode octets, rest with
  | Some v, Some r => Some (UTF16EncodeCodePoint v ++ r)
  | _, _ => None
  end.

(** [decodeURIComponent(s)]; [None] when it throws a URIError. *)
Fixpoint decodeURIComponent (s : jsstring) : option jsstring :=
  match s with
  | [] => Some []
  | c :: s1 =>
      if negb (c =? PERCENT)%N then option_map (cons c) (decodeURIComponent s1)
      else
        match s1 with
        | h1 :: l1 :: s3 =>
            match hex_octet h1 l1 with
            | None => None
            | Some b1 =>
                match leading_ones b1 with
                | 0 => option_map (cons b1) (decodeURIComponent s3)
                | 2 =>
                    match s3 with
                    | p2 :: h2 :: l2 :: s6 =>
                        match escape_octet p2 h2 l2 with
                        | Some b2 => decoded [b1; b2] (decodeURIComponent s6)
                        | None => None
                        end
                    | _ => None
                    end
                | 3 =>
                    match s3 with
                    | p2 :: h2 :: l2 :: p3 :: h3 :: l3 :: s9 =>
                        match escape_octet p2 h2 l2, escape_octet p3 h3 l3 with
                        | Some b2, Some b3 => decoded [b1; b2; b3] (decodeURIComponent s9)
                        | _, _ => None
                        end
                    | _ => None
                    end
                | 4 =>
                    match s3 with
                    | p2 :: h2 :: l2 :: p3 :: h3 :: l3 :: p4 :: h4 :: l4 :: s12 =>
                        match escape_octet p2 h2 l2, escape_octet p3 h3 l3,
                              escape_octet p4 h4 l4 with
                        | Some b2, Some b3, Some b4 =>
                            decoded [b1; b2; b3; b4] (decodeURIComponent s12)
                        | _, _, _ => None
                        end
                    | _ => None
                    end
                | _ => None
                end
            end
        | _ => None
        end
  end.

(* ===================================================================== *)
(** ** [new URL(s).pathname] on an [https://] address                     *)
(* ===================================================================== *)

(** The URL class belongs to the platform.  Its parser is the state
    machine of the WHATWG URL Standard; this section follows that machine
    for an input that starts with [https://] (the only kind [getUrl]
    builds): scheme, slashes, authority, host and port, then the path
    state with its dot segments and percent-encoding.  Whether the host
    parser accepts a host (IDNA, IPv4, IPv6) is left to [host_ok].
    [None] stands for the TypeError of a failed parse. *)

Definition is_c0_or_space (c : code_unit) : bool := (c <=? 32)%N.
Definition is_tab_or_newline (c : code_unit) : bool :=
  ((c =? 9) || (c =? 10) || (c =? 13))%N.
Definition is_slash_or_backslash (c : code_unit) : bool :=
  ((c =? 47) || (c =? 92))%N.
(** What ends the authority of a special scheme: [/ \ ? #]. *)
Definition is_authority_end (c : code_unit) : bool :=
  ((c =? 47) || (c =? 92) || (c =? 63) || (c =? 35))%N.
Definition is_path_end (c : code_unit) : bool := ((c =? 63) || (c =? 35))%N.

(** The path percent-encode set: C0 controls, space, the double quote,
    [#], [<], [>], [?], [^], the backquote, [{], [}] and everything above
    U+007E. *)
Definition in_path_percent_encode_set (cp : N) : bool :=
  ((cp <=? 32) || (cp =? 34) || (cp =? 35) || (cp =? 60) || (cp =? 62)
   || (cp =? 63) || (cp =? 94) || (cp =? 96) || (cp =? 123) || (cp =? 125)
   || (127 <=? cp))%N.

Definition REPLACEMENT_CHARACTER : N := 65533%N.

(** The path state's buffer for one segment: the code points of the
    segment (an unpaired surrogate reads as U+FFFD), UTF-8 percent-encoded
    where they are in the path percent-encode set. *)
Fixpoint path_percent_encode (s : jsstring) : jsstring :=
  match s with
  | [] => []
  | c :: s1 =>
      if is_leading_surrogate c then
        match s1 with
        | d :: s2 =>
            if is_trailing_surrogate d
            then percent_encode_octets (utf8_encode (surrogate_pair_to_code_point c d))
                   ++ path_percent_encode s2
            else percent_encode_octets (utf8_encode REPLACEMENT_CHARACTER)
                   ++ path_percent_encode s1
        | [] => percent_encode_octets (utf8_encode REPLACEMENT_CHARACTER)
        end
      else if is_trailing_surrogate c then
        percent_encode_octets (utf8_encode REPLACEMENT_CHARACTER) ++ path_percent_encode s1
      else if in_path_percent_encode_set c then
        percent_encode_octets (utf8_encode c) ++ path_percent_encode s1
      else c :: path_percent_encode s1
  end.

Definition is_single_dot (buffer : jsstring) : bool :=
  existsb (fun d => str_eqb buffer (lit d)) ["."; "%2e"; "%2E"]%string.

Definition is_double_dot (buffer : jsstring) : bool :=
  existsb (fun d => str_eqb buffer (lit d))
    [".."; ".%2e"; ".%2E"; "%2e."; "%2E."; "%2e%2e"; "%2e%2E"; "%2E%2e"; "%2E%2E"]%string.

(** The path state at the end of a segment; [final] when the segment is
    ended by [?], [#] or the end of the input and not by a slash. *)
Definition push_segment (final : bool) (path : list jsstring) (seg : jsstring)
  : list jsstring :=
  let buffer := path_percent_encode seg in
  if is_double_dot buffer then removelast path ++ (if final then [[]] else [])
  else if is_single_dot buffer then path ++ (if final then [[]] else [])
  else path ++ [buffer].

Fixpoint parse_path (path : list jsstring) (segs : list jsstring) : list jsstring :=
  match segs with
  | [] => path
  | [seg] => push_segment true path seg
  | seg :: segs' => parse_path (push_segment false path seg) segs'
  end.

(** The serialisation of a path: a slash before each segment. *)
Definition serialize_path (path : list jsstring) : jsstring :=
  flat_map (fun seg => SLASH :: seg) path.

(** What follows the last [c] of [s], if [c] occurs. *)
Fixpoint after_last (c : code_unit) (s : jsstring) : option jsstring :=
  match s with
  | [] => None
  | x :: s' =>
      match after_last c s' with
      | Some t => Some t
      | None => if (x =? c)%N then Some s' else None
      end
  end.

(** The host state: the host runs to the first [:] outside brackets; the
    port, if any, is what follows. *)
Fixpoint split_host_port (inside_brackets : bool) (s : jsstring)
  : jsstring * option jsstring :=
  match s with
  | [] => ([], None)
  | c :: s' =>
      if ((c =? 58)%N && negb inside_brackets)%bool then ([], Some s')
      else
        let inside' := if (c =? 91)%N then true
                       else if (c =? 93)%N then false else inside_brackets in
        let (h, p) := split_host_port inside' s' in (c :: h, p)
  end.

Definition decimal_value (digits : jsstring) : N :=
  fold_left (fun v d => (10 * v + (d - 48))%N) digits 0%N.

(** The port state: digits only, and at most 65535. *)
Definition port_ok (port : jsstring) : bool :=
  forallb is_digit port && (decimal_value port <=? 65535)%N.

Definition https_pathname (host_ok : jsstring -> bool) (input : jsstring)
  : option jsstring :=
  let trimmed := rev (dropWhile is_c0_or_space (rev input)) in
  let s := filter (fun c => negb (is_tab_or_newline c)) trimmed in
  (* scheme state: "https:"; then every slash and backslash is skipped *)
  let s := dropWhile is_slash_or_backslash (skipn 6 s) in
  (* authority state *)
  let authority := takeWhile (fun c => negb (is_authority_end c)) s in
  let rest := dropWhile (fun c => negb (is_authority_end c)) s in
  let hostport := match after_last 64%N authority with
                  | Some hp => hp
                  | None => authority
                  end in
  let (host, port) := split_host_port false hostport in
  if negb (truthy host) then None
  else if negb (host_ok host) then None
  else if negb (match port with Some p => port_ok p | None => true end) then None
  else
    (* path start state, path state *)
    let rest := match rest with
                | c :: rest' => if is_slash_or_backslash c then rest' else rest
                | [] => []
                end in
    let path := takeWhile (fun c => negb (is_path_end c)) rest in
    Some (serialize_path (parse_path [] (split_by is_slash_or_backslash path))).

(* ===================================================================== *)
(** ** The host editor                                                    *)
(* ===================================================================== *)

(** Modelled from the spec: the editor surface of the host, of which the
    repository holds only the calls ("current cursor position, line text
    by number, full document text, and positional replace/set-value
    operations addressed by (line, column) or by linear character
    offset").  It is Obsidian's [Editor] as far as [main.ts] uses it: the
    text of the document, lines separated by a line feed, and the
    cursor.  A position is a line and a column, an offset counts code
    units from the start. *)
Record EditorPosition := { line : nat; ch : nat }.

Record Editor := { value : jsstring; cursor : EditorPosition }.

Definition pos_eqb (p q : EditorPosition) : bool :=
  (line p =? line q)%nat && (ch p =? ch q)%nat.

(** [editor.offsetToPos(offset)] on the text [s]. *)
Fixpoint offsetToPos (s : jsstring) (offset : nat) : EditorPosition :=
  match offset, s with
  | S o, c :: s' =>
      let p := offsetToPos s' o in
      if (c =? NEWLINE)%N then {| line := S (line p); ch := ch p |}
      else if (line p =? 0)%nat then {| line := 0; ch := S (ch p) |}
      else p
  | _, _ => {| line := 0; ch := 0 |}
  end.

(** [editor.posToOffset(pos)] on the text [s]; a column past the end of
    its line is the end of the line. *)
Fixpoint posToOffset (s : jsstring) (ln col : nat) : nat :=
  match s with
  | [] => 0
  | c :: s' =>
      match ln with
      | S l =>
          S (if (c =? NEWLINE)%N then posToOffset s' l col else posToOffset s' ln col)
      | O =>
          match col with
          | O => 0
          | S col' => if (c =? NEWLINE)%N then 0 else S (posToOffset s' 0 col')
          end
      end
  end.

Definition toOffset (s : jsstring) (p : EditorPosition) : nat :=
  posToOffset s (line p) (ch p).

(** [editor.getLine(n)]; [None] when the document has no such line (the
    host throws a RangeError). *)
Definition getLine (e : Editor) (n : nat) : option jsstring :=
  nth_error (split NEWLINE (value e)) n.

Definition setCursor (e : Editor) (p : EditorPosition) : Editor :=
  {| value := value e; cursor := p |}.

(* ===================================================================== *)
(** ** What the plugin takes from outside the repository                  *)
(* ===================================================================== *)

(** A thrown value: its [message] property (empty when it has none) and
    what [String(error)] gives. *)
Record JsError := { message : jsstring; as_string : jsstring }.

(** [new Error(msg)]. *)
Definition Error (msg : string) : JsError :=
  {| message := lit msg; as_string := lit "Error: " ++ lit msg |}.

(** The options [new OSS({...})] is called with; the client is identified
    with them. *)
Record OSSOptions := {
  opt_accessKeyId : jsstring;
  opt_accessKeySecret : jsstring;
  opt_bucket : jsstring;
  opt_region : jsstring;
  opt_secure : bool
}.

(** The platform: the [URL] class, the SDK's constructor and its
    [signatureUrl], and the way the editor carries its cursor through a
    change of the text.  None of them is code of the repository; the
    development is parametric in them.
    - [URL_pathname s] is [new URL(s).pathname], [None] when the
      constructor throws;
    - [host_parses h] says whether the URL host parser accepts [h];
    - [OSS_constructor options] is the error [new OSS(options)] throws
      when the SDK refuses the options, [None] when it returns a client;
    - [signatureUrl client key expires] is the SDK's signed address;
    - [map_cursor from to inserted c] is the offset the cursor ends at
      when it was at offset [c] and the text between the offsets [from]
      and [to] is replaced by [inserted] code units. *)
Class Platform := {
  URL_pathname : jsstring -> option jsstring;
  host_parses : jsstring -> bool;
  OSS_constructor : OSSOptions -> option JsError;
  signatureUrl : OSSOptions -> jsstring -> N -> jsstring;
  map_cursor : nat -> nat -> nat -> nat -> nat
}.

(** The platform's [URL] follows the WHATWG URL Standard on every input
    that starts with [https://]. *)
Definition URL_follows_standard (P : Platform) : Prop :=
  forall s, startsWith (lit "https://") s = true ->
            URL_pathname s = https_pathname host_parses s.

Section WithPlatform.
Context {P : Platform}.

(** [editor.replaceRange(text, from, to)]. *)
Definition replaceRange (e : Editor) (text : jsstring) (from to : EditorPosition) : Editor :=
  let a := toOffset (value e) from in
  let b := toOffset (value e) to in
  let v := firstn a (value e) ++ text ++ skipn b (value e) in
  {| value := v;
     cursor := offsetToPos v (map_cursor a b (length text) (toOffset (value e) (cursor e))) |}.

(** [editor.setValue(text)]: the whole document is replaced. *)
Definition setValue (e : Editor) (text : jsstring) : Editor :=
  {| value := text;
     cursor := offsetToPos text
                 (map_cursor 0 (length (value e)) (length text) (toOffset (value e) (cursor e))) |}.

(** [editor.setLine(n, text)]: the text of line [n] is replaced. *)
Definition setLine (e : Editor) (n : nat) (text : jsstring) : Editor :=
  match getLine e n with
  | Some old => replaceRange e text {| line := n; ch := 0 |} {| line := n; ch := length old |}
  | None => e
  end.

End WithPlatform.

(* ===================================================================== *)
(** ** The state of a run and its effects                                 *)
(* ===================================================================== *)

Record OssPicbedSettings := {
  accessKeyId : jsstring;
  accessKeySecret : jsstring;
  bucket : jsstring;
  region : jsstring;
  prefix : jsstring;
  usePublicUrl : bool
}.

Definition DEFAULT_SETTINGS : OssPicbedSettings :=
  {| accessKeyId := []; accessKeySecret := []; bucket := []; region := [];
     prefix := []; usePublicUrl := true |}.

(** A [File] of the clipboard: its name and MIME type (the bytes play no
    part in what follows). *)
Record File := { file_name : jsstring; file_type : jsstring }.

(** [`${error?.message || error}`]. *)
Definition error_text (e : JsError) : jsstring :=
  if truthy (message e) then message e else as_string e.

(** The [OssUploader] object.  Its [settings] field is the very object
    the plugin holds ([new OssUploader(this.settings)], and the settings
    tab updates that object in place), so the methods below read the
    plugin's settings; [client] is the SDK client made at construction. *)
Record OssUploader := { client : OSSOptions }.

(** A call of the SDK that goes to the network. *)
Inductive request :=
| PutObject (key : jsstring) (file : File) (mime : jsstring)
| DeleteObject (key : jsstring).

(** Everything an operation of the plugin can read or change:
    [this.settings], [this.uploader], the editor, the notices shown, the
    lines written by [console.error], the requests sent and the SDK
    clients created, each log in the order of the events. *)
Record World := {
  settings : OssPicbedSettings;
  uploader : option OssUploader;
  editor : Editor;
  notices : list jsstring;
  console_errors : list (jsstring * JsError);
  requests : list request;
  clients : list OSSOptions
}.

(** What the surroundings decide during one operation: the clock readings
    of [Date.now()] for the token and for the file name, the digits
    [Math.random().toString(36).slice(2, 8)] gives, the outcome of the
    put request and of the [i]-th delete request ([None]: success), and
    what happens to the editor while the operation waits for the network
    (the user and other handlers are free to change the document). *)
Record Env := {
  token_time : Z;
  token_random : jsstring;
  upload_time : Z;
  put_outcome : jsstring -> option JsError;
  delete_outcome : nat -> jsstring -> option JsError;
  during_wait : Editor -> Editor
}.

Inductive result (A : Type) : Type :=
| Ok (a : A)
| Throw (e : JsError).
Arguments Ok {A} a.
Arguments Throw {A} e.

(** A method of the plugin: it runs in a world, returns or throws, and
    leaves a world. *)
Definition M (A : Type) : Type := World -> result A * World.

Definition ret {A} (a : A) : M A := fun w => (Ok a, w).
Definition throw {A} (e : JsError) : M A := fun w => (Throw e, w).
Definition bind {A B} (m : M A) (k : A -> M B) : M B :=
  fun w => match m w with
           | (Ok a, w') => k a w'
           | (Throw e, w') => (Throw e, w')
           end.
(** [try { m } catch (error) { h error }]. *)
Definition try_catch {A} (m : M A) (h : JsError -> M A) : M A :=
  fun w => match m w with
           | (Ok a, w') => (Ok a, w')
           | (Throw e, w') => h e w'
           end.

Notation "x <- m ;; k" := (bind m (fun x => k))
  (at level 61, m at next level, right associativity).
Notation "m ;;; k" := (bind m (fun _ => k))
  (at level 61, right associativity).

Definition get {A} (f : World -> A) : M A := fun w => (Ok (f w), w).

Definition set_editor (e : Editor) (w : World) : World :=
  {| settings := settings w; uploader := uploader w; editor := e;
     notices := notices w; console_errors := console_errors w;
     requests := requests w; clients := clients w |}.

Definition set_uploader (u : option OssUploader) (w : World) : World :=
  {| settings := settings w; uploader := u; editor := editor w;
     notices := notices w; console_errors := console_errors w;
     requests := requests w; clients := clients w |}.

Definition set_settings (s : OssPicbedSettings) (w : World) : World :=
  {| settings := s; uploader := uploader w; editor := editor w;
     notices := notices w; console_errors := console_errors w;
     requests := requests w; clients := clients w |}.

(** A change of the document by an editor operation. *)
Definition edit (f : Editor -> Editor) : M unit :=
  fun w => (Ok tt, set_editor (f (editor w)) w).

(** [new Notice(text)]. *)
Definition Notice (text : jsstring) : M unit :=
  fun w => (Ok tt,
            {| settings := settings w; uploader := uploader w; editor := editor w;
               notices := notices w ++ [text]; console_errors := console_errors w;
               requests := requests w; clients := clients w |}).

(** [console.error(text, error)]. *)
Definition console_error (text : jsstring) (e : JsError) : M unit :=
  fun w => (Ok tt,
            {| settings := settings w; uploader := uploader w; editor := editor w;
               notices := notices w; console_errors := console_errors w ++ [(text, e)];
               requests := requests w; clients := clients w |}).

(** A request leaves for the network. *)
Definition send (r : request) : M unit :=
  fun w => (Ok tt,
            {| settings := settings w; uploader := uploader w; editor := editor w;
               notices := notices w; console_errors := console_errors w;
               requests := requests w ++ [r]; clients := clients w |}).

(** [new OSS(options)], the constructor of the SDK, of which the
    repository holds only the call.  It throws when the SDK refuses the
    options (invalid credentials or names: [initUploader] has a [catch]
    for it) and allocates the network client otherwise; the allocation
    is recorded in [clients]. *)
Definition new_OSS {P : Platform} (options : OSSOptions) : M OSSOptions :=
  fun w =>
    match OSS_constructor options with
    | Some e => (Throw e, w)
    | None =>
        (Ok options,
         {| settings := settings w; uploader := uploader w; editor := editor w;
            notices := notices w; console_errors := console_errors w;
            requests := requests w; clients := clients w ++ [options] |})
    end.

(** The [TypeError] of a call on [this.uploader!] when it is null. *)
Definition TypeError_null (method : string) : JsError :=
  {| message := lit "Cannot read properties of null (reading '" ++ lit method ++ lit "')";
     as_string := lit "TypeError: Cannot read properties of null (reading '"
                    ++ lit method ++ lit "')" |}.

Definition URIError : JsError :=
  {| message := lit "URI malformed"; as_string := lit "URIError: URI malformed" |}.

Definition RangeError_line : JsError :=
  {| message := lit "Invalid line number"; as_string := lit "RangeError: Invalid line number" |}.

(* ===================================================================== *)
(** ** [class OssUploader]                                                *)
(* ===================================================================== *)

Section Plugin.
Context {P : Platform}.
Variable env : Env.

(** [validateSettings()]. *)
Definition validateSettings (s : OssPicbedSettings) : result unit :=
  if negb (truthy (accessKeyId s)) || negb (truthy (accessKeySecret s))
  then Throw (Error "Access Key ID or Access Key Secret is empty")
  else if negb (truthy (bucket s)) || negb (truthy (region s))
  then Throw (Error "Bucket or Region is empty")
  else Ok tt.

(** [new OssUploader(this.settings)]: validation first, then the client. *)
Definition new_OssUploader : M OssUploader :=
  s <- get settings ;;
  match validateSettings s with
  | Throw e => throw e
  | Ok _ =>
      c <- new_OSS {| opt_accessKeyId := accessKeyId s;
                      opt_accessKeySecret := accessKeySecret s;
                      opt_bucket := bucket s;
                      opt_region := region s;
                      opt_secure := true |} ;;
      ret {| client := c |}
  end.

(** [getPrefix()]. *)
Definition getPrefix (s : OssPicbedSettings) : jsstring :=
  let prefix := strip_slashes (prefix s) in
  if truthy prefix then prefix ++ lit "/" else [].

(** [generateFileName(file)], [now] being the reading of [Date.now()]. *)
Definition generateFileName (now : Z) (file : File) : jsstring :=
  let extension := pop (split DOT (file_name file)) in
  if truthy extension then Number_toString now ++ lit "." ++ extension
  else Number_toString now.

(** [key.split("/").map(encodeURIComponent)]; [None] when one of the
    calls throws. *)
Fixpoint encode_segments (segs : list jsstring) : option (list jsstring) :=
  match segs with
  | [] => Some []
  | seg :: segs' =>
      match encodeURIComponent seg, encode_segments segs' with
      | Some e, Some es => Some (e :: es)
      | _, _ => None
      end
  end.

(** [getUrl(key)]. *)
Definition getUrl (s : OssPicbedSettings) (u : OssUploader) (key : jsstring)
  : result jsstring :=
  if usePublicUrl s then
    match encode_segments (split SLASH key) with
    | Some segs =>
        let encodedKey := join (lit "/") segs in
        Ok (lit "https://" ++ bucket s ++ lit "." ++ region s
              ++ lit ".aliyuncs.com/" ++ encodedKey)
    | None => Throw URIError
    end
  else Ok (signatureUrl (client u) key 3600).

(** The wait for the network: the task is suspended, and the editor is
    whatever the meantime made of it when the task resumes. *)
Definition await_network : M unit := edit (during_wait env).

(** [upload(file)]. *)
Definition upload (u : OssUploader) (file : File) : M (jsstring * jsstring) :=
  s <- get settings ;;
  let key := getPrefix s ++ generateFileName (upload_time env) file in
  send (PutObject key file
          (if truthy (file_type file) then file_type file
           else lit "application/octet-stream")) ;;;
  await_network ;;;
  match put_outcome env key with
  | Some e => throw e
  | None =>
      s' <- get settings ;;
      match getUrl s' u key with
      | Ok url => ret (url, key)
      | Throw e => throw e
      end
  end.

(** [parseKeyFromUrl(url)]. *)
Definition parseKeyFromUrl (url : jsstring) : jsstring :=
  if negb (truthy url) then []
  else
    match URL_pathname url with
    | Some pathname =>
        match decodeURIComponent (strip_leading_slashes pathname) with
        | Some key => key
        | None => strip_leading_slashes url
        end
    | None => strip_leading_slashes url
    end.

(* ===================================================================== *)
(** ** [class OssPicbedPlugin]                                            *)
(* ===================================================================== *)

(** [onunload()]. *)
Definition onunload : M unit :=
  fun w => (Ok tt, set_uploader None w).

(** [initUploader()]. *)
Definition initUploader : M unit :=
  s <- get settings ;;
  if truthy (accessKeyId s) && truthy (accessKeySecret s)
     && truthy (bucket s) && truthy (region s)
  then
    try_catch
      (u <- new_OssUploader ;; fun w => (Ok tt, set_uploader (Some u) w))
      (fun _ => fun w => (Ok tt, set_uploader None w))
  else ret tt.

(** What the settings tab does when the text of a required field
    changes: the trimmed value is stored in [this.settings] (here the
    bucket) and [initUploader] runs. *)
Definition onChange_bucket (trimmed : jsstring) : M unit :=
  (fun w =>
     (Ok tt,
      set_settings {| accessKeyId := accessKeyId (settings w);
                      accessKeySecret := accessKeySecret (settings w);
                      bucket := trimmed;
                      region := region (settings w);
                      prefix := prefix (settings w);
                      usePublicUrl := usePublicUrl (settings w) |} w)) ;;;
  initUploader.

(** [generateUploadToken()]. *)
Definition generateUploadToken (now : Z) (random : jsstring) : jsstring :=
  lit "{{OSS_UPLOADING:" ++ Number_toString now ++ lit "-" ++ random ++ lit "}}".

(** [replaceTokenWithImage(editor, token, url)]. *)
Definition replaceTokenWithImage (e : Editor) (token url : jsstring) : Editor :=
  let content := value e in
  match indexOf token content with
  | None => e
  | Some index =>
      let from := offsetToPos content index in
      let to := offsetToPos content (index + length token) in
      let markdown := lit "![](" ++ url ++ lit ")" in
      let e1 := replaceRange e markdown from to in
      if pos_eqb (cursor e1) to
      then setCursor e1 (offsetToPos (value e1) (index + length markdown))
      else e1
  end.

(** [removeToken(editor, token)]. *)
Definition removeToken (e : Editor) (token : jsstring) : Editor :=
  let content := value e in
  if negb (includes token content) then e
  else
    let updated := replace_string token [] content in
    let e1 := setValue e updated in
    setCursor e1 (offsetToPos (value e1) (length updated)).

(** The loop of [cleanupPastedImages]: search from the start, cut the
    match out, read the text again.  Every match of the pattern is at
    least one character long, so the loop runs at most once per character
    of the text; [fuel] bounds the iterations. *)
Fixpoint cleanup_loop (fuel : nat) (e : Editor) : Editor :=
  match fuel with
  | O => e
  | S fuel' =>
      let content := value e in
      match exec PASTED_IMAGE_REGEX content with
      | None => e
      | Some m =>
          let start := offsetToPos content (index m) in
          let end_ := offsetToPos content (index m + length (matched m)) in
          cleanup_loop fuel' (replaceRange e [] start end_)
      end
  end.

(** [cleanupPastedImages(editor)]. *)
Definition cleanupPastedImages (e : Editor) : Editor :=
  cleanup_loop (length (value e)) e.

(** [this.uploader!]: a TypeError when there is none. *)
Definition the_uploader (method : string) : M OssUploader :=
  fun w => match uploader w with
           | Some u => (Ok u, w)
           | None => (Throw (TypeError_null method), w)
           end.

(** [handleImageUpload(editor, file)]. *)
Definition handleImageUpload (file : File) : M unit :=
  let token := generateUploadToken (token_time env) (token_random env) in
  edit (fun e => replaceRange e token (cursor e) (cursor e)) ;;;
  try_catch
    (u <- the_uploader "upload" ;;
     r <- upload u file ;;
     edit (fun e => replaceTokenWithImage e token (fst r)) ;;;
     edit cleanupPastedImages ;;;
     Notice (lit "Image uploaded successfully"))
    (fun error =>
       edit (fun e => removeToken e token) ;;;
       Notice (lit "Upload failed: " ++ error_text error)).

(** [delete(key)] up to the request: nothing is sent for an empty key.
    The result says whether a request left. *)
Definition delete_request (key : jsstring) : M bool :=
  if negb (truthy key) then ret false
  else send (DeleteObject key) ;;; ret true.

(** The settlement of the [i]-th delete request. *)
Definition delete_settles (i : nat) (key : jsstring) : M unit :=
  match delete_outcome env i key with
  | Some e => throw e
  | None => ret tt
  end.

(** [await this.uploader!.delete(key)]. *)
Definition await_delete (key : jsstring) : M unit :=
  _u <- the_uploader "delete" ;;
  sent <- delete_request key ;;
  if sent then await_network ;;; delete_settles 0 key else ret tt.

(** [deleteImage(editor, url, lineNumber)]. *)
Definition deleteImage (url : jsstring) (lineNumber : nat) : M unit :=
  try_catch
    (let key := parseKeyFromUrl url in
     if negb (truthy key) then Notice (lit "Invalid image URL")
     else
       await_delete key ;;;
       e <- get editor ;;
       match getLine e lineNumber with
       | None => throw RangeError_line
       | Some line =>
           let updated := replace_first_empty IMAGE_LINE_REGEX line in
           edit (fun e => setLine e lineNumber updated) ;;;
           Notice (lit "Image deleted successfully")
       end)
    (fun error => Notice (lit "Delete failed: " ++ error_text error)).

(** [keys.map(key => this.uploader!.delete(key)...)]: the requests leave
    one after the other, before the task waits. *)
Fixpoint send_deletes (keys : list jsstring) : M unit :=
  match keys with
  | [] => ret tt
  | key :: keys' =>
      _u <- the_uploader "delete" ;;
      _sent <- delete_request key ;;
      send_deletes keys'
  end.

(** The [.catch] of each delete: a failure is written to the console and
    goes no further.  (The deletes settle in an order of their own; the
    log lists the failures in the order of the keys.) *)
Fixpoint settle_deletes (i : nat) (keys : list jsstring) : M unit :=
  match keys with
  | [] => ret tt
  | key :: keys' =>
      try_catch (delete_settles i key)
        (fun error => console_error (lit "Delete failed for " ++ key ++ lit ":") error) ;;;
      settle_deletes (S i) keys'
  end.

(** The keys [deleteAllImages] computes from its matches. *)
Definition keys_of (matches : list MatchResult) : list jsstring :=
  filter truthy (map (fun m => parseKeyFromUrl (nth 0 (groups m) [])) matches).

(** [deleteAllImages(editor)]. *)
Definition deleteAllImages : M unit :=
  e <- get editor ;;
  let content := value e in
  let matches := matchAll IMAGE_MARKDOWN_REGEX content in
  match matches with
  | [] => Notice (lit "No images found")
  | _ :: _ =>
      let keys := keys_of matches in
      send_deletes keys ;;;
      (match keys with [] => ret tt | _ :: _ => await_network end) ;;;
      settle_deletes 0 keys ;;;
      edit (fun e => setValue e (replace_all_empty IMAGE_MARKDOWN_REGEX content)) ;;;
      Notice (lit "Deleted " ++ Number_toString (Z.of_nat (length keys)) ++ lit " image(s)")
  end.

End Plugin.

(* ===================================================================== *)
(** ** The handlers the plugin registers                                  *)
(* ===================================================================== *)

(** An item of the clipboard: its [kind], its [type], and what
    [getAsFile()] returns when the paste handler calls it ([None] for
    [null]). *)
Record DataTransferItem := {
  item_kind : jsstring;
  item_type : jsstring;
  item_getAsFile : option File
}.

(** A [ClipboardEvent]: the items of [clipboardData], [None] when
    [clipboardData] is [null]. *)
Record ClipboardEvent := { clipboardData : option (list DataTransferItem) }.

(** [item.kind === "file" && item.type.startsWith("image/")]. *)
Definition is_image_item (item : DataTransferItem) : bool :=
  str_eqb (item_kind item) (lit "file") && startsWith (lit "image/") (item_type item).

(** What a click on an item of the context menu runs. *)
Inductive MenuAction :=
| DeleteThisImage (url : jsstring) (lineNumber : nat)
| DeleteAllImages.

Record MenuItem := { title : jsstring; icon : jsstring; onClick : MenuAction }.

(** [/!\[.*?\]\((.*?)\)/], the [imageRegex] of the menu handler. *)
Definition imageRegex : RegExp :=
  {| pattern :=
       Seq (Lit "![") (Seq LazyAny (Seq (Lit "](") (Seq (Group LazyAny) (Lit ")"))));
     ignoreCase := false |}.

(** The text fields of the settings tab. *)
Inductive setting_key := K_accessKeyId | K_accessKeySecret | K_bucket | K_region | K_prefix.

Definition is_prefix_key (key : setting_key) : bool :=
  match key with K_prefix => true | _ => false end.

(** [this.plugin.settings[key] = v]. *)
Definition assign (key : setting_key) (v : jsstring) (s : OssPicbedSettings)
  : OssPicbedSettings :=
  match key with
  | K_accessKeyId =>
      {| accessKeyId := v; accessKeySecret := accessKeySecret s; bucket := bucket s;
         region := region s; prefix := prefix s; usePublicUrl := usePublicUrl s |}
  | K_accessKeySecret =>
      {| accessKeyId := accessKeyId s; accessKeySecret := v; bucket := bucket s;
         region := region s; prefix := prefix s; usePublicUrl := usePublicUrl s |}
  | K_bucket =>
      {| accessKeyId := accessKeyId s; accessKeySecret := accessKeySecret s; bucket := v;
         region := region s; prefix := prefix s; usePublicUrl := usePublicUrl s |}
  | K_region =>
      {| accessKeyId := accessKeyId s; accessKeySecret := accessKeySecret s;
         bucket := bucket s; region := v; prefix := prefix s;
         usePublicUrl := usePublicUrl s |}
  | K_prefix =>
      {| accessKeyId := accessKeyId s; accessKeySecret := accessKeySecret s;
         bucket := bucket s; region := region s; prefix := v;
         usePublicUrl := usePublicUrl s |}
  end.

(** The characters [trim()] removes: WhiteSpace (tab, VT, FF, space,
    no-break space, U+FEFF and the space separators of Unicode) and
    LineTerminator. *)
Definition is_white_space (c : code_unit) : bool :=
  ((c =? 9) || (c =? 10) || (c =? 11) || (c =? 12) || (c =? 13) || (c =? 32)
   || (c =? 160) || (c =? 5760) || ((8192 <=? c) && (c <=? 8202))
   || (c =? 8232) || (c =? 8233) || (c =? 8239) || (c =? 8287)
   || (c =? 12288) || (c =? 65279))%N.

(** [s.trim()]. *)
Definition trim (s : jsstring) : jsstring :=
  rev (dropWhile is_white_space (rev (dropWhile is_white_space s))).

(** The calls of [addTextSetting] in [display()]: name, description, key
    and [reinit]. *)
Definition display : list (string * string * setting_key * bool) :=
  [("Access Key ID"%string, "Aliyun OSS Access Key ID"%string, K_accessKeyId, true);
   ("Access Key Secret"%string, "Aliyun OSS Access Key Secret"%string, K_accessKeySecret, true);
   ("Bucket"%string, "Aliyun OSS bucket name"%string, K_bucket, true);
   ("Region"%string, "Aliyun OSS region (e.g. oss-cn-beijing)"%string, K_region, true);
   ("Prefix"%string, "Optional path prefix for uploaded files"%string, K_prefix, false)].

Definition key_eqb (a b : setting_key) : bool :=
  match a, b with
  | K_accessKeyId, K_accessKeyId | K_accessKeySecret, K_accessKeySecret
  | K_bucket, K_bucket | K_region, K_region | K_prefix, K_prefix => true
  | _, _ => false
  end.

(** The [reinit] flag [display()] gives the field of [key]. *)
Definition reinit_of (key : setting_key) : bool :=
  match find (fun call => key_eqb (snd (fst call)) key) display with
  | Some call => snd call
  | None => false
  end.

(** What the user does in the settings tab. *)
Inductive tab_event :=
| TextChanged (key : setting_key) (value : jsstring)
| ToggleChanged (value : bool).

(** The content of the plugin's data file, as [loadData()] resolves to
    it: an object that holds some of the fields of the settings, each
    with a value of the field's type. *)
Record StoredData := {
  data_accessKeyId : option jsstring;
  data_accessKeySecret : option jsstring;
  data_bucket : option jsstring;
  data_region : option jsstring;
  data_prefix : option jsstring;
  data_usePublicUrl : option bool
}.

Definition or_else {A : Type} (stored : option A) (default : A) : A :=
  match stored with Some v => v | None => default end.

(** [Object.assign({}, defaults, data)]; [None] stands for [null], which
    [Object.assign] skips. *)
Definition Object_assign (defaults : OssPicbedSettings) (data : option StoredData)
  : OssPicbedSettings :=
  match data with
  | None => defaults
  | Some d =>
      {| accessKeyId := or_else (data_accessKeyId d) (accessKeyId defaults);
         accessKeySecret := or_else (data_accessKeySecret d) (accessKeySecret defaults);
         bucket := or_else (data_bucket d) (bucket defaults);
         region := or_else (data_region d) (region defaults);
         prefix := or_else (data_prefix d) (prefix defaults);
         usePublicUrl := or_else (data_usePublicUrl d) (usePublicUrl defaults) |}
  end.

Section Handlers.
Context {P : Platform}.

(** The loop of the paste handler.  The uploads run one after the other;
    [env_at i] is what the surroundings decide during the upload of the
    [i]-th image item. *)
Fixpoint upload_images (env_at : nat -> Env) (i : nat) (images : list DataTransferItem)
  : M unit :=
  match images with
  | [] => ret tt
  | item :: images' =>
      match item_getAsFile item with
      | Some file => handleImageUpload (env_at i) file
      | None => ret tt
      end ;;;
      upload_images env_at (S i) images'
  end.

(** The [editor-paste] handler; [view_file] says whether [view.file] is
    there.  The result says whether [evt.preventDefault()] was called. *)
Definition onEditorPaste (env_at : nat -> Env) (evt : ClipboardEvent) (view_file : bool)
  : M bool :=
  u <- get uploader ;;
  match u with
  | None => ret false
  | Some _ =>
      if negb view_file then ret false
      else
        let images := filter is_image_item (or_else (clipboardData evt) []) in
        match images with
        | [] => ret false
        | _ :: _ => upload_images env_at 0 images ;;; ret true
        end
  end.

(** The [editor-menu] handler: the items it adds to [menu]. *)
Definition onEditorMenu (menu : list MenuItem) : M (list MenuItem) :=
  u <- get uploader ;;
  match u with
  | None => ret menu
  | Some _ =>
      e <- get editor ;;
      let pos := cursor e in
      match getLine e (line pos) with
      | None => throw RangeError_line
      | Some text =>
          let menu1 :=
            match exec imageRegex text with
            | Some m =>
                if truthy (nth 0 (groups m) [])
                then menu ++ [{| title := lit "Delete this image"; icon := lit "trash";
                                 onClick := DeleteThisImage (nth 0 (groups m) []) (line pos) |}]
                else menu
            | None => menu
            end in
          ret (menu1 ++ [{| title := lit "Delete all images"; icon := lit "trash";
                            onClick := DeleteAllImages |}])
      end
  end.

(** A click on an item of the menu. *)
Definition click (env : Env) (action : MenuAction) : M unit :=
  match action with
  | DeleteThisImage url lineNumber => deleteImage env url lineNumber
  | DeleteAllImages => deleteAllImages env
  end.

(** [saveSettings()]: the data file is outside the world; [saved] is the
    error [saveData] rejects with, if it does. *)
Definition saveSettings (saved : option JsError) : M unit :=
  match saved with
  | Some e => throw e
  | None => ret tt
  end.

(** The [onChange] of a text field made by [addTextSetting]. *)
Definition onChange_text (saved : option JsError) (key : setting_key) (reinit : bool)
    (value : jsstring) : M unit :=
  let trimmed := trim value in
  (fun w =>
     (Ok tt,
      set_settings
        (assign key (if is_prefix_key key then strip_slashes trimmed else trimmed)
           (settings w)) w)) ;;;
  saveSettings saved ;;;
  if reinit then initUploader else ret tt.

(** The [onChange] of the toggle. *)
Definition onChange_toggle (saved : option JsError) (value : bool) : M unit :=
  (fun w =>
     (Ok tt,
      set_settings {| accessKeyId := accessKeyId (settings w);
                      accessKeySecret := accessKeySecret (settings w);
                      bucket := bucket (settings w);
                      region := region (settings w);
                      prefix := prefix (settings w);
                      usePublicUrl := value |} w)) ;;;
  saveSettings saved.

(** The handler the settings tab runs for an event, every save
    succeeding. *)
Definition tab_handler (ev : tab_event) : M unit :=
  match ev with
  | TextChanged key value => onChange_text None key (reinit_of key) value
  | ToggleChanged value => onChange_toggle None value
  end.

Fixpoint tab_handlers (evs : list tab_event) : M unit :=
  match evs with
  | [] => ret tt
  | ev :: evs' => tab_handler ev ;;; tab_handlers evs'
  end.

(** [loadSettings()], [data] being what [loadData()] resolves to. *)
Definition loadSettings (data : option StoredData) : M unit :=
  fun w => (Ok tt, set_settings (Object_assign DEFAULT_SETTINGS data) w).

(** [onload()]: the settings are loaded and the uploader is made; the
    three registrations that follow change nothing of the world. *)
Definition onload (data : option StoredData) : M unit :=
  loadSettings data ;;; initUploader.

End Handlers.

(* ===================================================================== *)
(** ** The vocabulary of the statements *)
(* ===================================================================== *)

(** Every element of a string is a code unit: below 2^16. *)
Definition well_formed (s : jsstring) : bool := forallb (fun c => c <? 65536)%N s.

(** The characters [encodeURIComponent] produces. *)
Definition encoded_char (c : code_unit) : bool := uriUnescaped c || (c =? PERCENT)%N.

(** The characters of a bucket or region name that leave the address
    with the host the code meant: none of [/ \ ? #], which end the
    authority, no [@] and no [:], which split it, and no tab or line
    break, which the parser drops. *)
Definition host_char (c : code_unit) : bool :=
  negb (is_authority_end c || (c =? 64)%N || (c =? 58)%N || is_tab_or_newline c).

(** A key segment that is a dot segment. *)
Definition is_dot_segment (seg : jsstring) : bool :=
  str_eqb seg (lit ".") || str_eqb seg (lit "..").

(** The patterns that cannot match without taking a character. *)
Fixpoint consumes (r : regex) : bool :=
  match r with
  | Chr _ | Any => true
  | Seq r1 r2 => consumes r1 || consumes r2
  | Alt r1 r2 => consumes r1 && consumes r2
  | Group r1 => consumes r1
  | Eps | Opt _ | LazyAny => false
  end.

(** The offsets a list of matches covers. *)
Definition covered (ms : list MatchResult) (q : nat) : bool :=
  existsb (fun m => (index m <=? q) && (q <? index m + length (matched m))) ms.

(** [s], whose first character has offset [pos], without the characters
    whose offset satisfies [f]. *)
Fixpoint cut_with (f : nat -> bool) (pos : nat) (s : jsstring) : jsstring :=
  match s with
  | [] => []
  | c :: s' => if f pos then cut_with f (S pos) s' else c :: cut_with f (S pos) s'
  end.

(** The text without the characters of the given matches. *)
Definition cut_matches (ms : list MatchResult) (s : jsstring) : jsstring :=
  cut_with (covered ms) 0 s.

Definition OPEN_BRACE : code_unit := 123%N.

Definition no_open_brace (s : jsstring) : bool :=
  forallb (fun c => negb (c =? OPEN_BRACE)%N) s.

(** The address of a matched reference: [match[1]]. *)
Definition url_of (m : MatchResult) : jsstring := nth 0 (groups m) [].

Section Vocabulary.
Context {P : Platform}.
Variable env : Env.

(** The token of this upload, the key it is stored under, the editor
    right after the token was inserted at the cursor, and the editor the
    task finds when the put request has settled. *)
Definition token_of : jsstring :=
  generateUploadToken (token_time env) (token_random env).

Definition key_of (w : World) (file : File) : jsstring :=
  getPrefix (settings w) ++ generateFileName (upload_time env) file.

Definition editor_with_token (w : World) : Editor :=
  replaceRange (editor w) token_of (cursor (editor w)) (cursor (editor w)).

Definition editor_at_settlement (w : World) : Editor :=
  during_wait env (editor_with_token w).

Definition mime_of (file : File) : jsstring :=
  if truthy (file_type file) then file_type file else lit "application/octet-stream".

(** The console lines of the deletes that fail, the first request being
    the [i]-th. *)
Fixpoint failed_deletes (i : nat) (keys : list jsstring) : list (jsstring * JsError) :=
  match keys with
  | [] => []
  | key :: keys' =>
      match delete_outcome env i key with
      | Some e => [(lit "Delete failed for " ++ key ++ lit ":", e)]
      | None => []
      end ++ failed_deletes (S i) keys'
  end.

End Vocabulary.

(** The put requests of a paste: one for every image item that gives a
    file, in the order of the items, the [i]-th item being the first. *)
Fixpoint put_requests (env_at : nat -> Env) (s : OssPicbedSettings) (i : nat)
    (images : list DataTransferItem) : list request :=
  match images with
  | [] => []
  | item :: images' =>
      match item_getAsFile item with
      | Some file =>
          [PutObject (getPrefix s ++ generateFileName (upload_time (env_at i)) file) file
             (mime_of file)]
      | None => []
      end ++ put_requests env_at s (S i) images'
  end.

(** The image items of an event. *)
Definition images_of (evt : ClipboardEvent) : list DataTransferItem :=
  filter is_image_item (or_else (clipboardData evt) []).

(** The files a list of items gives. *)
Definition files_of (items : list DataTransferItem) : list File :=
  flat_map (fun item => match item_getAsFile item with Some f => [f] | None => [] end) items.

(** A pattern without its capturing groups. *)
Fixpoint no_groups (r : regex) : regex :=
  match r with
  | Seq r1 r2 => Seq (no_groups r1) (no_groups r2)
  | Alt r1 r2 => Alt (no_groups r1) (no_groups r2)
  | Opt r1 => Opt (no_groups r1)
  | Group r1 => no_groups r1
  | Eps | Chr _ | Any | LazyAny => r
  end.

(** The text without closing parenthesis and without line terminator. *)
Definition address_text (s : jsstring) : bool :=
  forallb (fun c => negb (c =? 41)%N && negb (is_line_terminator c)) s.

Definition delete_this_item (url : jsstring) (lineNumber : nat) : MenuItem :=
  {| title := lit "Delete this image"; icon := lit "trash";
     onClick := DeleteThisImage url lineNumber |}.

Definition delete_all_item : MenuItem :=
  {| title := lit "Delete all images"; icon := lit "trash"; onClick := DeleteAllImages |}.

(** The four required fields are filled in. *)
Definition complete (s : OssPicbedSettings) : bool :=
  truthy (accessKeyId s) && truthy (accessKeySecret s)
  && truthy (bucket s) && truthy (region s).

(** The options of the client [new OssUploader(s)] makes. *)
Definition options_of (s : OssPicbedSettings) : OSSOptions :=
  {| opt_accessKeyId := accessKeyId s; opt_accessKeySecret := accessKeySecret s;
     opt_bucket := bucket s; opt_region := region s; opt_secure := true |}.

(** What [initUploader] leaves in [this.uploader] for settings whose
    required fields are filled in: the uploader of a client made from
    them, or [null] when the SDK refuses them. *)
Definition uploader_for {P : Platform} (s : OssPicbedSettings) : option OssUploader :=
  match OSS_constructor (options_of s) with
  | None => Some {| client := options_of s |}
  | Some _ => None
  end.

(** The uploader is in step with the settings: if the required fields
    are filled in, the plugin holds the uploader of a client made from
    them as they are now, and none if the SDK refuses them. *)
Definition in_step {P : Platform} (w : World) : Prop :=
  complete (settings w) = true -> uploader w = uploader_for (settings w).

(** A request names a key. *)
Definition names_a_key (r : request) : bool :=
  match r with
  | PutObject key _ _ => truthy key
  | DeleteObject key => truthy key
  end.

Definition CLOSE_BRACE : code_unit := 125%N.

(** A text without braces, as the digits of base 36 are. *)
Definition no_brace (s : jsstring) : bool :=
  forallb (fun c => negb (c =? OPEN_BRACE)%N && negb (c =? CLOSE_BRACE)%N) s.

(** A block: two opening braces, a text, two closing braces. *)
Definition block (x : jsstring) : jsstring :=
  [OPEN_BRACE; OPEN_BRACE] ++ x ++ [CLOSE_BRACE; CLOSE_BRACE].

(* ===================================================================== *)
(** ** Concrete inputs used by the examples                               *)
(* ===================================================================== *)

(** A platform to evaluate the examples on.  Its host parser accepts
    the two host names the examples need, [b.r.aliyuncs.com] and [b],
    and, to assume nothing more, no other; its [URL] follows the
    standard on an address that starts with [https://] and refuses every
    other input, which no example relies on; the signed address is a
    stand-in; the cursor moves as CodeMirror maps a position through a
    change.  Its SDK constructor makes a client for the two bucket names
    the examples construct one for, [my-bucket] and [my-photos] in the
    region [oss-cn-beijing], and refuses a bucket name of one letter, as
    the SDK does (it wants three characters at least); it refuses every
    other option as well, which no example relies on. *)
Definition example_host (h : jsstring) : bool :=
  str_eqb h (lit "b.r.aliyuncs.com") || str_eqb h (lit "b").

Definition example_sdk (options : OSSOptions) : option JsError :=
  if (str_eqb (opt_bucket options) (lit "my-bucket")
      || str_eqb (opt_bucket options) (lit "my-photos"))
     && str_eqb (opt_region options) (lit "oss-cn-beijing")
     && truthy (opt_accessKeyId options) && truthy (opt_accessKeySecret options)
  then None
  else Some (Error "The bucket must be conform to the specifications").

Definition example_platform : Platform :=
  {| URL_pathname := fun s =>
       if startsWith (lit "https://") s then https_pathname example_host s else None;
     host_parses := example_host;
     OSS_constructor := example_sdk;
     signatureUrl := fun _ key _ => lit "https://signed.example/" ++ key;
     map_cursor := fun from to inserted c =>
       if (c <=? from)%nat then c
       else if (c <? to)%nat then from
       else c - (to - from) + inserted |}.

Definition example_settings : OssPicbedSettings :=
  {| accessKeyId := lit "id"; accessKeySecret := lit "secret";
     bucket := lit "b"; region := lit "r"; prefix := []; usePublicUrl := true |}.

Definition example_uploader : OssUploader :=
  {| client := {| opt_accessKeyId := lit "id"; opt_accessKeySecret := lit "secret";
                  opt_bucket := lit "b"; opt_region := lit "r"; opt_secure := true |} |}.

(** A session with a document [text], the cursor at its start, and the
    uploader of [example_settings] in place. *)
Definition example_world (text : jsstring) : World :=
  {| settings := example_settings;
     uploader := Some example_uploader;
     editor := {| value := text; cursor := {| line := 0; ch := 0 |} |};
     notices := []; console_errors := []; requests := []; clients := [] |}.

(** Surroundings in which every request succeeds and nobody touches the
    document during a wait. *)
Definition quiet_env : Env :=
  {| token_time := 1700000000000; token_random := lit "k3x9qz";
     upload_time := 1700000000000;
     put_outcome := fun _ => None;
     delete_outcome := fun _ _ => None;
     during_wait := fun e => e |}.

Definition network_down : JsError := Error "connect ETIMEDOUT".

(** A pasted PNG file. *)
Definition png_file : File :=
  {| file_name := lit "image.png"; file_type := lit "image/png" |}.

(** The put request fails, and the document is left alone meanwhile. *)
Definition failing_env : Env :=
  {| token_time := 1700000000000; token_random := lit "k3x9qz";
     upload_time := 1700000000000;
     put_outcome := fun _ => Some network_down;
     delete_outcome := fun _ _ => None;
     during_wait := fun e => e |}.

(** While the put request is under way, the user copies the placeholder
    and pastes the copy, followed by a space, at the start of the
    document.  The request then fails ([copy_then_fail]) or succeeds
    ([copy_then_succeed]). *)
Definition paste_copy_in_front (e : Editor) : Editor :=
  {| value := generateUploadToken 1700000000000 (lit "k3x9qz") ++ lit " " ++ value e;
     cursor := cursor e |}.

Definition copy_then_fail : Env :=
  {| token_time := 1700000000000; token_random := lit "k3x9qz";
     upload_time := 1700000000000;
     put_outcome := fun _ => Some network_down;
     delete_outcome := fun _ _ => None;
     during_wait := paste_copy_in_front |}.

Definition copy_then_succeed : Env :=
  {| token_time := 1700000000000; token_random := lit "k3x9qz";
     upload_time := 1700000000000;
     put_outcome := fun _ => None;
     delete_outcome := fun _ _ => None;
     during_wait := paste_copy_in_front |}.

(** While the put request is under way, the user replaces the whole
    document, placeholder included, by a word; the request succeeds. *)
Definition erase_then_succeed : Env :=
  {| token_time := 1700000000000; token_random := lit "k3x9qz";
     upload_time := 1700000000000;
     put_outcome := fun _ => None;
     delete_outcome := fun _ _ => None;
     during_wait := fun e => {| value := lit "typed"; cursor := cursor e |} |}.

(** A session whose document is [ab], the cursor between the two letters. *)
Definition world_ab : World :=
  {| settings := example_settings;
     uploader := Some example_uploader;
     editor := {| value := lit "ab"; cursor := {| line := 0; ch := 1 |} |};
     notices := []; console_errors := []; requests := []; clients := [] |}.

(** Three references; the second delete request fails. *)
Definition three_images : jsstring :=
  lit "![](https://b.r.aliyuncs.com/a.png) ![](https://b.r.aliyuncs.com/b.png) ![](https://b.r.aliyuncs.com/c.png)".

Definition second_delete_fails : Env :=
  {| token_time := 1700000000000; token_random := lit "k3x9qz";
     upload_time := 1700000000000;
     put_outcome := fun _ => None;
     delete_outcome := fun i _ => if (i =? 1)%nat then Some network_down else None;
     during_wait := fun e => e |}.

(** While the delete requests are under way, the user types at the end
    of the document; every request succeeds. *)
Definition typing_env : Env :=
  {| token_time := 1700000000000; token_random := lit "k3x9qz";
     upload_time := 1700000000000;
     put_outcome := fun _ => None;
     delete_outcome := fun _ _ => None;
     during_wait := fun e => {| value := value e ++ lit " new text"; cursor := cursor e |} |}.

(** The delete request fails, and the document is left alone meanwhile. *)
Definition delete_fails : Env :=
  {| token_time := 1700000000000; token_random := lit "k3x9qz";
     upload_time := 1700000000000;
     put_outcome := fun _ => None;
     delete_outcome := fun _ _ => Some network_down;
     during_wait := fun e => e |}.

Definition reference_and_text : jsstring :=
  lit "![](https://b.r.aliyuncs.com/a%2Fb.png) and text".

(** A configuration whose prefix is [..], one whose bucket field holds a
    slash, and one whose bucket field holds a space. *)
Definition parent_prefix_settings : OssPicbedSettings :=
  {| accessKeyId := lit "id"; accessKeySecret := lit "secret";
     bucket := lit "b"; region := lit "r"; prefix := lit ".."; usePublicUrl := true |}.

Definition slash_bucket_settings : OssPicbedSettings :=
  {| accessKeyId := lit "id"; accessKeySecret := lit "secret";
     bucket := lit "b/photos"; region := lit "r"; prefix := []; usePublicUrl := true |}.

Definition space_bucket_settings : OssPicbedSettings :=
  {| accessKeyId := lit "id"; accessKeySecret := lit "secret";
     bucket := lit "my bucket"; region := lit "r"; prefix := []; usePublicUrl := true |}.

(** A key with a space, a plus sign, a CJK character and a character
    outside the basic plane (a surrogate pair). *)
Definition unusual_key : jsstring :=
  lit "my pics/a+b/" ++ [22270; 55357; 56832]%N ++ lit ".png".

(** Items of a clipboard: a text, a PNG file, a PDF file, a JPEG file,
    and an image item whose file is gone when the handler asks for it. *)
Definition text_item : DataTransferItem :=
  {| item_kind := lit "string"; item_type := lit "text/plain"; item_getAsFile := None |}.

Definition png_item : DataTransferItem :=
  {| item_kind := lit "file"; item_type := lit "image/png";
     item_getAsFile := Some png_file |}.

Definition pdf_item : DataTransferItem :=
  {| item_kind := lit "file"; item_type := lit "application/pdf";
     item_getAsFile := Some {| file_name := lit "paper.pdf";
                               file_type := lit "application/pdf" |} |}.

Definition jpeg_file : File :=
  {| file_name := lit "photo.final.jpeg"; file_type := lit "image/jpeg" |}.

Definition jpeg_item : DataTransferItem :=
  {| item_kind := lit "file"; item_type := lit "image/jpeg";
     item_getAsFile := Some jpeg_file |}.

Definition gone_item : DataTransferItem :=
  {| item_kind := lit "file"; item_type := lit "image/gif"; item_getAsFile := None |}.

Definition text_paste : ClipboardEvent := {| clipboardData := Some [text_item] |}.

Definition mixed_paste : ClipboardEvent :=
  {| clipboardData := Some [text_item; png_item; pdf_item; gone_item; jpeg_item] |}.

(** Quiet surroundings whose clock advances by one millisecond from one
    item to the next. *)
Definition ticking (i : nat) : Env :=
  {| token_time := 1700000000000 + Z.of_nat i; token_random := lit "k3x9qz";
     upload_time := 1700000000000 + Z.of_nat i;
     put_outcome := fun _ => None;
     delete_outcome := fun _ _ => None;
     during_wait := fun e => e |}.

(** A session whose prefix is [/my pics/], with an empty document. *)
Definition pics_world : World :=
  {| settings := {| accessKeyId := lit "id"; accessKeySecret := lit "secret";
                    bucket := lit "b"; region := lit "r"; prefix := lit "/my pics/";
                    usePublicUrl := true |};
     uploader := Some example_uploader;
     editor := {| value := []; cursor := {| line := 0; ch := 0 |} |};
     notices := []; console_errors := []; requests := []; clients := [] |}.

(** A line with two references, under a title; the cursor is inside the
    second reference. *)
Definition two_on_a_line : jsstring :=
  lit "see ![a](https://b.r.aliyuncs.com/a.png) and ![b](https://b.r.aliyuncs.com/b.png)".

Definition menu_world : World :=
  {| settings := example_settings;
     uploader := Some example_uploader;
     editor := {| value := lit "title" ++ [NEWLINE] ++ two_on_a_line;
                  cursor := {| line := 1; ch := 60 |} |};
     notices := []; console_errors := []; requests := []; clients := [] |}.

Definition first_on_the_line : MatchResult :=
  {| index := 4; matched := lit "![a](https://b.r.aliyuncs.com/a.png)";
     groups := [lit "https://b.r.aliyuncs.com/a.png"] |}.

(** A reference whose address holds parentheses, and its match. *)
Definition parenthesis_reference : jsstring :=
  lit "![cat](https://b.r.aliyuncs.com/cat(1).png)".

Definition cut_at_parenthesis : MatchResult :=
  {| index := 0; matched := lit "![cat](https://b.r.aliyuncs.com/cat(1)";
     groups := [lit "https://b.r.aliyuncs.com/cat(1"] |}.

(** The plugin before [onload]: default settings, no uploader. *)
Definition fresh_world : World :=
  {| settings := DEFAULT_SETTINGS; uploader := None;
     editor := {| value := []; cursor := {| line := 0; ch := 0 |} |};
     notices := []; console_errors := []; requests := []; clients := [] |}.

(** Settings with names the SDK accepts, the uploader made from them,
    and a session that holds it. *)
Definition sdk_settings : OssPicbedSettings :=
  {| accessKeyId := lit "id"; accessKeySecret := lit "secret";
     bucket := lit "my-bucket"; region := lit "oss-cn-beijing"; prefix := [];
     usePublicUrl := true |}.

Definition sdk_uploader : OssUploader :=
  {| client := {| opt_accessKeyId := lit "id"; opt_accessKeySecret := lit "secret";
                  opt_bucket := lit "my-bucket"; opt_region := lit "oss-cn-beijing";
                  opt_secure := true |} |}.

Definition sdk_world : World :=
  {| settings := sdk_settings;
     uploader := Some sdk_uploader;
     editor := {| value := []; cursor := {| line := 0; ch := 0 |} |};
     notices := []; console_errors := []; requests := []; clients := [] |}.

(** A data file written by an earlier version: no [usePublicUrl]. *)
Definition old_data : StoredData :=
  {| data_accessKeyId := Some (lit "id"); data_accessKeySecret := Some (lit "secret");
     data_bucket := Some (lit "my-bucket"); data_region := Some (lit "oss-cn-beijing");
     data_prefix := Some (lit "notes"); data_usePublicUrl := None |}.

(** A data file whose bucket name the SDK refuses: one letter. *)
Definition short_bucket_data : StoredData :=
  {| data_accessKeyId := Some (lit "id"); data_accessKeySecret := Some (lit "secret");
     data_bucket := Some (lit "b"); data_region := Some (lit "oss-cn-beijing");
     data_prefix := None; data_usePublicUrl := None |}.

(** The user retypes the bucket, with a space too many, sets a prefix
    and turns the public addresses off. *)
Definition some_changes : list tab_event :=
  [TextChanged K_bucket (lit " my-photos "); TextChanged K_prefix (lit " /x/y/ ");
   ToggleChanged false].

(** The user types a bucket name letter by letter: the SDK refuses the
    first letter alone. *)
Definition one_letter : list tab_event := [TextChanged K_bucket (lit "m")].

(** A document with the tokens of two uploads under way. *)
Definition two_tokens : Editor :=
  {| value := lit "{{OSS_UPLOADING:1700000000000-k3x9qz}} {{OSS_UPLOADING:1700000000001-a1b2c3}}";
     cursor := {| line := 0; ch := 0 |} |}.

(** A key with dot segments and a doubled slash. *)
Definition dotted_key : jsstring := lit "../a//./b c.png".

(** The session of [pics_world] later on: the reference of the uploaded
    PNG stands in a line of the document, the cursor at its start. *)
Definition uploaded_world : World :=
  {| settings := settings pics_world;
     uploader := Some example_uploader;
     editor := {| value := lit "shot: ![](https://b.r.aliyuncs.com/my%20pics/1700000000000.png) done";
                  cursor := {| line := 0; ch := 0 |} |};
     notices := []; console_errors := []; requests := []; clients := [] |}.

(* ===================================================================== *)
(** ** Tactics *)
(* ===================================================================== *)

(** Runs the plumbing of [M] in the goal: binds, reads and writes of the
    world are computed, the decisions of the code are left standing. *)
Ltac run_M :=
  repeat progress
    (cbv beta iota zeta delta
       [try_catch bind ret throw get edit Notice console_error send new_OSS
        the_uploader upload await_network await_delete delete_request delete_settles
        set_editor set_uploader set_settings];
     cbn [settings uploader editor notices console_errors requests clients fst snd negb]).

(** Decides the comparisons of natural numbers in a goal between
    booleans. *)
Ltac compare_nats :=
  repeat match goal with
         | |- context [?a <? ?b] => destruct (Nat.ltb_spec a b)
         | |- context [?a <=? ?b] => destruct (Nat.leb_spec a b)
         end;
  cbn [andb orb]; try reflexivity; try lia.

(** Division and remainder by a constant, for [lia]. *)
Ltac Zify.zify_post_hook ::= Z.to_euclidean_division_equations.

(** Decides the comparisons of code units in the goal. *)
Ltac compare_units :=
  repeat match goal with
         | |- context [(?a <? ?b)%N] => destruct (N.ltb_spec a b)
         | |- context [(?a <=? ?b)%N] => destruct (N.leb_spec a b)
         | |- context [(?a =? ?b)%N] => destruct (N.eqb_spec a b)
         end;
  cbn [andb orb negb]; try reflexivity; try discriminate; try lia.

(** Turns a hypothesis between booleans on code units into the
    comparisons it stands for. *)
Ltac units_to_prop H :=
  unfold encoded_char, uriUnescaped, is_upper, is_lower, is_digit, is_tab_or_newline,
    is_c0_or_space, is_authority_end, is_path_end, is_slash_or_backslash,
    in_path_percent_encode_set, is_leading_surrogate, is_trailing_surrogate,
    is_slash, PERCENT, SLASH in H;
  repeat rewrite ?orb_true_iff, ?andb_true_iff, ?negb_true_iff, ?orb_false_iff,
    ?andb_false_iff, ?negb_false_iff, ?N.leb_le, ?N.ltb_lt, ?N.eqb_eq,
    ?N.leb_gt, ?N.ltb_ge, ?N.eqb_neq in H.

(** Proves that a test on code units fails for a character that
    satisfies [H]. *)
Ltac unit_excluded H :=
  match goal with
  | |- ?t = false =>
      let E := fresh "E" in
      destruct t eqn:E; [exfalso; units_to_prop H; units_to_prop E; lia | reflexivity]
  end.

(* ##################################################################### *)
(** * Part II: what holds of it *)
(* ##################################################################### *)

(* ===================================================================== *)
(** ** Strings *)
(* ===================================================================== *)

Lemma truthy_nonempty (s : jsstring) : truthy s = true <-> s <> [].
Proof. destruct s; simpl; split; congruence. Qed.

Lemma truthy_empty (s : jsstring) : truthy s = false <-> s = [].
Proof. destruct s; simpl; split; congruence. Qed.

Lemma split_by_nonempty (f : code_unit -> bool) (s : jsstring) : split_by f s <> [].
Proof.
  destruct s as [| c s]; simpl; [discriminate |].
  destruct (f c); [discriminate |]. destruct (split_by f s); discriminate.
Qed.

(** Splitting around a separator: the pieces before it, then the pieces
    after it. *)
Lemma split_by_app_sep (f : code_unit -> bool) (a b : jsstring) (c : code_unit) :
  f c = true -> split_by f (a ++ c :: b) = split_by f a ++ split_by f b.
Proof.
  intros Hc. induction a as [| x a IH]; simpl.
  - now rewrite Hc.
  - destruct (f x).
    + now rewrite IH.
    + rewrite IH. pose proof (split_by_nonempty f a) as Hne.
      destruct (split_by f a); [congruence | reflexivity].
Qed.

(** A string without separator is a single piece. *)
Lemma split_by_none (f : code_unit -> bool) (s : jsstring) :
  forallb (fun c => negb (f c)) s = true -> split_by f s = [s].
Proof.
  induction s as [| c s IH]; simpl; [reflexivity |].
  intros H. apply andb_prop in H as [Hc Hs].
  apply negb_true_iff in Hc. rewrite Hc, (IH Hs). reflexivity.
Qed.

Lemma last_app_nonempty (A : Type) (l1 l2 : list A) (d : A) :
  l2 <> [] -> last (l1 ++ l2) d = last l2 d.
Proof.
  intros H. induction l1 as [| x l1 IH]; simpl; [reflexivity |].
  rewrite IH. destruct (l1 ++ l2) eqn:E; [| reflexivity].
  apply app_eq_nil in E. tauto.
Qed.

Lemma join_cons (sep p q : jsstring) (l : list jsstring) :
  join sep (p :: q :: l) = p ++ sep ++ join sep (q :: l).
Proof. reflexivity. Qed.

(** Joining the pieces of a split gives the string back. *)
Lemma join_split (c : code_unit) (s : jsstring) : join [c] (split c s) = s.
Proof.
  unfold split. induction s as [| x s IH]; [reflexivity |].
  cbn [split_by]. pose proof (split_by_nonempty (N.eqb c) s) as Hne.
  destruct (N.eqb_spec c x) as [-> | Hx].
  - destruct (split_by (N.eqb x) s) as [| seg segs]; [congruence |].
    rewrite join_cons, IH. reflexivity.
  - destruct (split_by (N.eqb c) s) as [| seg segs]; [congruence |].
    destruct segs as [| seg' segs].
    + cbn [join] in *. now rewrite <- IH.
    + rewrite join_cons in *. rewrite <- IH. reflexivity.
Qed.

Lemma split_by_chars (f : code_unit -> bool) (s : jsstring) (Q : code_unit -> Prop) :
  Forall Q s -> Forall (Forall Q) (split_by f s).
Proof.
  induction 1 as [| c s Hc Hs IH]; cbn [split_by]; [repeat constructor |].
  destruct (f c); [constructor; [constructor | exact IH] |].
  destruct (split_by f s) as [| seg segs]; [repeat constructor; assumption |].
  inversion IH; subst. constructor; [constructor |]; assumption.
Qed.

(** No piece of a split holds a separator. *)
Lemma split_by_no_sep (f : code_unit -> bool) (s : jsstring) :
  Forall (fun seg => forallb (fun c => negb (f c)) seg = true) (split_by f s).
Proof.
  induction s as [| c s IH]; cbn [split_by]; [repeat constructor |].
  destruct (f c) eqn:Hc; [constructor; [reflexivity | exact IH] |].
  destruct (split_by f s) as [| seg segs]; [repeat constructor; simpl; now rewrite Hc |].
  inversion IH; subst. constructor; [| assumption].
  simpl. now rewrite Hc.
Qed.

(** Splitting a joined list of pieces that hold no separator gives the
    pieces back. *)
Lemma split_by_join (f : code_unit -> bool) (c : code_unit) (segs : list jsstring) :
  f c = true -> segs <> [] ->
  Forall (fun seg => forallb (fun x => negb (f x)) seg = true) segs ->
  split_by f (join [c] segs) = segs.
Proof.
  intros Hc Hne Hsegs. revert Hne.
  induction Hsegs as [| seg segs Hseg Hsegs IH]; intros Hne; [now destruct Hne |].
  destruct segs as [| seg' segs].
  - cbn [join]. now apply split_by_none.
  - change (join [c] (seg :: seg' :: segs)) with (seg ++ c :: join [c] (seg' :: segs)).
    rewrite split_by_app_sep by exact Hc.
    rewrite split_by_none by exact Hseg. rewrite IH by discriminate. reflexivity.
Qed.

Lemma startsWith_app (p t : jsstring) : startsWith p (p ++ t) = true.
Proof. induction p as [| a p IH]; simpl; [reflexivity |]. now rewrite N.eqb_refl. Qed.

Lemma startsWith_inv (p s : jsstring) :
  startsWith p s = true -> exists t, s = p ++ t.
Proof.
  revert s. induction p as [| a p IH]; intros s H; simpl in *.
  - now exists s.
  - destruct s as [| b s]; [discriminate |].
    apply andb_prop in H as [Hab Hp]. apply N.eqb_eq in Hab. subst b.
    destruct (IH s Hp) as [t ->]. now exists t.
Qed.

(** [indexOf] finds an occurrence... *)
Lemma indexOf_Some (p s : jsstring) (i : nat) :
  indexOf p s = Some i ->
  exists post, s = firstn i s ++ p ++ post /\ length (firstn i s) = i.
Proof.
  revert i. induction s as [| c s IH]; intros i H.
  - simpl in H. destruct (startsWith p []) eqn:E; [| discriminate].
    injection H as <-. apply startsWith_inv in E as [t E]. now exists t.
  - cbn [indexOf] in H. destruct (startsWith p (c :: s)) eqn:E.
    + injection H as <-. apply startsWith_inv in E as [t E]. now exists t.
    + destruct (indexOf p s) as [j |] eqn:Ej; [| discriminate].
      injection H as <-. destruct (IH j eq_refl) as [post [Hs Hl]].
      exists post. simpl. split; [now rewrite <- Hs | now rewrite Hl].
Qed.

(** ... and it is the first one. *)
Lemma indexOf_first (p pre post : jsstring) :
  (forall pre' post', pre ++ p ++ post = pre' ++ p ++ post' -> length pre <= length pre') ->
  indexOf p (pre ++ p ++ post) = Some (length pre).
Proof.
  induction pre as [| c pre IH]; intros Hmin.
  - simpl app. destruct (p ++ post) eqn:E; simpl; rewrite <- E, startsWith_app; reflexivity.
  - simpl app. cbn [indexOf].
    destruct (startsWith p (c :: pre ++ p ++ post)) eqn:E.
    + apply startsWith_inv in E as [t E].
      specialize (Hmin [] t). simpl in Hmin. specialize (Hmin E). lia.
    + rewrite IH; [reflexivity |].
      intros pre' post' Heq. specialize (Hmin (c :: pre') post').
      simpl in Hmin. rewrite Heq in Hmin. specialize (Hmin eq_refl). lia.
Qed.

Lemma indexOf_None (p s : jsstring) :
  indexOf p s = None -> forall pre post, s <> pre ++ p ++ post.
Proof.
  induction s as [| c s IH]; intros H pre post Heq.
  - simpl in H. destruct (startsWith p []) eqn:E; [discriminate |].
    destruct pre; [| discriminate]. simpl in Heq.
    rewrite Heq, startsWith_app in E. discriminate.
  - cbn [indexOf] in H. destruct (startsWith p (c :: s)) eqn:E; [discriminate |].
    destruct (indexOf p s) eqn:Ei; [discriminate |].
    destruct pre as [| x pre].
    + simpl in Heq. rewrite Heq, startsWith_app in E. discriminate.
    + injection Heq as _ Heq. exact (IH eq_refl pre post Heq).
Qed.

Lemma includes_app (p pre post : jsstring) : includes p (pre ++ p ++ post) = true.
Proof.
  unfold includes. destruct (indexOf p (pre ++ p ++ post)) eqn:E; [reflexivity |].
  exfalso. exact (indexOf_None _ _ E pre post eq_refl).
Qed.

Lemma firstn_length_app (A : Type) (l1 l2 : list A) : firstn (length l1) (l1 ++ l2) = l1.
Proof. induction l1; simpl; congruence. Qed.

Lemma skipn_length_app (A : Type) (l1 l2 : list A) : skipn (length l1) (l1 ++ l2) = l2.
Proof. induction l1; simpl; congruence. Qed.

Lemma skipn_two_app (A : Type) (l1 l2 l3 : list A) :
  skipn (length l1 + length l2) (l1 ++ l2 ++ l3) = l3.
Proof.
  induction l1; simpl; [apply skipn_length_app | assumption].
Qed.

(** [s.replace(token, "")] cuts the first occurrence of [token] out. *)
Lemma replace_string_first (p pre post : jsstring) :
  (forall pre' post', pre ++ p ++ post = pre' ++ p ++ post' -> length pre <= length pre') ->
  replace_string p [] (pre ++ p ++ post) = pre ++ post.
Proof.
  intros Hmin. unfold replace_string. rewrite (indexOf_first _ _ _ Hmin).
  now rewrite firstn_length_app, skipn_two_app.
Qed.

(** The first occurrence, read off [indexOf]. *)
Lemma indexOf_le (p pre post : jsstring) (i : nat) :
  indexOf p (pre ++ p ++ post) = Some i -> i <= length pre.
Proof.
  revert i. induction pre as [| c pre IH]; intros i H.
  - simpl app in H. destruct (p ++ post) eqn:E; simpl in H;
      rewrite <- E, startsWith_app in H; injection H as <-; lia.
  - simpl app in H. cbn [indexOf] in H.
    destruct (startsWith p (c :: pre ++ p ++ post)); [injection H as <-; lia |].
    destruct (indexOf p (pre ++ p ++ post)) as [j |] eqn:Ej; [| discriminate].
    injection H as <-. specialize (IH j eq_refl). simpl. lia.
Qed.

Lemma first_occurrence (p s pre post : jsstring) :
  s = pre ++ p ++ post ->
  indexOf p s = Some (length pre) ->
  forall pre' post', pre ++ p ++ post = pre' ++ p ++ post' -> length pre <= length pre'.
Proof.
  intros Hs Hi pre' post' Heq. rewrite Hs, Heq in Hi. now apply indexOf_le in Hi.
Qed.

Lemma forallb_impl (f g : code_unit -> bool) (s : jsstring) :
  (forall c, f c = true -> g c = true) -> forallb f s = true -> forallb g s = true.
Proof.
  intros Hfg. induction s as [| c s IH]; [reflexivity |].
  cbn [forallb]. intros H. apply andb_prop in H as [Hc Hs].
  now rewrite (Hfg c Hc), IH.
Qed.

Lemma str_eqb_eq (a b : jsstring) : str_eqb a b = true -> a = b.
Proof.
  revert b. induction a as [| x a IH]; intros [| y b] H; try discriminate; [reflexivity |].
  cbn [str_eqb] in H. apply andb_prop in H as [Hxy Hab].
  apply N.eqb_eq in Hxy. subst y. now rewrite (IH b Hab).
Qed.

Lemma filter_all (f : code_unit -> bool) (s : jsstring) :
  forallb f s = true -> filter f s = s.
Proof.
  induction s as [| c s IH]; [reflexivity |]. cbn [forallb filter].
  intros H. apply andb_prop in H as [Hc Hs]. now rewrite Hc, IH.
Qed.

Lemma takeWhile_all (f : code_unit -> bool) (s : jsstring) :
  forallb f s = true -> takeWhile f s = s.
Proof.
  induction s as [| c s IH]; [reflexivity |]. cbn [forallb takeWhile].
  intros H. apply andb_prop in H as [Hc Hs]. now rewrite Hc, IH.
Qed.

Lemma takeWhile_stop (f : code_unit -> bool) (s t : jsstring) (x : code_unit) :
  forallb f s = true -> f x = false -> takeWhile f (s ++ x :: t) = s.
Proof.
  intros Hs Hx. induction s as [| c s IH]; cbn [app takeWhile].
  - now rewrite Hx.
  - cbn [forallb] in Hs. apply andb_prop in Hs as [Hc Hs]. now rewrite Hc, IH.
Qed.

Lemma dropWhile_stop (f : code_unit -> bool) (s t : jsstring) (x : code_unit) :
  forallb f s = true -> f x = false -> dropWhile f (s ++ x :: t) = x :: t.
Proof.
  intros Hs Hx. induction s as [| c s IH]; cbn [app dropWhile].
  - now rewrite Hx.
  - cbn [forallb] in Hs. apply andb_prop in Hs as [Hc Hs]. now rewrite Hc, IH.
Qed.

Lemma filter_map_length (A B : Type) (f : B -> bool) (g : A -> B) (l : list A) :
  length (filter f (map g l)) = length (filter (fun a => f (g a)) l).
Proof.
  induction l as [| a l IH]; simpl; [reflexivity |].
  destruct (f (g a)); simpl; now rewrite IH.
Qed.

(* ===================================================================== *)
(** ** Regular expressions *)
(* ===================================================================== *)

(** A successful match is a success of the continuation, on a suffix of
    the input. *)
Lemma rmatch_continues (ic : bool) (R : Type) (r : regex) :
  forall (s : jsstring) (caps : list jsstring)
         (k : jsstring -> list jsstring -> option R) (x : R),
    rmatch ic r s caps k = Some x ->
    exists s' caps', k s' caps' = Some x /\ length s' <= length s.
Proof.
  induction r as [| c | | r1 IH1 r2 IH2 | r1 IH1 r2 IH2 | r1 IH1 | | r1 IH1];
    intros s caps k x H; cbn [rmatch] in H.
  - exists s, caps. split; [exact H | lia].
  - destruct s as [| y s]; [discriminate |].
    destruct (canonicalize ic y =? canonicalize ic c)%N; [| discriminate].
    exists s, caps. split; [exact H | simpl; lia].
  - destruct s as [| y s]; [discriminate |].
    destruct (is_line_terminator y); [discriminate |].
    exists s, caps. split; [exact H | simpl; lia].
  - apply IH1 in H as (s1 & caps1 & H & Hl1).
    apply IH2 in H as (s2 & caps2 & H & Hl2).
    exists s2, caps2. split; [exact H | lia].
  - destruct (rmatch ic r1 s caps k) as [y |] eqn:E.
    + injection H as ->. now apply IH1 in E.
    + now apply IH2 in H.
  - destruct (rmatch ic r1 s caps k) as [y |] eqn:E.
    + injection H as ->. now apply IH1 in E.
    + exists s, caps. split; [exact H | lia].
  - induction s as [| y s IHs].
    + destruct (k [] caps) eqn:E; [| discriminate].
      exists [], caps. split; [congruence | lia].
    + destruct (k (y :: s) caps) eqn:E.
      * exists (y :: s), caps. split; [congruence | lia].
      * destruct (is_line_terminator y); [discriminate |].
        destruct (IHs H) as (s' & caps' & Hk & Hl).
        exists s', caps'. split; [exact Hk | simpl; lia].
  - apply IH1 in H as (s1 & caps1 & H & Hl1).
    exists s1, (caps1 ++ [firstn (length s - length s1) s]). split; [exact H | lia].
Qed.

(** A match is no longer than the text it is found in. *)
Lemma match_here_length (re : RegExp) (s : jsstring) (n : nat) (caps : list jsstring) :
  match_here re s = Some (n, caps) -> n <= length s.
Proof.
  unfold match_here. intros H.
  apply rmatch_continues in H as (s' & caps' & H & _).
  injection H as <- _. lia.
Qed.

Lemma rmatch_consumes (ic : bool) (R : Type) (r : regex) :
  consumes r = true ->
  forall (s : jsstring) (caps : list jsstring)
         (k : jsstring -> list jsstring -> option R) (x : R),
    rmatch ic r s caps k = Some x ->
    exists s' caps', k s' caps' = Some x /\ length s' < length s.
Proof.
  induction r as [| c | | r1 IH1 r2 IH2 | r1 IH1 r2 IH2 | r1 IH1 | | r1 IH1];
    intros Hr s caps k x H; cbn [consumes] in Hr; try discriminate; cbn [rmatch] in H.
  - destruct s as [| y s]; [discriminate |].
    destruct (canonicalize ic y =? canonicalize ic c)%N; [| discriminate].
    exists s, caps. split; [exact H | simpl; lia].
  - destruct s as [| y s]; [discriminate |].
    destruct (is_line_terminator y); [discriminate |].
    exists s, caps. split; [exact H | simpl; lia].
  - destruct (consumes r1) eqn:H1.
    + apply (IH1 eq_refl) in H as (s1 & caps1 & H & Hl1).
      apply rmatch_continues in H as (s2 & caps2 & H & Hl2).
      exists s2, caps2. split; [exact H | lia].
    + cbn [orb] in Hr. apply rmatch_continues in H as (s1 & caps1 & H & Hl1).
      apply (IH2 Hr) in H as (s2 & caps2 & H & Hl2).
      exists s2, caps2. split; [exact H | lia].
  - apply andb_prop in Hr as [Hr1 Hr2].
    destruct (rmatch ic r1 s caps k) as [y |] eqn:E.
    + injection H as ->. now apply (IH1 Hr1) in E.
    + now apply (IH2 Hr2) in H.
  - apply (IH1 Hr) in H as (s1 & caps1 & H & Hl1).
    exists s1, (caps1 ++ [firstn (length s - length s1) s]). split; [exact H | lia].
Qed.

Lemma match_here_nonempty (re : RegExp) (s : jsstring) (n : nat) (caps : list jsstring) :
  consumes (pattern re) = true -> match_here re s = Some (n, caps) -> 1 <= n.
Proof.
  unfold match_here. intros Hre H.
  apply (rmatch_consumes _ _ _ Hre) in H as (s' & caps' & H & Hl).
  injection H as <- _. lia.
Qed.

Lemma exec_nonempty (re : RegExp) (s : jsstring) (m : MatchResult) :
  consumes (pattern re) = true -> exec re s = Some m -> 1 <= length (matched m).
Proof.
  intros Hre. revert m. induction s as [| c s IH]; intros m H; cbn [exec] in H.
  - destruct (match_here re []) as [[n caps] |] eqn:Em; [| discriminate].
    apply match_here_length in Em as Hn. apply (match_here_nonempty _ _ _ _ Hre) in Em.
    simpl in Hn. lia.
  - destruct (match_here re (c :: s)) as [[n caps] |] eqn:Em.
    + injection H as <-. cbn [matched].
      apply match_here_length in Em as Hn. apply (match_here_nonempty _ _ _ _ Hre) in Em.
      rewrite length_firstn. lia.
    + destruct (exec re s) as [m' |]; [| discriminate].
      injection H as <-. cbn [shift matched]. now apply IH.
Qed.

Lemma cut_with_ext (f g : nat -> bool) (s : jsstring) :
  forall pos, (forall q, pos <= q -> f q = g q) -> cut_with f pos s = cut_with g pos s.
Proof.
  induction s as [| c s IH]; intros pos H; simpl; [reflexivity |].
  rewrite (H pos) by lia. rewrite (IH (S pos)); [reflexivity |].
  intros q Hq. apply H. lia.
Qed.

(** The matches found from an offset on start at or after it. *)
Lemma matchAll_from_index (re : RegExp) (s : jsstring) :
  forall skip pos m, In m (matchAll_from re s skip pos) -> pos + skip <= index m.
Proof.
  induction s as [| c s IH]; intros skip pos m Hin.
  - destruct skip; simpl in Hin; [| contradiction].
    destruct (match_here re []) as [[n caps] |]; simpl in Hin; [| contradiction].
    destruct Hin as [<- | []]. simpl. lia.
  - destruct skip as [| skip]; cbn [matchAll_from] in Hin.
    + destruct (match_here re (c :: s)) as [[n caps] |].
      * destruct Hin as [<- | Hin]; [simpl; lia |]. apply IH in Hin. lia.
      * apply IH in Hin. lia.
    + apply IH in Hin. lia.
Qed.

Lemma covered_later (ms : list MatchResult) (q : nat) :
  (forall m, In m ms -> q < index m) -> covered ms q = false.
Proof.
  intros H. unfold covered. destruct (existsb _ ms) eqn:E; [| reflexivity].
  apply existsb_exists in E as (m & Hin & Hm).
  apply andb_prop in Hm as [Hm _]. apply Nat.leb_le in Hm.
  specialize (H m Hin). lia.
Qed.

Lemma covered_cons (m : MatchResult) (ms : list MatchResult) (q : nat) :
  covered (m :: ms) q
  = (index m <=? q) && (q <? index m + length (matched m)) || covered ms q.
Proof. reflexivity. Qed.

Lemma strip_from_cut (re : RegExp) (s : jsstring) :
  forall skip pos,
    strip_from re s skip =
    cut_with (fun q => (q <? pos + skip) || covered (matchAll_from re s skip pos) q) pos s.
Proof.
  induction s as [| c s IH]; intros skip pos; [reflexivity |].
  destruct skip as [| skip]; cbn [strip_from matchAll_from cut_with].
  - destruct (match_here re (c :: s)) as [[n caps] |] eqn:Em.
    + pose proof (match_here_length _ _ _ _ Em) as Hn.
      rewrite covered_cons. cbn [index matched].
      destruct n as [| n].
      * cbn [firstn length Nat.sub].
        rewrite (covered_later (matchAll_from re s 0 (S pos)) pos)
          by (intros m Hm; apply matchAll_from_index in Hm; lia).
        replace ((pos <? pos + 0) || ((pos <=? pos) && (pos <? pos + 0) || false))
          with false by compare_nats.
        f_equal. rewrite (IH 0 (S pos)). apply cut_with_ext.
        intros q Hq. rewrite covered_cons. cbn [index matched firstn length].
        destruct (covered (matchAll_from re s 0 (S pos)) q); compare_nats.
      * assert (Hlen : length (firstn (S n) (c :: s)) = S n)
          by (rewrite length_firstn; lia).
        rewrite Hlen.
        replace ((pos <? pos + 0) || ((pos <=? pos) && (pos <? pos + S n)
                 || covered (matchAll_from re s (S n - 1) (S pos)) pos))
          with true by compare_nats.
        rewrite (IH n (S pos)). apply cut_with_ext.
        intros q Hq. rewrite covered_cons. cbn [index matched]. rewrite Hlen.
        replace (S n - 1) with n by lia.
        destruct (covered (matchAll_from re s n (S pos)) q); compare_nats.
    + rewrite (covered_later (matchAll_from re s 0 (S pos)) pos)
        by (intros m Hm; apply matchAll_from_index in Hm; lia).
      replace ((pos <? pos + 0) || false) with false by compare_nats.
      f_equal. rewrite (IH 0 (S pos)). apply cut_with_ext.
      intros q Hq. destruct (covered (matchAll_from re s 0 (S pos)) q); compare_nats.
  - replace (pos <? pos + S skip) with true by compare_nats.
    cbn [orb]. rewrite (IH skip (S pos)). apply cut_with_ext.
    intros q Hq. destruct (covered (matchAll_from re s skip (S pos)) q); compare_nats.
Qed.

(** [s.replace(re, "")] with [g] removes exactly the characters of the
    matches that [s.matchAll(re)] lists. *)
Lemma replace_all_cuts_matches (re : RegExp) (s : jsstring) :
  replace_all_empty re s = cut_matches (matchAll re s) s.
Proof.
  unfold replace_all_empty, cut_matches, matchAll.
  rewrite (strip_from_cut re s 0 0). apply cut_with_ext.
  intros q _. reflexivity.
Qed.

(** The leftmost match of [exec] lies in the text, at its [index]. *)
Lemma exec_occurrence (re : RegExp) (s : jsstring) (m : MatchResult) :
  exec re s = Some m ->
  s = firstn (index m) s ++ matched m ++ skipn (index m + length (matched m)) s.
Proof.
  revert m. induction s as [| c s IH]; intros m H; cbn [exec] in H.
  - destruct (match_here re []) as [[n caps] |]; [| discriminate].
    injection H as <-. destruct n; reflexivity.
  - destruct (match_here re (c :: s)) as [[n caps] |] eqn:Em.
    + injection H as <-. cbn [index matched firstn app].
      pose proof (match_here_length _ _ _ _ Em) as Hn.
      rewrite length_firstn, Nat.min_l by exact Hn. cbn [Nat.add].
      now rewrite firstn_skipn.
    + destruct (exec re s) as [m' |]; [| discriminate].
      injection H as <-. cbn [shift index matched firstn skipn Nat.add app].
      f_equal. now apply IH.
Qed.

Lemma exec_index_le (re : RegExp) (s : jsstring) (m : MatchResult) :
  exec re s = Some m -> index m <= length s.
Proof.
  revert m. induction s as [| c s IH]; intros m H; cbn [exec] in H.
  - destruct (match_here re []) as [[n caps] |]; [| discriminate].
    injection H as <-. simpl. lia.
  - destruct (match_here re (c :: s)) as [[n caps] |].
    + injection H as <-. simpl. lia.
    + destruct (exec re s) as [m' |]; [| discriminate].
      injection H as <-. specialize (IH m' eq_refl). simpl. lia.
Qed.

(** [line.replace(re, "")] without [g] removes the leftmost match and
    keeps what is before and after it. *)
Lemma replace_first_keeps_rest (re : RegExp) (s : jsstring) (m : MatchResult) :
  exec re s = Some m ->
  exists before after,
    s = before ++ matched m ++ after /\
    length before = index m /\
    replace_first_empty re s = before ++ after.
Proof.
  intros H. pose proof (exec_occurrence _ _ _ H) as Hs.
  exists (firstn (index m) s), (skipn (index m + length (matched m)) s).
  split; [exact Hs |]. split.
  - rewrite length_firstn. apply Nat.min_l. now apply exec_index_le in H.
  - unfold replace_first_empty. now rewrite H.
Qed.

(* ===================================================================== *)
(** ** [decodeURIComponent] undoes [encodeURIComponent]                   *)
(* ===================================================================== *)

Lemma hex_value_digit (d : N) : (d < 16)%N -> hex_value (hex_digit d) = Some d.
Proof.
  intros Hd. unfold hex_value, hex_digit, is_digit.
  compare_units; f_equal; lia.
Qed.

Lemma hex_octet_encode (b : N) :
  (b < 256)%N -> hex_octet (hex_digit (b / 16)) (hex_digit (b mod 16)) = Some b.
Proof.
  intros Hb. unfold hex_octet.
  rewrite !hex_value_digit by lia. f_equal. lia.
Qed.

Lemma escape_octet_encode (b : N) :
  (b < 256)%N -> escape_octet PERCENT (hex_digit (b / 16)) (hex_digit (b mod 16)) = Some b.
Proof. intros Hb. unfold escape_octet. rewrite N.eqb_refl. now apply hex_octet_encode. Qed.

(** Decoding the escapes of one, two, three and four octets. *)
Lemma decode_one_octet (b : N) (t : jsstring) :
  (b < 128)%N ->
  decodeURIComponent (percent_encode_octets [b] ++ t)
  = option_map (cons b) (decodeURIComponent t).
Proof.
  intros Hb. cbn [percent_encode_octets flat_map percent_encode_octet app decodeURIComponent].
  rewrite N.eqb_refl. cbn [negb]. rewrite hex_octet_encode by lia.
  unfold leading_ones. now compare_units.
Qed.

Lemma decode_two_octets (b1 b2 : N) (t : jsstring) :
  (192 <= b1 < 224)%N -> (b2 < 256)%N ->
  decodeURIComponent (percent_encode_octets [b1; b2] ++ t)
  = decoded [b1; b2] (decodeURIComponent t).
Proof.
  intros H1 H2. cbn [percent_encode_octets flat_map percent_encode_octet app decodeURIComponent].
  rewrite N.eqb_refl. cbn [negb]. rewrite hex_octet_encode by lia.
  replace (leading_ones b1) with 2%nat by (unfold leading_ones; compare_units).
  now rewrite escape_octet_encode by lia.
Qed.

Lemma decode_three_octets (b1 b2 b3 : N) (t : jsstring) :
  (224 <= b1 < 240)%N -> (b2 < 256)%N -> (b3 < 256)%N ->
  decodeURIComponent (percent_encode_octets [b1; b2; b3] ++ t)
  = decoded [b1; b2; b3] (decodeURIComponent t).
Proof.
  intros H1 H2 H3.
  cbn [percent_encode_octets flat_map percent_encode_octet app decodeURIComponent].
  rewrite N.eqb_refl. cbn [negb]. rewrite hex_octet_encode by lia.
  replace (leading_ones b1) with 3%nat by (unfold leading_ones; compare_units).
  now rewrite !escape_octet_encode by lia.
Qed.

Lemma decode_four_octets (b1 b2 b3 b4 : N) (t : jsstring) :
  (240 <= b1 < 248)%N -> (b2 < 256)%N -> (b3 < 256)%N -> (b4 < 256)%N ->
  decodeURIComponent (percent_encode_octets [b1; b2; b3; b4] ++ t)
  = decoded [b1; b2; b3; b4] (decodeURIComponent t).
Proof.
  intros H1 H2 H3 H4.
  cbn [percent_encode_octets flat_map percent_encode_octet app decodeURIComponent].
  rewrite N.eqb_refl. cbn [negb]. rewrite hex_octet_encode by lia.
  replace (leading_ones b1) with 4%nat by (unfold leading_ones; compare_units).
  now rewrite !escape_octet_encode by lia.
Qed.

(** The escapes of a code point outside ASCII decode to that code point,
    as one code unit or as a surrogate pair. *)
Lemma decode_code_point (cp : N) (t : jsstring) :
  (128 <= cp < 1114112)%N -> ~ (55296 <= cp <= 57343)%N ->
  decodeURIComponent (percent_encode_octets (utf8_encode cp) ++ t)
  = option_map (app (UTF16EncodeCodePoint cp)) (decodeURIComponent t).
Proof.
  intros Hcp Hsur. unfold utf8_encode.
  destruct (N.ltb_spec cp 128); [lia |].
  destruct (N.ltb_spec cp 2048); [| destruct (N.ltb_spec cp 65536)].
  - rewrite decode_two_octets by lia. unfold decoded, utf8_decode, is_continuation.
    replace ((192 + cp / 64 - 192) * 64 + (128 + cp mod 64 - 128))%N with cp by lia.
    replace ((128 <=? 128 + cp mod 64) && (128 + cp mod 64 <=? 191) && (128 <=? cp))%N
      with true by compare_units.
    now destruct (decodeURIComponent t).
  - rewrite decode_three_octets by lia. unfold decoded, utf8_decode, is_continuation.
    replace ((224 + cp / 4096 - 224) * 4096 + (128 + (cp / 64) mod 64 - 128) * 64
             + (128 + cp mod 64 - 128))%N with cp by lia.
    replace ((128 <=? 128 + (cp / 64) mod 64) && (128 + (cp / 64) mod 64 <=? 191)
             && ((128 <=? 128 + cp mod 64) && (128 + cp mod 64 <=? 191))
             && (2048 <=? cp) && negb ((55296 <=? cp) && (cp <=? 57343)))%N
      with true by compare_units.
    now destruct (decodeURIComponent t).
  - rewrite decode_four_octets by lia. unfold decoded, utf8_decode, is_continuation.
    replace ((240 + cp / 262144 - 240) * 262144 + (128 + (cp / 4096) mod 64 - 128) * 4096
             + (128 + (cp / 64) mod 64 - 128) * 64 + (128 + cp mod 64 - 128))%N
      with cp by lia.
    replace ((128 <=? 128 + (cp / 4096) mod 64) && (128 + (cp / 4096) mod 64 <=? 191)
             && ((128 <=? 128 + (cp / 64) mod 64) && (128 + (cp / 64) mod 64 <=? 191))
             && ((128 <=? 128 + cp mod 64) && (128 + cp mod 64 <=? 191))
             && (65536 <=? cp) && (cp <=? 1114111))%N
      with true by compare_units.
    now destruct (decodeURIComponent t).
Qed.
Lemma option_map_compose (A B C : Type) (f : B -> C) (g : A -> B) (x : option A) :
  option_map f (option_map g x) = option_map (fun a => f (g a)) x.
Proof. now destruct x. Qed.

Lemma unescaped_not_percent (c : code_unit) :
  uriUnescaped c = true -> (c =? PERCENT)%N = false.
Proof.
  unfold uriUnescaped, is_upper, is_lower, is_digit, PERCENT. intros H.
  destruct (N.eqb_spec c 37); [| reflexivity]. subst c. discriminate.
Qed.

Lemma surrogate_pair_range (c d : code_unit) :
  is_leading_surrogate c = true -> is_trailing_surrogate d = true ->
  (65536 <= surrogate_pair_to_code_point c d < 1114112)%N /\
  UTF16EncodeCodePoint (surrogate_pair_to_code_point c d) = [c; d].
Proof.
  unfold is_leading_surrogate, is_trailing_surrogate, surrogate_pair_to_code_point,
    UTF16EncodeCodePoint.
  intros Hc Hd. apply andb_prop in Hc as [Hc1 Hc2]. apply andb_prop in Hd as [Hd1 Hd2].
  apply N.leb_le in Hc1, Hc2, Hd1, Hd2.
  split; [lia |].
  destruct (N.leb_spec ((c - 55296) * 1024 + (d - 56320) + 65536) 65535); [lia |].
  f_equal; [| f_equal]; lia.
Qed.

(** [decodeURIComponent] undoes [encodeURIComponent], also in front of
    further text. *)
Lemma decode_encode_app (n : nat) :
  forall s e t,
    length s <= n -> well_formed s = true -> encodeURIComponent s = Some e ->
    decodeURIComponent (e ++ t) = option_map (app s) (decodeURIComponent t).
Proof.
  induction n as [| n IH]; intros s e t Hn Hwf Henc.
  - destruct s; [| simpl in Hn; lia]. injection Henc as <-. simpl.
    now destruct (decodeURIComponent t).
  - destruct s as [| c s1].
    { injection Henc as <-. simpl. now destruct (decodeURIComponent t). }
    cbn [well_formed forallb] in Hwf. apply andb_prop in Hwf as [Hc Hwf1].
    apply N.ltb_lt in Hc. fold (well_formed s1) in Hwf1.
    cbn [encodeURIComponent] in Henc. simpl in Hn.
    destruct (uriUnescaped c) eqn:Hun.
    { destruct (encodeURIComponent s1) as [e1 |] eqn:E1; [| discriminate].
      injection Henc as <-. cbn [app decodeURIComponent].
      rewrite (unescaped_not_percent c Hun). cbn [negb].
      rewrite (IH s1 e1 t) by (assumption || lia).
      now destruct (decodeURIComponent t). }
    destruct (is_trailing_surrogate c) eqn:Htr; [discriminate |].
    destruct (is_leading_surrogate c) eqn:Hld.
    { destruct s1 as [| d s2]; [discriminate |].
      destruct (is_trailing_surrogate d) eqn:Hd; [| discriminate].
      destruct (encodeURIComponent s2) as [e2 |] eqn:E2; [| discriminate].
      injection Henc as <-.
      cbn [well_formed forallb] in Hwf1. apply andb_prop in Hwf1 as [_ Hwf2].
      destruct (surrogate_pair_range c d Hld Hd) as [Hrange Hpair].
      rewrite <- app_assoc, decode_code_point by lia.
      rewrite (IH s2 e2 t) by (assumption || (simpl in Hn; lia)).
      rewrite Hpair. now destruct (decodeURIComponent t). }
    destruct (encodeURIComponent s1) as [e1 |] eqn:E1; [| discriminate].
    injection Henc as <-. rewrite <- app_assoc.
    unfold is_trailing_surrogate in Htr. unfold is_leading_surrogate in Hld.
    destruct (N.ltb_spec c 128).
    + unfold utf8_encode. destruct (N.ltb_spec c 128); [| lia].
      rewrite decode_one_octet by assumption.
      rewrite (IH s1 e1 t) by (assumption || lia).
      now destruct (decodeURIComponent t).
    + rewrite decode_code_point.
      * rewrite (IH s1 e1 t) by (assumption || lia).
        unfold UTF16EncodeCodePoint. destruct (N.leb_spec c 65535); [| lia].
        now destruct (decodeURIComponent t).
      * lia.
      * intros Hs.
        destruct (N.leb_spec 56320 c), (N.leb_spec c 57343),
          (N.leb_spec 55296 c), (N.leb_spec c 56319); simpl in *; try discriminate; lia.
Qed.

Lemma decode_encode (s e : jsstring) :
  well_formed s = true -> encodeURIComponent s = Some e ->
  decodeURIComponent e = Some s.
Proof.
  intros Hwf Henc.
  pose proof (decode_encode_app (length s) s e [] (le_n _) Hwf Henc) as H.
  rewrite app_nil_r in H. rewrite H. simpl. now rewrite app_nil_r.
Qed.

Lemma encode_segments_length (segs es : list jsstring) :
  encode_segments segs = Some es -> length es = length segs.
Proof.
  revert es. induction segs as [| seg segs IH]; intros es H; cbn [encode_segments] in H.
  - now injection H as <-.
  - destruct (encodeURIComponent seg); [| discriminate].
    destruct (encode_segments segs) as [es' |]; [| discriminate].
    injection H as <-. simpl. now rewrite (IH es' eq_refl).
Qed.

(** Decoding the joined encoded segments gives the joined segments. *)
Lemma decode_segments (segs es : list jsstring) :
  Forall (fun seg => well_formed seg = true) segs ->
  encode_segments segs = Some es ->
  decodeURIComponent (join (lit "/") es) = Some (join (lit "/") segs).
Proof.
  intros Hwf. revert es. induction Hwf as [| seg segs Hseg Hsegs IH]; intros es H.
  - now injection H as <-.
  - cbn [encode_segments] in H.
    destruct (encodeURIComponent seg) as [e |] eqn:E; [| discriminate].
    destruct (encode_segments segs) as [es' |] eqn:Es; [| discriminate].
    injection H as <-.
    pose proof (encode_segments_length segs es' Es) as Hlen.
    destruct segs as [| seg' segs]; destruct es' as [| e' es']; try discriminate.
    + cbn [join]. now apply decode_encode.
    + change (join (lit "/") (e :: e' :: es'))
        with (e ++ SLASH :: join (lit "/") (e' :: es')).
      change (join (lit "/") (seg :: seg' :: segs))
        with (seg ++ SLASH :: join (lit "/") (seg' :: segs)).
      rewrite (decode_encode_app (length seg) seg e _ (le_n _) Hseg E).
      cbn [decodeURIComponent]. cbn [N.eqb SLASH PERCENT Pos.eqb negb].
      now rewrite (IH (e' :: es') eq_refl).
Qed.

Lemma hex_digit_unescaped (d : N) : (d < 16)%N -> uriUnescaped (hex_digit d) = true.
Proof.
  intros Hd. unfold hex_digit. destruct (N.ltb_spec d 10).
  - unfold uriUnescaped, is_digit.
    replace ((48 <=? 48 + d) && (48 + d <=? 57))%N with true; [now rewrite orb_true_r |].
    symmetry. apply andb_true_iff. split; apply N.leb_le; lia.
  - unfold uriUnescaped, is_upper.
    replace ((65 <=? 55 + d) && (55 + d <=? 90))%N with true; [reflexivity |].
    symmetry. apply andb_true_iff. split; apply N.leb_le; lia.
Qed.

Lemma utf8_encode_octets (cp : N) :
  (cp < 2097152)%N -> Forall (fun b => b < 256)%N (utf8_encode cp).
Proof.
  intros Hcp. unfold utf8_encode.
  destruct (N.ltb_spec cp 128); [| destruct (N.ltb_spec cp 2048);
                                   [| destruct (N.ltb_spec cp 65536)]];
    repeat constructor; lia.
Qed.

Lemma percent_encode_octets_chars (octets : list N) :
  Forall (fun b => b < 256)%N octets ->
  forallb encoded_char (percent_encode_octets octets) = true.
Proof.
  induction 1 as [| b bs Hb Hbs IH]; [reflexivity |].
  cbn [percent_encode_octets flat_map percent_encode_octet app forallb].
  unfold encoded_char at 1 2 3.
  rewrite !hex_digit_unescaped by lia. rewrite N.eqb_refl, orb_true_r.
  exact IH.
Qed.

(** [encodeURIComponent] gives unescaped characters and escapes only. *)
Lemma encode_chars (n : nat) :
  forall s e, length s <= n -> well_formed s = true -> encodeURIComponent s = Some e ->
              forallb encoded_char e = true.
Proof.
  induction n as [| n IH]; intros s e Hn Hwf Henc.
  - destruct s; [| simpl in Hn; lia]. now injection Henc as <-.
  - destruct s as [| c s1]; [now injection Henc as <- |].
    cbn [well_formed forallb] in Hwf. apply andb_prop in Hwf as [Hc Hwf1].
    apply N.ltb_lt in Hc. fold (well_formed s1) in Hwf1.
    cbn [encodeURIComponent] in Henc. simpl in Hn.
    destruct (uriUnescaped c) eqn:Hun.
    { destruct (encodeURIComponent s1) as [e1 |] eqn:E1; [| discriminate].
      injection Henc as <-. cbn [forallb]. unfold encoded_char at 1. rewrite Hun.
      apply (IH s1 e1); (assumption || lia). }
    destruct (is_trailing_surrogate c); [discriminate |].
    destruct (is_leading_surrogate c) eqn:Hld.
    { destruct s1 as [| d s2]; [discriminate |].
      destruct (is_trailing_surrogate d) eqn:Hd; [| discriminate].
      destruct (encodeURIComponent s2) as [e2 |] eqn:E2; [| discriminate].
      injection Henc as <-.
      cbn [well_formed forallb] in Hwf1. apply andb_prop in Hwf1 as [_ Hwf2].
      destruct (surrogate_pair_range c d Hld Hd) as [Hrange _].
      rewrite forallb_app, percent_encode_octets_chars
        by (apply utf8_encode_octets; lia).
      apply (IH s2 e2); (assumption || (simpl in Hn; lia)). }
    destruct (encodeURIComponent s1) as [e1 |] eqn:E1; [| discriminate].
    injection Henc as <-.
    rewrite forallb_app, percent_encode_octets_chars
      by (apply utf8_encode_octets; lia).
    apply (IH s1 e1); (assumption || lia).
Qed.

Lemma encode_segments_chars (segs es : list jsstring) :
  Forall (fun seg => well_formed seg = true) segs ->
  encode_segments segs = Some es ->
  Forall (fun e => forallb encoded_char e = true) es.
Proof.
  intros Hwf. revert es. induction Hwf as [| seg segs Hseg Hsegs IH]; intros es H.
  - injection H as <-. constructor.
  - cbn [encode_segments] in H.
    destruct (encodeURIComponent seg) as [e |] eqn:E; [| discriminate].
    destruct (encode_segments segs) as [es' |]; [| discriminate].
    injection H as <-. constructor; [| now apply IH].
    exact (encode_chars (length seg) seg e (le_n _) Hseg E).
Qed.

(* ===================================================================== *)
(** ** The path of an address through the URL parser *)
(* ===================================================================== *)

(** The path state leaves an encoded segment as it is. *)
Lemma path_percent_encode_encoded (e : jsstring) :
  forallb encoded_char e = true -> path_percent_encode e = e.
Proof.
  induction e as [| c e IH]; [reflexivity |].
  cbn [forallb]. intros H. apply andb_prop in H as [Hc He].
  cbn [path_percent_encode].
  replace (is_leading_surrogate c) with false by (symmetry; unit_excluded Hc).
  replace (is_trailing_surrogate c) with false by (symmetry; unit_excluded Hc).
  replace (in_path_percent_encode_set c) with false by (symmetry; unit_excluded Hc).
  now rewrite IH.
Qed.

(** A buffer the path state takes for a dot segment decodes to one. *)
Lemma single_dot_decodes (e : jsstring) :
  is_single_dot e = true -> decodeURIComponent e = Some (lit ".").
Proof.
  unfold is_single_dot. cbn [existsb]. rewrite !orb_true_iff.
  intros [H | [H | [H | H]]]; try discriminate; apply str_eqb_eq in H; subst e; reflexivity.
Qed.

Lemma double_dot_decodes (e : jsstring) :
  is_double_dot e = true -> decodeURIComponent e = Some (lit "..").
Proof.
  unfold is_double_dot. cbn [existsb]. rewrite !orb_true_iff.
  intros H.
  repeat (destruct H as [H | H]; [apply str_eqb_eq in H; subst e; reflexivity |]).
  discriminate.
Qed.

(** The path state keeps the encoded segments of a key without dot
    segments, one for one. *)
Lemma parse_path_encoded (segs es : list jsstring) :
  Forall (fun seg => well_formed seg = true) segs ->
  existsb is_dot_segment segs = false ->
  encode_segments segs = Some es ->
  forall path, parse_path path es = path ++ es.
Proof.
  intros Hwf. revert es.
  induction Hwf as [| seg segs Hseg Hsegs IH]; intros es Hdot H path.
  - injection H as <-. now rewrite app_nil_r.
  - cbn [encode_segments] in H.
    destruct (encodeURIComponent seg) as [e |] eqn:E; [| discriminate].
    destruct (encode_segments segs) as [es' |] eqn:Es; [| discriminate].
    injection H as <-.
    cbn [existsb] in Hdot. apply orb_false_iff in Hdot as [Hseg_dot Hdot].
    apply orb_false_iff in Hseg_dot as [Hone Htwo].
    pose proof (decode_encode seg e Hseg E) as Hdec.
    pose proof (encode_chars (length seg) seg e (le_n _) Hseg E) as Hchars.
    assert (Hpush : forall final, push_segment final path e = path ++ [e]).
    { intros final. unfold push_segment.
      rewrite (path_percent_encode_encoded e Hchars).
      destruct (is_double_dot e) eqn:Hdd.
      { apply double_dot_decodes in Hdd. rewrite Hdd in Hdec.
        injection Hdec as <-. discriminate. }
      destruct (is_single_dot e) eqn:Hsd.
      { apply single_dot_decodes in Hsd. rewrite Hsd in Hdec.
        injection Hdec as <-. discriminate. }
      reflexivity. }
    destruct es' as [| e' es'].
    + cbn [parse_path]. apply Hpush.
    + change (parse_path path (e :: e' :: es'))
        with (parse_path (push_segment false path e) (e' :: es')).
      rewrite Hpush, (IH (e' :: es') Hdot eq_refl). now rewrite <- app_assoc.
Qed.

Lemma serialize_path_join (es : list jsstring) :
  es <> [] -> serialize_path es = SLASH :: join (lit "/") es.
Proof.
  induction es as [| e es IH]; [congruence |]. intros _.
  destruct es as [| e' es].
  - simpl. now rewrite app_nil_r.
  - change (serialize_path (e :: e' :: es)) with (SLASH :: e ++ serialize_path (e' :: es)).
    rewrite IH by discriminate. reflexivity.
Qed.

(** Nothing is trimmed from a text that ends in a visible character. *)
Lemma trim_end_visible (s : jsstring) (x : code_unit) :
  is_c0_or_space x = false ->
  rev (dropWhile is_c0_or_space (rev (s ++ [x]))) = s ++ [x].
Proof.
  intros Hx. rewrite rev_app_distr. cbn [rev app dropWhile]. rewrite Hx.
  change (x :: rev s) with ([x] ++ rev s). now rewrite rev_app_distr, rev_involutive.
Qed.

Lemma after_last_absent (c : code_unit) (s : jsstring) :
  forallb (fun x => negb (x =? c)%N) s = true -> after_last c s = None.
Proof.
  induction s as [| x s IH]; [reflexivity |]. cbn [forallb after_last].
  intros H. apply andb_prop in H as [Hx Hs]. rewrite (IH Hs).
  apply negb_true_iff in Hx. now rewrite Hx.
Qed.

Lemma split_host_port_no_colon (s : jsstring) :
  forallb (fun x => negb (x =? 58)%N) s = true ->
  forall inside, split_host_port inside s = (s, None).
Proof.
  induction s as [| x s IH]; intros H inside; [reflexivity |].
  cbn [forallb] in H. apply andb_prop in H as [Hx Hs].
  apply negb_true_iff in Hx. cbn [split_host_port]. rewrite Hx. cbn [andb].
  now rewrite (IH Hs).
Qed.

(** The parser on [https://host/path], for a host of [host_char]s that the
    host parser accepts and a path of encoded segments: the path goes
    through the path state segment by segment. *)
Lemma https_pathname_of_address (host_ok : jsstring -> bool) (host path : jsstring) :
  host <> [] ->
  forallb host_char host = true ->
  host_ok host = true ->
  forallb (fun c => encoded_char c || is_slash c) path = true ->
  https_pathname host_ok (lit "https://" ++ host ++ SLASH :: path)
  = Some (serialize_path (parse_path [] (split_by is_slash_or_backslash path))).
Proof.
  intros Hne Hhost Hok Hpath.
  assert (Hvisible : forall c, (encoded_char c || is_slash c) = true ->
                               is_c0_or_space c = false).
  { intros c Hc. unfold is_slash in Hc. unit_excluded Hc. }
  assert (Hkept : forall c, (encoded_char c || is_slash c) = true ->
                            negb (is_tab_or_newline c) = true).
  { intros c Hc. apply negb_true_iff. unfold is_slash in Hc. unit_excluded Hc. }
  assert (Hhost_kept : forall c, host_char c = true -> negb (is_tab_or_newline c) = true).
  { intros c Hc. unfold host_char in Hc. apply negb_true_iff in Hc.
    apply orb_false_iff in Hc as [_ Hc]. now rewrite Hc. }
  assert (Hauth : forall c, host_char c = true -> negb (is_authority_end c) = true).
  { intros c Hc. unfold host_char in Hc. apply negb_true_iff in Hc.
    apply orb_false_iff in Hc as [Hc _]. apply orb_false_iff in Hc as [Hc _].
    apply orb_false_iff in Hc as [Hc _]. now rewrite Hc. }
  assert (Hat : forall c, host_char c = true -> negb (c =? 64)%N = true).
  { intros c Hc. unfold host_char in Hc. apply negb_true_iff in Hc.
    apply orb_false_iff in Hc as [Hc _]. apply orb_false_iff in Hc as [Hc _].
    apply orb_false_iff in Hc as [_ Hc]. now rewrite Hc. }
  assert (Hcolon : forall c, host_char c = true -> negb (c =? 58)%N = true).
  { intros c Hc. unfold host_char in Hc. apply negb_true_iff in Hc.
    apply orb_false_iff in Hc as [Hc _]. apply orb_false_iff in Hc as [_ Hc].
    now rewrite Hc. }
  assert (Hpath_end : forall c, (encoded_char c || is_slash c) = true ->
                                negb (is_path_end c) = true).
  { intros c Hc. apply negb_true_iff. unfold is_slash in Hc. unit_excluded Hc. }
  unfold https_pathname.
  (* nothing is trimmed, nothing is dropped *)
  assert (Htrim : rev (dropWhile is_c0_or_space (rev (lit "https://" ++ host ++ SLASH :: path)))
                  = lit "https://" ++ host ++ SLASH :: path).
  { destruct (exists_last (l := SLASH :: path)) as (front & x & Hlast); [discriminate |].
    assert (Hx : In x (SLASH :: path)) by (rewrite Hlast; apply in_or_app; right; now left).
    rewrite Hlast, !app_assoc. apply trim_end_visible.
    destruct Hx as [<- | Hx]; [reflexivity |].
    apply Hvisible. rewrite forallb_forall in Hpath. now apply Hpath. }
  rewrite Htrim.
  rewrite filter_all.
  2:{ rewrite !forallb_app. cbn [forallb]. rewrite andb_true_iff. split; [reflexivity |].
      rewrite andb_true_iff. split; [now apply (forallb_impl host_char) |].
      rewrite andb_true_iff. split; [reflexivity |].
      now apply (forallb_impl (fun c => encoded_char c || is_slash c)). }
  (* the scheme and the slashes *)
  change (skipn 6 (lit "https://" ++ host ++ SLASH :: path))
    with (SLASH :: SLASH :: host ++ SLASH :: path).
  cbn [dropWhile]. change (is_slash_or_backslash SLASH) with true. cbv iota.
  destruct host as [| h host']; [congruence |].
  cbn [forallb] in Hhost. apply andb_prop in Hhost as [Hh Hhost'].
  assert (Hh_slash : is_slash_or_backslash h = false).
  { specialize (Hauth h Hh). apply negb_true_iff in Hauth.
    unfold is_authority_end in Hauth. unfold is_slash_or_backslash.
    repeat (apply orb_false_iff in Hauth as [Hauth ?]).
    now rewrite Hauth, H1. }
  cbn [app dropWhile]. rewrite Hh_slash.
  (* the authority *)
  change (h :: host' ++ SLASH :: path) with ((h :: host') ++ SLASH :: path).
  assert (Hhost : forallb host_char (h :: host') = true)
    by (cbn [forallb]; now rewrite Hh, Hhost').
  rewrite takeWhile_stop
    by (try reflexivity; now apply (forallb_impl host_char)).
  rewrite (dropWhile_stop (fun c => negb (is_authority_end c)) (h :: host') path SLASH)
    by (try reflexivity; now apply (forallb_impl host_char)).
  rewrite after_last_absent by now apply (forallb_impl host_char).
  rewrite split_host_port_no_colon by now apply (forallb_impl host_char).
  cbn [truthy negb]. rewrite Hok. cbn [negb].
  change (is_slash_or_backslash SLASH) with true. cbv iota.
  (* the path *)
  rewrite takeWhile_all
    by now apply (forallb_impl (fun c => encoded_char c || is_slash c)).
  reflexivity.
Qed.

Lemma join_chars (f : code_unit -> bool) (c : code_unit) (es : list jsstring) :
  f c = true -> Forall (fun e => forallb f e = true) es -> forallb f (join [c] es) = true.
Proof.
  intros Hc. induction 1 as [| e es He Hes IH]; [reflexivity |].
  destruct es as [| e' es]; [exact He |].
  rewrite join_cons, !forallb_app, He. cbn [forallb]. rewrite Hc. exact IH.
Qed.

Lemma well_formed_segments (c : code_unit) (s : jsstring) :
  well_formed s = true -> Forall (fun seg => well_formed seg = true) (split c s).
Proof.
  intros H. unfold well_formed in H. rewrite forallb_forall in H.
  assert (HF : Forall (fun x => (x <? 65536)%N = true) s) by now apply Forall_forall.
  pose proof (split_by_chars (N.eqb c) s _ HF) as Hs.
  unfold split. induction Hs as [| seg segs Hseg Hsegs IH]; constructor; [| exact IH].
  unfold well_formed. apply forallb_forall. now apply Forall_forall.
Qed.

Lemma example_platform_follows_standard : URL_follows_standard example_platform.
Proof. intros s Hs. cbn [URL_pathname host_parses example_platform]. now rewrite Hs. Qed.

(* ===================================================================== *)
(** ** Offsets and positions                                              *)
(* ===================================================================== *)

(** On an offset of the document, [posToOffset] undoes [offsetToPos]. *)
Lemma posToOffset_offsetToPos (s : jsstring) (i : nat) :
  i <= length s -> toOffset s (offsetToPos s i) = i.
Proof.
  unfold toOffset. revert i. induction s as [| c s IH]; intros i Hi.
  - simpl in Hi. assert (i = 0) by lia. subst. reflexivity.
  - destruct i as [| i]; [reflexivity |].
    simpl in Hi. assert (Hi' : i <= length s) by lia. specialize (IH i Hi').
    cbn [offsetToPos]. destruct (c =? NEWLINE)%N eqn:Ec.
    + cbn [line ch posToOffset]. rewrite Ec. now rewrite IH.
    + destruct (line (offsetToPos s i) =? 0) eqn:El.
      * cbn [line ch posToOffset]. rewrite Ec.
        apply Nat.eqb_eq in El. rewrite El in IH. now rewrite IH.
      * apply Nat.eqb_neq in El.
        destruct (line (offsetToPos s i)) as [| l] eqn:El'; [congruence |].
        cbn [posToOffset]. rewrite Ec. now rewrite IH.
Qed.

Section EditorFacts.
Context {P : Platform}.

(** The text after [replaceRange] between two offsets of the document. *)
Lemma replaceRange_value (e : Editor) (text : jsstring) (a b : nat) :
  a <= length (value e) -> b <= length (value e) ->
  value (replaceRange e text (offsetToPos (value e) a) (offsetToPos (value e) b))
  = firstn a (value e) ++ text ++ skipn b (value e).
Proof.
  intros Ha Hb. unfold replaceRange. cbn [value].
  now rewrite !posToOffset_offsetToPos.
Qed.

(** [replaceTokenWithImage] puts the reference where the token first
    occurs and keeps the text around it. *)
Lemma replaceTokenWithImage_first (e : Editor) (token url pre post : jsstring) :
  value e = pre ++ token ++ post ->
  (forall pre' post', pre ++ token ++ post = pre' ++ token ++ post' ->
                      length pre <= length pre') ->
  value (replaceTokenWithImage e token url) = pre ++ lit "![](" ++ url ++ lit ")" ++ post.
Proof.
  intros Hv Hmin. unfold replaceTokenWithImage.
  rewrite Hv at 1. rewrite (indexOf_first _ _ _ Hmin).
  match goal with
  | |- value (if ?c then setCursor ?x ?p else ?x) = _ =>
      replace (value (if c then setCursor x p else x)) with (value x)
        by (destruct c; reflexivity)
  end.
  rewrite replaceRange_value.
  - rewrite Hv, firstn_length_app, skipn_two_app. now rewrite <- !app_assoc.
  - rewrite Hv, length_app. lia.
  - rewrite Hv, !length_app. lia.
Qed.

(** [removeToken] cuts the first occurrence of the token out and keeps
    the text around it. *)
Lemma removeToken_first (e : Editor) (token pre post : jsstring) :
  value e = pre ++ token ++ post ->
  (forall pre' post', pre ++ token ++ post = pre' ++ token ++ post' ->
                      length pre <= length pre') ->
  value (removeToken e token) = pre ++ post.
Proof.
  intros Hv Hmin. unfold removeToken. rewrite Hv.
  rewrite includes_app. cbn [negb setCursor setValue value].
  now apply replace_string_first.
Qed.

(** Without the token in the document, neither step changes anything. *)
Lemma replaceTokenWithImage_absent (e : Editor) (token url : jsstring) :
  indexOf token (value e) = None -> replaceTokenWithImage e token url = e.
Proof. intros H. unfold replaceTokenWithImage. now rewrite H. Qed.

Lemma removeToken_absent (e : Editor) (token : jsstring) :
  indexOf token (value e) = None -> removeToken e token = e.
Proof. intros H. unfold removeToken, includes. now rewrite H. Qed.

End EditorFacts.

(* ===================================================================== *)
(** ** The cleanup pass runs to its end                                   *)
(* ===================================================================== *)

Section Cleanup.
Context {P : Platform}.

(** With as many rounds as the text has characters the loop has run to
    its end: no pasted-image embed is left in the text. *)
Lemma cleanup_loop_complete (fuel : nat) :
  forall e, length (value e) <= fuel ->
            exec PASTED_IMAGE_REGEX (value (cleanup_loop fuel e)) = None.
Proof.
  induction fuel as [| fuel IH]; intros e Hlen.
  - cbn [cleanup_loop]. destruct (value e); [reflexivity | simpl in Hlen; lia].
  - cbn [cleanup_loop].
    destruct (exec PASTED_IMAGE_REGEX (value e)) as [m |] eqn:Em; [| exact Em].
    apply IH.
    pose proof (exec_occurrence _ _ _ Em) as Hocc.
    pose proof (exec_index_le _ _ _ Em) as Hidx.
    pose proof (exec_nonempty PASTED_IMAGE_REGEX _ _ eq_refl Em) as Hm.
    assert (Hend : index m + length (matched m) <= length (value e)).
    { pose proof (f_equal (@length _) Hocc) as Hl.
      rewrite !length_app, length_firstn, length_skipn in Hl. lia. }
    rewrite replaceRange_value by lia.
    rewrite !length_app, length_firstn, length_skipn. simpl. lia.
Qed.

Lemma cleanupPastedImages_complete (e : Editor) :
  exec PASTED_IMAGE_REGEX (value (cleanupPastedImages e)) = None.
Proof. apply cleanup_loop_complete. apply le_n. Qed.

End Cleanup.

(* ===================================================================== *)
(** ** A line and its place in the text                                   *)
(* ===================================================================== *)

(** Line [n] of a text lies between the offsets of its first and of its
    last column. *)
Lemma line_span (s : jsstring) :
  forall n old,
    nth_error (split NEWLINE s) n = Some old ->
    exists before after,
      s = before ++ old ++ after /\
      posToOffset s n 0 = length before /\
      posToOffset s n (length old) = length before + length old.
Proof.
  unfold split. induction s as [| c s IH]; intros n old H.
  - destruct n as [| n]; [| destruct n; discriminate].
    injection H as <-. exists [], []. repeat split.
  - cbn [split_by] in H. pose proof (split_by_nonempty (N.eqb NEWLINE) s) as Hne.
    destruct (N.eqb_spec NEWLINE c) as [<- | Hc].
    + destruct n as [| n].
      * injection H as <-. exists [], (NEWLINE :: s). repeat split.
      * cbn [nth_error] in H. destruct (IH n old H) as (b & a & Hs & H0 & H1).
        exists (NEWLINE :: b), a. cbn [posToOffset length app]. rewrite N.eqb_refl.
        rewrite H0, H1, Hs at 1. repeat split.
    + assert (Ec : (c =? NEWLINE)%N = false) by (apply N.eqb_neq; congruence).
      destruct (split_by (N.eqb NEWLINE) s) as [| seg segs] eqn:Es; [congruence |].
      destruct n as [| n].
      * injection H as <-. destruct (IH 0 seg eq_refl) as (b & a & Hs & H0 & H1).
        assert (b = []) by (destruct s, b; simpl in H0; congruence || discriminate).
        subst b. exists [], a. cbn [app length] in *.
        split; [now rewrite Hs |]. split; [reflexivity |].
        cbn [posToOffset]. rewrite Ec. now rewrite H1.
      * cbn [nth_error] in H.
        destruct (IH (S n) old H) as (b & a & Hs & H0 & H1).
        exists (c :: b), a. cbn [posToOffset length app]. rewrite Ec, H0, H1.
        split; [now rewrite Hs at 1 |]. split; reflexivity.
Qed.

Section SetLine.
Context {P : Platform}.

(** [setLine] replaces the line where it stands and keeps the text
    before and after it. *)
Lemma setLine_in_place (e : Editor) (n : nat) (old text : jsstring) :
  getLine e n = Some old ->
  exists before after,
    value e = before ++ old ++ after /\
    value (setLine e n text) = before ++ text ++ after.
Proof.
  intros Hline. unfold setLine. rewrite Hline.
  destruct (line_span (value e) n old Hline) as (b & a & Hs & H0 & H1).
  exists b, a. split; [exact Hs |].
  unfold replaceRange, toOffset. cbn [value line ch]. rewrite H0, H1.
  rewrite Hs at 1 2. now rewrite firstn_length_app, skipn_two_app.
Qed.

End SetLine.

(* ===================================================================== *)
(** ** Construction of the uploader (C3, C9)                              *)
(* ===================================================================== *)

Section Construction.
Context {P : Platform}.

(** [validateSettings] lets a configuration through exactly when its four
    required fields are non-empty. *)
Lemma validateSettings_ok (s : OssPicbedSettings) :
  validateSettings s = Ok tt <->
  accessKeyId s <> [] /\ accessKeySecret s <> [] /\ bucket s <> [] /\ region s <> [].
Proof.
  unfold validateSettings. rewrite <- !truthy_nonempty.
  destruct (truthy (accessKeyId s)), (truthy (accessKeySecret s)),
    (truthy (bucket s)), (truthy (region s)); simpl; intuition congruence.
Qed.

Lemma validateSettings_throws (s : OssPicbedSettings) :
  accessKeyId s = [] \/ accessKeySecret s = [] \/ bucket s = [] \/ region s = [] ->
  validateSettings s = Throw (Error "Access Key ID or Access Key Secret is empty") \/
  validateSettings s = Throw (Error "Bucket or Region is empty").
Proof.
  unfold validateSettings. rewrite <- !truthy_empty.
  destruct (truthy (accessKeyId s)), (truthy (accessKeySecret s)),
    (truthy (bucket s)), (truthy (region s)); simpl; intuition congruence.
Qed.

(** C3, as amended.  For a configuration whose access key id, access
    key secret, bucket and region are all non-empty, constructing the
    uploader succeeds when the SDK's constructor accepts the options
    made of these four fields, and then exactly one SDK client is
    created, from them; when the SDK's constructor refuses them, the
    constructor of the uploader throws the SDK's error and no client is
    created.  If one of the four is empty the constructor throws the
    error of [validateSettings] and the world is left as it was: no SDK
    client has been created, and the SDK has not been asked, since
    validation comes first. *)
Theorem new_OssUploader_fails_fast (w : World) :
  let s := settings w in
  let options :=
    {| opt_accessKeyId := accessKeyId s; opt_accessKeySecret := accessKeySecret s;
       opt_bucket := bucket s; opt_region := region s; opt_secure := true |} in
  (accessKeyId s <> [] /\ accessKeySecret s <> [] /\ bucket s <> [] /\ region s <> [] ->
   (OSS_constructor options = None ->
    exists u w',
      new_OssUploader w = (Ok u, w') /\
      clients w' = clients w ++ [client u] /\
      client u = options) /\
   (forall e, OSS_constructor options = Some e ->
              new_OssUploader w = (Throw e, w)))
  /\
  (accessKeyId s = [] \/ accessKeySecret s = [] \/ bucket s = [] \/ region s = [] ->
   exists e,
     new_OssUploader w = (Throw e, w) /\
     (e = Error "Access Key ID or Access Key Secret is empty" \/
      e = Error "Bucket or Region is empty")).
Proof.
  intros s options. split.
  - intros Hall. apply validateSettings_ok in Hall. split.
    + intros Hsdk. unfold new_OssUploader, bind, get. fold s. rewrite Hall.
      unfold new_OSS. fold options. rewrite Hsdk.
      unfold ret. simpl. eexists. eexists. repeat split.
    + intros e Hsdk. unfold new_OssUploader, bind, get. fold s. rewrite Hall.
      unfold new_OSS. fold options. now rewrite Hsdk.
  - intros Hone. unfold new_OssUploader, bind, get. fold s.
    destruct (validateSettings_throws s Hone) as [E | E]; rewrite E;
      unfold throw; eexists; split; eauto.
Qed.

(** [initUploader] does nothing at all when a required field is empty:
    the uploader the plugin holds stays the one it held. *)
Lemma initUploader_incomplete (w : World) :
  accessKeyId (settings w) = [] \/ accessKeySecret (settings w) = [] \/
  bucket (settings w) = [] \/ region (settings w) = [] ->
  initUploader w = (Ok tt, w).
Proof.
  rewrite <- !truthy_empty. unfold initUploader, bind, get.
  destruct (truthy (accessKeyId (settings w))), (truthy (accessKeySecret (settings w))),
    (truthy (bucket (settings w))), (truthy (region (settings w)));
    simpl; intuition congruence.
Qed.

(** After [onunload] the plugin holds no uploader. *)
Lemma onunload_clears (w : World) : uploader (snd (onunload w)) = None.
Proof. reflexivity. Qed.


End Construction.

(** [initUploader] with the bucket empty: the world, stale uploader
    included, is left as it is. *)
Lemma initUploader_incomplete_witness :
  let w := snd (@onChange_bucket example_platform [] (example_world [])) in
  @initUploader example_platform w = (Ok tt, w).
Proof.
  apply (@initUploader_incomplete example_platform
           (snd (@onChange_bucket example_platform [] (example_world [])))).
  right. right. left. reflexivity.
Defined.

(** C3 as stated fails: the four fields of [example_settings] are not
    empty, yet the SDK refuses its one-letter bucket name; the
    constructor throws, and no client is created. *)
Lemma new_OssUploader_refused_by_sdk :
  let w := example_world [] in
  (truthy (accessKeyId (settings w)) = true /\
   truthy (accessKeySecret (settings w)) = true /\
   truthy (bucket (settings w)) = true /\
   truthy (region (settings w)) = true) /\
  bucket (settings w) = lit "b" /\
  (exists e, @new_OssUploader example_platform w = (Throw e, w)) /\
  clients (snd (@new_OssUploader example_platform w)) = [].
Proof.
  vm_compute. repeat split. eexists. reflexivity.
Qed.

(** The amended C3 at work: the SDK accepts the names of
    [sdk_settings], and one client is made from them. *)
Lemma new_OssUploader_fails_fast_witness :
  @new_OssUploader example_platform sdk_world
  = (Ok sdk_uploader,
     {| settings := sdk_settings; uploader := Some sdk_uploader;
        editor := editor sdk_world; notices := []; console_errors := [];
        requests := []; clients := [client sdk_uploader] |}).
Proof.
  destruct (proj1 (proj1 (@new_OssUploader_fails_fast example_platform sdk_world)
                     ltac:(repeat split; discriminate)) eq_refl)
    as (u & w' & E & Hclients & Hclient).
  rewrite E. destruct u as [c]. cbn [client] in Hclient. subst c.
  vm_compute in E. injection E as <-. reflexivity.
Defined.

(* ===================================================================== *)
(** ** The generated file name (C5)                                       *)
(* ===================================================================== *)

(** A name that ends in [.png] gets the time stamp and [.png]. *)
Lemma generateFileName_png (now : Z) (base type : jsstring) :
  generateFileName now {| file_name := base ++ lit ".png"; file_type := type |}
  = Number_toString now ++ lit ".png".
Proof.
  unfold generateFileName, pop, split. simpl file_name.
  change (lit ".png") with (DOT :: lit "png").
  rewrite split_by_app_sep by reflexivity.
  rewrite last_app_nonempty by apply split_by_nonempty.
  reflexivity.
Qed.

(** A name without any dot is taken for its own extension. *)
Lemma generateFileName_no_dot (now : Z) (name type : jsstring) :
  forallb (fun c => negb (DOT =? c)%N) name = true -> name <> [] ->
  generateFileName now {| file_name := name; file_type := type |}
  = Number_toString now ++ lit "." ++ name.
Proof.
  intros Hdot Hne. unfold generateFileName, pop, split. simpl file_name.
  rewrite split_by_none by exact Hdot. simpl last.
  destruct name; [congruence | reflexivity].
Qed.

(** C5, at the failing input: the file is named [image], a name with no
    extension, and is uploaded at time 1700000000000.  The generated name
    is [1700000000000.image], not the time stamp alone. *)
Theorem generateFileName_extensionless_name :
  generateFileName 1700000000000 {| file_name := lit "image"; file_type := lit "image/png" |}
  = lit "1700000000000.image".
Proof. vm_compute. reflexivity. Qed.

(* ===================================================================== *)
(** ** The address of a key, parsed back (C4) *)
(* ===================================================================== *)

Section RoundTrip.
Context {P : Platform}.

(** C4, as amended.  On a platform whose [URL] follows the standard, in
    public mode, with a bucket and a region whose characters stay in the
    host and whose host name the parser accepts: for every key of code
    units that has no leading slash and no [.] or [..] segment, and
    whose address [getUrl] can build (it has no unpaired surrogate),
    [parseKeyFromUrl] gives the key back from that address. *)
Theorem parseKeyFromUrl_getUrl
    (s : OssPicbedSettings) (u : OssUploader) (key url : jsstring) :
  URL_follows_standard P ->
  usePublicUrl s = true ->
  forallb host_char (bucket s) = true ->
  forallb host_char (region s) = true ->
  host_parses (bucket s ++ lit "." ++ region s ++ lit ".aliyuncs.com") = true ->
  well_formed key = true ->
  startsWith (lit "/") key = false ->
  existsb is_dot_segment (split SLASH key) = false ->
  getUrl s u key = Ok url ->
  parseKeyFromUrl url = key.
Proof.
  intros Hstd Hpublic Hbucket Hregion Hhost Hwf Hlead Hdots Hurl.
  unfold getUrl in Hurl. rewrite Hpublic in Hurl.
  destruct (encode_segments (split SLASH key)) as [es |] eqn:Es; [| discriminate].
  assert (Hu : url = lit "https://" ++ bucket s ++ lit "." ++ region s
                       ++ lit ".aliyuncs.com/" ++ join (lit "/") es) by congruence.
  clear Hurl. subst url.
  pose proof (well_formed_segments SLASH key Hwf) as Hsegs.
  pose proof (encode_segments_chars _ _ Hsegs Es) as Hchars.
  pose proof (decode_segments _ _ Hsegs Es) as Hdec.
  change (lit "/") with [SLASH] in Hdec. rewrite join_split in Hdec.
  assert (Hes : es <> []).
  { pose proof (encode_segments_length _ _ Es) as Hlen.
    pose proof (split_by_nonempty (N.eqb SLASH) key) as Hne. unfold split in Hlen.
    destruct es; [| discriminate]. destruct (split_by (N.eqb SLASH) key); [congruence | discriminate]. }
  assert (Haddr : lit "https://" ++ bucket s ++ lit "." ++ region s
                    ++ lit ".aliyuncs.com/" ++ join (lit "/") es
                  = lit "https://"
                      ++ (bucket s ++ lit "." ++ region s ++ lit ".aliyuncs.com")
                      ++ SLASH :: join [SLASH] es).
  { change (lit ".aliyuncs.com/") with (lit ".aliyuncs.com" ++ [SLASH]).
    now rewrite <- !app_assoc. }
  rewrite Haddr. clear Haddr.
  set (host := bucket s ++ lit "." ++ region s ++ lit ".aliyuncs.com") in *.
  set (path := join [SLASH] es) in *.
  assert (Hpathname : URL_pathname (lit "https://" ++ host ++ SLASH :: path)
                      = Some (SLASH :: path)).
  { rewrite Hstd by reflexivity.
    rewrite https_pathname_of_address.
    - subst path. rewrite split_by_join.
      + rewrite (parse_path_encoded _ _ Hsegs Hdots Es []). cbn [app].
        now rewrite serialize_path_join.
      + reflexivity.
      + exact Hes.
      + eapply Forall_impl; [| exact Hchars]. intros e He.
        apply (forallb_impl encoded_char); [| exact He].
        intros c Hc. apply negb_true_iff. unit_excluded Hc.
    - subst host. destruct (bucket s); discriminate.
    - subst host. rewrite !forallb_app, Hbucket, Hregion. reflexivity.
    - exact Hhost.
    - subst path. apply join_chars; [reflexivity |].
      eapply Forall_impl; [| exact Hchars]. intros e He.
      apply (forallb_impl encoded_char); [| exact He].
      intros c Hc. now rewrite Hc. }
  assert (Htruthy : truthy (lit "https://" ++ host ++ SLASH :: path) = true) by reflexivity.
  unfold parseKeyFromUrl. rewrite Htruthy, Hpathname. cbn [negb].
  assert (Hstrip : strip_leading_slashes (SLASH :: path) = path).
  { unfold strip_leading_slashes. cbn [dropWhile]. change (is_slash SLASH) with true.
    cbv iota. destruct path as [| c path'] eqn:Ep; [reflexivity |].
    cbn [dropWhile]. destruct (is_slash c) eqn:Hc; [| reflexivity].
    exfalso. unfold is_slash in Hc. apply N.eqb_eq in Hc. subst c.
    cbn [decodeURIComponent] in Hdec. cbn [N.eqb SLASH PERCENT Pos.eqb negb] in Hdec.
    destruct (decodeURIComponent path'); [| discriminate].
    injection Hdec as <-. discriminate. }
  now rewrite Hstrip, Hdec.
Qed.

(** The empty address gives the empty key. *)
Theorem parseKeyFromUrl_empty : parseKeyFromUrl [] = [].
Proof. reflexivity. Qed.

End RoundTrip.

(** C4 as stated fails.  With the prefix [..] the uploader stores a
    pasted PNG under [../1700000000000.png]; the parser resolves the dot
    segment of its public address away, and the key parsed back from the
    address is [1700000000000.png].  With a slash in the bucket field the
    host of the address ends at that slash and the rest of the field is
    parsed as part of the path; with a space in it the address is no URL
    at all, and the fallback returns the whole address as the key. *)
Lemma parseKeyFromUrl_drops_dot_segment :
  let key := getPrefix parent_prefix_settings ++ generateFileName 1700000000000 png_file in
  (key = lit "../1700000000000.png" /\
   @getUrl example_platform parent_prefix_settings example_uploader key
   = Ok (lit "https://b.r.aliyuncs.com/../1700000000000.png") /\
   @parseKeyFromUrl example_platform (lit "https://b.r.aliyuncs.com/../1700000000000.png")
   = lit "1700000000000.png")
  /\
  (@getUrl example_platform slash_bucket_settings example_uploader (lit "k.png")
   = Ok (lit "https://b/photos.r.aliyuncs.com/k.png") /\
   @parseKeyFromUrl example_platform (lit "https://b/photos.r.aliyuncs.com/k.png")
   = lit "photos.r.aliyuncs.com/k.png")
  /\
  (@getUrl example_platform space_bucket_settings example_uploader (lit "k.png")
   = Ok (lit "https://my bucket.r.aliyuncs.com/k.png") /\
   @parseKeyFromUrl example_platform (lit "https://my bucket.r.aliyuncs.com/k.png")
   = lit "https://my bucket.r.aliyuncs.com/k.png").
Proof. vm_compute. repeat split. Qed.

(** The amended C4 at work, on [unusual_key]. *)
Lemma parseKeyFromUrl_getUrl_witness :
  @getUrl example_platform example_settings example_uploader unusual_key
  = Ok (lit "https://b.r.aliyuncs.com/my%20pics/a%2Bb/%E5%9B%BE%F0%9F%98%80.png") /\
  @parseKeyFromUrl example_platform
     (lit "https://b.r.aliyuncs.com/my%20pics/a%2Bb/%E5%9B%BE%F0%9F%98%80.png")
  = unusual_key.
Proof.
  split; [vm_compute; reflexivity |].
  apply (@parseKeyFromUrl_getUrl example_platform example_settings example_uploader
           unusual_key
           (lit "https://b.r.aliyuncs.com/my%20pics/a%2Bb/%E5%9B%BE%F0%9F%98%80.png")
           example_platform_follows_standard);
    vm_compute; reflexivity.
Defined.

(* ===================================================================== *)
(** ** One upload, from the paste to its settlement (C1, C10)             *)
(* ===================================================================== *)

Section Upload.
Context {P : Platform}.
Variable env : Env.

(** A failed put: the token is removed from the document as it is then,
    and the failure is shown. *)
Lemma handleImageUpload_failure (w : World) (u : OssUploader) (file : File) (err : JsError) :
  uploader w = Some u ->
  put_outcome env (key_of env w file) = Some err ->
  handleImageUpload env file w =
  (Ok tt,
   {| settings := settings w; uploader := uploader w;
      editor := removeToken (editor_at_settlement env w) (token_of env);
      notices := notices w ++ [lit "Upload failed: " ++ error_text err];
      console_errors := console_errors w;
      requests := requests w ++ [PutObject (key_of env w file) file (mime_of file)];
      clients := clients w |}).
Proof.
  intros Hu Hput.
  unfold handleImageUpload. run_M.
  rewrite Hu. run_M. fold (key_of env w file). rewrite Hput. reflexivity.
Qed.

(** A successful put whose address can be built: the token is replaced
    in the document as it is then, the cleanup pass runs, and the success
    is shown. *)
Lemma handleImageUpload_success (w : World) (u : OssUploader) (file : File) (url : jsstring) :
  uploader w = Some u ->
  put_outcome env (key_of env w file) = None ->
  getUrl (settings w) u (key_of env w file) = Ok url ->
  handleImageUpload env file w =
  (Ok tt,
   {| settings := settings w; uploader := uploader w;
      editor := cleanupPastedImages
                  (replaceTokenWithImage (editor_at_settlement env w) (token_of env) url);
      notices := notices w ++ [lit "Image uploaded successfully"];
      console_errors := console_errors w;
      requests := requests w ++ [PutObject (key_of env w file) file (mime_of file)];
      clients := clients w |}).
Proof.
  intros Hu Hput Hurl.
  unfold handleImageUpload. run_M.
  rewrite Hu. run_M. fold (key_of env w file). rewrite Hput. run_M.
  fold (key_of env w file). rewrite Hurl. reflexivity.
Qed.

(** C1, as amended.  Let an upload settle while the document reads
    [pre ++ token ++ post], this being the first place where the text of
    the token occurs.  If the put failed, the document is [pre ++ post]
    afterwards and the failure is shown; if it succeeded with address
    [url], the cleanup pass receives [pre ++ "![](url)" ++ post] and the
    success is shown.  So the first occurrence of the token's text is the
    span removed or replaced, which is the token's own span whenever the
    text occurs only once, and [pre] and [post] are kept as they are,
    with any further copy of the token's text in them. *)
Theorem upload_settles_on_first_occurrence
    (w : World) (u : OssUploader) (file : File) (pre post : jsstring) :
  uploader w = Some u ->
  value (editor_at_settlement env w) = pre ++ (token_of env) ++ post ->
  (forall pre' post', pre ++ (token_of env) ++ post = pre' ++ (token_of env) ++ post' ->
                      length pre <= length pre') ->
  let w' := snd (handleImageUpload env file w) in
  (forall err, put_outcome env (key_of env w file) = Some err ->
     value (editor w') = pre ++ post /\
     notices w' = notices w ++ [lit "Upload failed: " ++ error_text err])
  /\
  (forall url, put_outcome env (key_of env w file) = None ->
     getUrl (settings w) u (key_of env w file) = Ok url ->
     (exists e, value e = pre ++ lit "![](" ++ url ++ lit ")" ++ post /\
                editor w' = cleanupPastedImages e) /\
     notices w' = notices w ++ [lit "Image uploaded successfully"]).
Proof.
  intros Hu Hv Hmin w'. split.
  - intros err Hput. subst w'.
    rewrite (handleImageUpload_failure w u file err Hu Hput). cbn [snd editor notices].
    split; [| reflexivity]. now apply removeToken_first.
  - intros url Hput Hurl. subst w'.
    rewrite (handleImageUpload_success w u file url Hu Hput Hurl). cbn [snd editor notices].
    split; [| reflexivity].
    exists (replaceTokenWithImage (editor_at_settlement env w) (token_of env) url).
    split; [| reflexivity]. now apply replaceTokenWithImage_first.
Qed.

(** C10.  If the token is nowhere in the document when a successful
    upload settles, the replacement step changes nothing (the editor it
    returns is the editor it was given, so no reference is inserted),
    the cleanup pass still runs on that document, to its end (no
    pasted-image embed is left), and the success notice is still shown. *)
Theorem upload_success_without_token
    (w : World) (u : OssUploader) (file : File) (url : jsstring) :
  uploader w = Some u ->
  put_outcome env (key_of env w file) = None ->
  getUrl (settings w) u (key_of env w file) = Ok url ->
  indexOf (token_of env) (value (editor_at_settlement env w)) = None ->
  replaceTokenWithImage (editor_at_settlement env w) (token_of env) url
  = editor_at_settlement env w /\
  handleImageUpload env file w =
  (Ok tt,
   {| settings := settings w; uploader := uploader w;
      editor := cleanupPastedImages (editor_at_settlement env w);
      notices := notices w ++ [lit "Image uploaded successfully"];
      console_errors := console_errors w;
      requests := requests w ++ [PutObject (key_of env w file) file (mime_of file)];
      clients := clients w |}) /\
  exec PASTED_IMAGE_REGEX (value (cleanupPastedImages (editor_at_settlement env w))) = None.
Proof.
  intros Hu Hput Hurl Habsent.
  pose proof (replaceTokenWithImage_absent (editor_at_settlement env w) (token_of env)
                url Habsent) as E.
  split; [exact E |]. split; [| apply cleanupPastedImages_complete].
  rewrite (handleImageUpload_success w u file url Hu Hput Hurl). now rewrite E.
Qed.

(** After a successful upload no pasted-image embed is left in the
    document: the cleanup pass has removed every one of them. *)
Theorem successful_upload_leaves_no_embed
    (w : World) (u : OssUploader) (file : File) (url : jsstring) :
  uploader w = Some u ->
  put_outcome env (key_of env w file) = None ->
  getUrl (settings w) u (key_of env w file) = Ok url ->
  exec PASTED_IMAGE_REGEX (value (editor (snd (handleImageUpload env file w)))) = None.
Proof.
  intros Hu Hput Hurl.
  rewrite (handleImageUpload_success w u file url Hu Hput Hurl). cbn [snd editor].
  apply cleanupPastedImages_complete.
Qed.

End Upload.

(** C1 as stated fails: the upload was pasted into the document [note];
    with a copy of the placeholder pasted in front of it during the wait,
    the settlement works on the copy (the first match of the token's
    text), and the token that was inserted at paste time is still in the
    document afterwards, after a failure as after a success. *)
Lemma token_survives_settlement :
  let failed := snd (@handleImageUpload example_platform copy_then_fail png_file
                       (example_world (lit "note"))) in
  let succeeded := snd (@handleImageUpload example_platform copy_then_succeed png_file
                          (example_world (lit "note"))) in
  (value (editor failed) = lit " {{OSS_UPLOADING:1700000000000-k3x9qz}}note" /\
   includes (token_of copy_then_fail) (value (editor failed)) = true /\
   notices failed = [lit "Upload failed: connect ETIMEDOUT"])
  /\
  (value (editor succeeded)
   = lit "![](https://b.r.aliyuncs.com/1700000000000.png) {{OSS_UPLOADING:1700000000000-k3x9qz}}note" /\
   includes (token_of copy_then_succeed) (value (editor succeeded)) = true /\
   notices succeeded = [lit "Image uploaded successfully"]).
Proof. vm_compute. repeat split. Qed.

(** The amended C1 at work: the document [ab] with the cursor between the
    letters, a failed upload, nobody touching the document: the token is
    gone and the document is [ab] again. *)
Lemma upload_settles_on_first_occurrence_witness :
  value (editor (snd (@handleImageUpload example_platform failing_env png_file world_ab)))
  = lit "ab".
Proof.
  refine (proj1 (proj1 (@upload_settles_on_first_occurrence example_platform failing_env
                          world_ab example_uploader png_file (lit "a") (lit "b")
                          eq_refl _ _) network_down eq_refl)).
  - vm_compute. reflexivity.
  - apply (first_occurrence (token_of failing_env)
             (lit "a" ++ token_of failing_env ++ lit "b") (lit "a") (lit "b") eq_refl).
    vm_compute. reflexivity.
Defined.

(** C10 at work: the user has replaced the document by [typed] before the
    upload succeeds; the document is [typed] afterwards, and the success
    notice is shown. *)
Lemma upload_success_without_token_witness :
  let w' := snd (@handleImageUpload example_platform erase_then_succeed png_file
                   (example_world (lit "note"))) in
  value (editor w') = lit "typed" /\ notices w' = [lit "Image uploaded successfully"].
Proof.
  rewrite (proj1 (proj2 (@upload_success_without_token example_platform erase_then_succeed
                           (example_world (lit "note")) example_uploader png_file
                           (lit "https://b.r.aliyuncs.com/1700000000000.png")
                           eq_refl eq_refl eq_refl eq_refl))).
  vm_compute. split; reflexivity.
Defined.

(** The cleanup at work: the host has put its own embed of the pasted
    image into the document; after the upload the reference stands where
    the token was and the embed is gone. *)
Lemma successful_upload_leaves_no_embed_witness :
  let w' := snd (@handleImageUpload example_platform quiet_env png_file
                   (example_world (lit "![[Pasted image 20240101120000.png]] text"))) in
  value (editor w') = lit "![](https://b.r.aliyuncs.com/1700000000000.png) text" /\
  exec PASTED_IMAGE_REGEX (value (editor w')) = None.
Proof.
  split; [vm_compute; reflexivity |].
  apply (@successful_upload_leaves_no_embed example_platform quiet_env
           (example_world (lit "![[Pasted image 20240101120000.png]] text"))
           example_uploader png_file
           (lit "https://b.r.aliyuncs.com/1700000000000.png"));
    reflexivity.
Defined.

(* ===================================================================== *)
(** ** A failed upload in a quiet document                                *)
(* ===================================================================== *)

Lemma uint_digits_no_brace (d : Decimal.uint) : no_open_brace (uint_digits d) = true.
Proof. induction d; simpl; assumption || reflexivity. Qed.

Lemma Number_toString_no_brace (z : Z) : no_open_brace (Number_toString z) = true.
Proof.
  unfold Number_toString. destruct (z <? 0)%Z; simpl; apply uint_digits_no_brace.
Qed.

(** A token is two opening braces followed by text without any. *)
Lemma generateUploadToken_shape (now : Z) (random : jsstring) :
  no_open_brace random = true ->
  exists tail,
    generateUploadToken now random = OPEN_BRACE :: OPEN_BRACE :: N_of_ascii "O" :: tail /\
    no_open_brace tail = true.
Proof.
  intros Hr.
  exists (lit "SS_UPLOADING:" ++ Number_toString now ++ lit "-" ++ random ++ lit "}}").
  split; [reflexivity |].
  pose proof (Number_toString_no_brace now) as Hn.
  unfold no_open_brace, jsstring, code_unit in *. rewrite !forallb_app, Hn, Hr. reflexivity.
Qed.

(** Such a text does not overlap a copy of itself: where it occurs in
    [pre ++ t ++ post] before the place shown, it occurs in [pre]. *)
Lemma token_occurs_earlier (t pre post pre' post' tail : jsstring) :
  t = OPEN_BRACE :: OPEN_BRACE :: N_of_ascii "O" :: tail ->
  no_open_brace tail = true ->
  pre ++ t ++ post = pre' ++ t ++ post' ->
  length pre' < length pre ->
  exists rest, pre = pre' ++ t ++ rest.
Proof.
  intros Ht Htail Heq Hlt.
  apply app_eq_app in Heq as [d [[Hpre Hd] | [Hpre Hd]]].
  2:{ rewrite Hpre, length_app in Hlt. lia. }
  assert (Hdne : d <> []).
  { intros ->. rewrite app_nil_r in Hpre. subst pre'. lia. }
  apply app_eq_app in Hd as [l [[Hl1 Hl2] | [Hl1 Hl2]]].
  - (* the copy would reach into the token: its shape excludes that *)
    destruct l as [| y l].
    { exists []. rewrite app_nil_r in Hl1. rewrite Hpre, Hl1. now rewrite !app_nil_r. }
    exfalso. destruct d as [| x d]; [congruence |].
    rewrite Ht in Hl1, Hl2. cbn [app] in Hl1, Hl2.
    assert (Hy : y = OPEN_BRACE) by (inversion Hl2; reflexivity). subst y.
    assert (E1 : OPEN_BRACE :: N_of_ascii "O" :: tail = d ++ OPEN_BRACE :: l)
      by (inversion Hl1; reflexivity).
    assert (E2 : OPEN_BRACE :: N_of_ascii "O" :: tail ++ post = l ++ post')
      by (inversion Hl2; reflexivity).
    clear Hl1 Hl2.
    destruct d as [| x' d].
    + cbn [app] in E1. assert (l = N_of_ascii "O" :: tail) by (inversion E1; reflexivity).
      subst l. cbn [app] in E2. discriminate.
    + assert (E3 : N_of_ascii "O" :: tail = d ++ OPEN_BRACE :: l)
        by (inversion E1; reflexivity).
      assert (Hin : In OPEN_BRACE (N_of_ascii "O" :: tail))
        by (rewrite E3; apply in_or_app; right; now left).
      destruct Hin as [Hin | Hin]; [discriminate |].
      unfold no_open_brace in Htail. rewrite forallb_forall in Htail.
      specialize (Htail _ Hin). now rewrite N.eqb_refl in Htail.
  - exists l. now rewrite Hpre, Hl1.
Qed.

Section QuietFailure.
Context {P : Platform}.
Variable env : Env.

(** Scenario B of the specification, for any document.  The token's text
    is not in the document before the paste (its random digits hold no
    brace, as the digits of base 36 do not), the put request fails, and
    nobody touches the document while it is under way: then the text of
    the document is afterwards what it was before the paste. *)
Theorem failed_upload_restores_document
    (w : World) (u : OssUploader) (file : File) (err : JsError) :
  uploader w = Some u ->
  put_outcome env (key_of env w file) = Some err ->
  no_open_brace (token_random env) = true ->
  includes (token_of env) (value (editor w)) = false ->
  during_wait env (editor_with_token env w) = editor_with_token env w ->
  value (editor (snd (handleImageUpload env file w))) = value (editor w).
Proof.
  intros Hu Hput Hrandom Hfresh Hquiet.
  rewrite (handleImageUpload_failure env w u file err Hu Hput). cbn [snd editor].
  unfold editor_at_settlement. rewrite Hquiet.
  set (v := value (editor w)) in *.
  set (a := toOffset v (cursor (editor w))).
  assert (Hv : value (editor_with_token env w) = firstn a v ++ token_of env ++ skipn a v)
    by reflexivity.
  rewrite (removeToken_first _ (token_of env) (firstn a v) (skipn a v) Hv).
  - apply firstn_skipn.
  - intros pre' post' Heq.
    destruct (Nat.le_gt_cases (length (firstn a v)) (length pre')) as [Hle | Hlt];
      [exact Hle | exfalso].
    destruct (generateUploadToken_shape (token_time env) (token_random env) Hrandom)
      as (tail & Hshape & Htail).
    destruct (token_occurs_earlier (token_of env) _ _ _ _ tail Hshape Htail Heq Hlt)
      as (rest & Hpre).
    assert (Hocc : v = pre' ++ token_of env ++ (rest ++ skipn a v)).
    { rewrite <- (firstn_skipn a v) at 1. rewrite Hpre. now rewrite <- !app_assoc. }
    rewrite Hocc, includes_app in Hfresh. discriminate.
Qed.

End QuietFailure.

(** Scenario B at work: the document [ab], the cursor between the letters. *)
Lemma failed_upload_restores_document_witness :
  value (editor (snd (@handleImageUpload example_platform failing_env png_file world_ab)))
  = value (editor world_ab).
Proof.
  apply (@failed_upload_restores_document example_platform failing_env world_ab
           example_uploader png_file network_down); vm_compute; reflexivity.
Defined.

(* ===================================================================== *)
(** ** Deleting every image of the document (C2, C6, C7)                  *)
(* ===================================================================== *)

Section DeleteAll.
Context {P : Platform}.
Variable env : Env.

Lemma keys_of_truthy (ms : list MatchResult) : forallb truthy (keys_of ms) = true.
Proof.
  unfold keys_of. apply forallb_forall. intros k Hk.
  now apply filter_In in Hk.
Qed.

(** With an uploader in place, one request leaves for every non-empty
    key, whatever becomes of the others; nothing else changes. *)
Lemma send_deletes_all (keys : list jsstring) (w : World) (u : OssUploader) :
  uploader w = Some u ->
  forallb truthy keys = true ->
  send_deletes keys w =
  (Ok tt,
   {| settings := settings w; uploader := uploader w; editor := editor w;
      notices := notices w; console_errors := console_errors w;
      requests := requests w ++ map DeleteObject keys; clients := clients w |}).
Proof.
  revert w. induction keys as [| key keys IH]; intros w Hu Hk.
  - cbn [send_deletes map]. rewrite app_nil_r. destruct w; reflexivity.
  - cbn [forallb] in Hk. apply andb_prop in Hk as [Hkey Hkeys].
    cbn [send_deletes]. run_M. rewrite Hu, Hkey. run_M.
    rewrite IH; [| exact Hu | exact Hkeys].
    cbn [settings uploader editor notices console_errors requests clients map].
    rewrite ?Hu, <- ?app_assoc. reflexivity.
Qed.

(** The failures are written to the console, none of them is thrown on. *)
Lemma settle_deletes_all (keys : list jsstring) (i : nat) (w : World) :
  settle_deletes env i keys w =
  (Ok tt,
   {| settings := settings w; uploader := uploader w; editor := editor w;
      notices := notices w;
      console_errors := console_errors w ++ failed_deletes env i keys;
      requests := requests w; clients := clients w |}).
Proof.
  revert i w. induction keys as [| key keys IH]; intros i w.
  - cbn [settle_deletes failed_deletes]. rewrite app_nil_r. destruct w; reflexivity.
  - cbn [settle_deletes failed_deletes]. run_M.
    destruct (delete_outcome env i key) as [e |]; run_M; rewrite IH;
      cbn [settings uploader editor notices console_errors requests clients].
    + now rewrite <- app_assoc.
    + reflexivity.
Qed.

(** What [deleteAllImages] does to a document with at least one match. *)
Lemma deleteAllImages_runs (w : World) (u : OssUploader) :
  uploader w = Some u ->
  let content := value (editor w) in
  let keys := keys_of (matchAll IMAGE_MARKDOWN_REGEX content) in
  matchAll IMAGE_MARKDOWN_REGEX content <> [] ->
  deleteAllImages env w =
  (Ok tt,
   {| settings := settings w; uploader := uploader w;
      editor := setValue (match keys with
                          | [] => editor w
                          | _ :: _ => during_wait env (editor w)
                          end)
                  (replace_all_empty IMAGE_MARKDOWN_REGEX content);
      notices := notices w ++ [lit "Deleted " ++ Number_toString (Z.of_nat (length keys))
                                 ++ lit " image(s)"];
      console_errors := console_errors w ++ failed_deletes env 0 keys;
      requests := requests w ++ map DeleteObject keys;
      clients := clients w |}).
Proof.
  intros Hu content keys Hms.
  assert (Hk : forallb truthy keys = true) by apply keys_of_truthy.
  unfold deleteAllImages. run_M. fold content.
  destruct (matchAll IMAGE_MARKDOWN_REGEX content) as [| m ms]; [congruence |].
  fold keys. clearbody keys. run_M.
  rewrite (send_deletes_all keys w u Hu Hk).
  destruct keys as [| k ks]; run_M; rewrite settle_deletes_all; reflexivity.
Qed.

(** A document without any match: a notice, and nothing else. *)
Lemma deleteAllImages_no_match (w : World) :
  matchAll IMAGE_MARKDOWN_REGEX (value (editor w)) = [] ->
  deleteAllImages env w =
  (Ok tt,
   {| settings := settings w; uploader := uploader w; editor := editor w;
      notices := notices w ++ [lit "No images found"];
      console_errors := console_errors w; requests := requests w;
      clients := clients w |}).
Proof.
  intros Hms. unfold deleteAllImages. run_M. now rewrite Hms.
Qed.

End DeleteAll.

Section DeleteAllClaims.
Context {P : Platform}.
Variable env : Env.

(** C7.  With an uploader in place and at least one reference matched,
    [deleteAllImages] returns normally whatever the outcomes of the
    delete requests: a request has left for every key, in the order of
    the matches; the failures, and only they, are on the console; the
    document is the text read at the start without the characters of any
    match; and the final notice is shown. *)
Theorem deleteAllImages_isolates_failures (w : World) (u : OssUploader) :
  uploader w = Some u ->
  let content := value (editor w) in
  let ms := matchAll IMAGE_MARKDOWN_REGEX content in
  ms <> [] ->
  let r := deleteAllImages env w in
  fst r = Ok tt /\
  requests (snd r) = requests w ++ map DeleteObject (keys_of ms) /\
  console_errors (snd r) = console_errors w ++ failed_deletes env 0 (keys_of ms) /\
  value (editor (snd r)) = cut_matches ms content /\
  notices (snd r)
  = notices w ++ [lit "Deleted " ++ Number_toString (Z.of_nat (length (keys_of ms)))
                    ++ lit " image(s)"].
Proof.
  intros Hu content ms Hms r. subst r.
  rewrite (deleteAllImages_runs env w u Hu Hms).
  cbn [fst snd requests console_errors editor notices setValue value].
  repeat split. apply replace_all_cuts_matches.
Qed.

(** C6, as amended.  With an uploader in place, [deleteAllImages] shows
    [No images found] for a document without match, and otherwise
    [Deleted n image(s)] where [n] counts the matched references whose
    address gives a non-empty key; the outcomes of the delete requests
    play no part in it. *)
Theorem deleteAllImages_counts_nonempty_keys (w : World) (u : OssUploader) :
  uploader w = Some u ->
  let ms := matchAll IMAGE_MARKDOWN_REGEX (value (editor w)) in
  let n := length (filter (fun m => truthy (parseKeyFromUrl (url_of m))) ms) in
  (ms = [] ->
   notices (snd (deleteAllImages env w)) = notices w ++ [lit "No images found"])
  /\
  (ms <> [] ->
   notices (snd (deleteAllImages env w))
   = notices w ++ [lit "Deleted " ++ Number_toString (Z.of_nat n) ++ lit " image(s)"]).
Proof.
  intros Hu ms n. split; intros Hms.
  - now rewrite (deleteAllImages_no_match env w Hms).
  - rewrite (deleteAllImages_runs env w u Hu Hms). cbn [snd notices].
    unfold keys_of. fold ms. now rewrite filter_map_length.
Qed.

End DeleteAllClaims.

(** C7 at work: three references, the delete of the second one fails.
    Three requests have left, one failure is on the console, the three
    references are gone from the text and the notice counts three. *)
Lemma deleteAllImages_isolates_failures_witness :
  let r := @deleteAllImages example_platform second_delete_fails
             (example_world three_images) in
  fst r = Ok tt /\
  requests (snd r) = [DeleteObject (lit "a.png"); DeleteObject (lit "b.png");
                      DeleteObject (lit "c.png")] /\
  console_errors (snd r) = [(lit "Delete failed for b.png:", network_down)] /\
  value (editor (snd r)) = lit "  " /\
  notices (snd r) = [lit "Deleted 3 image(s)"].
Proof.
  destruct (@deleteAllImages_isolates_failures example_platform second_delete_fails
              (example_world three_images) example_uploader eq_refl
              ltac:(vm_compute; discriminate))
    as (H1 & H2 & H3 & H4 & H5).
  cbv zeta. rewrite H1, H2, H3, H4, H5. vm_compute. repeat split.
Defined.

(** C6 as stated fails: two references are matched and removed from the
    text, one of them with an empty address, and the notice counts one. *)
Lemma deleteAllImages_skips_empty_key :
  let doc := lit "![](https://b.r.aliyuncs.com/a.png) ![]()" in
  let r := @deleteAllImages example_platform quiet_env (example_world doc) in
  length (matchAll IMAGE_MARKDOWN_REGEX doc) = 2 /\
  value (editor (snd r)) = lit " " /\
  notices (snd r) = [lit "Deleted 1 image(s)"].
Proof. vm_compute. repeat split. Qed.

(** The amended C6 at work, on the same document. *)
Lemma deleteAllImages_counts_nonempty_keys_witness :
  notices (snd (@deleteAllImages example_platform second_delete_fails
                  (example_world (lit "![](https://b.r.aliyuncs.com/a.png) ![]()"))))
  = [lit "Deleted 1 image(s)"].
Proof.
  rewrite (proj2 (@deleteAllImages_counts_nonempty_keys example_platform second_delete_fails
                    (example_world (lit "![](https://b.r.aliyuncs.com/a.png) ![]()"))
                    example_uploader eq_refl)
             ltac:(vm_compute; discriminate)).
  vm_compute. reflexivity.
Defined.

(** C2, at the failing input: the document holds one reference; while
    the delete request is under way the user types [ new text] after it.
    [deleteAllImages] then writes back the text it read before the wait,
    without the reference: the document is empty and what the user typed
    is lost, where the current text without its references is
    [ new text]. *)
Theorem deleteAllImages_writes_stale_text :
  let w := example_world (lit "![](https://b.r.aliyuncs.com/a.png)") in
  let r := @deleteAllImages example_platform typing_env w in
  value (during_wait typing_env (editor w))
  = lit "![](https://b.r.aliyuncs.com/a.png) new text" /\
  value (editor (snd r)) = [] /\
  replace_all_empty IMAGE_MARKDOWN_REGEX (value (during_wait typing_env (editor w)))
  = lit " new text".
Proof. vm_compute. repeat split. Qed.

(* ===================================================================== *)
(** ** Deleting one image (C8)                                            *)
(* ===================================================================== *)

Section DeleteOne.
Context {P : Platform}.
Variable env : Env.

(** C8.  With an uploader in place and an address that gives a non-empty
    key, [deleteImage] sends one delete request and waits.  If the
    request fails, the operation changes nothing in the editor (it is
    left as the wait left it) and shows the error; only if the request
    succeeds is line [lineNumber], as it reads then, replaced by itself
    without the leftmost image reference, the text before and after the
    line being kept, and the success shown.  An address that gives no key
    sends nothing and changes nothing. *)
Theorem deleteImage_rewrites_only_on_success
    (w : World) (u : OssUploader) (url : jsstring) (lineNumber : nat) :
  uploader w = Some u ->
  let key := parseKeyFromUrl url in
  let r := deleteImage env url lineNumber w in
  (key = [] ->
   r = (Ok tt,
        {| settings := settings w; uploader := uploader w; editor := editor w;
           notices := notices w ++ [lit "Invalid image URL"];
           console_errors := console_errors w; requests := requests w;
           clients := clients w |}))
  /\
  (key <> [] ->
   forall err, delete_outcome env 0 key = Some err ->
   r = (Ok tt,
        {| settings := settings w; uploader := uploader w;
           editor := during_wait env (editor w);
           notices := notices w ++ [lit "Delete failed: " ++ error_text err];
           console_errors := console_errors w;
           requests := requests w ++ [DeleteObject key];
           clients := clients w |}))
  /\
  (key <> [] ->
   delete_outcome env 0 key = None ->
   forall line, getLine (during_wait env (editor w)) lineNumber = Some line ->
   r = (Ok tt,
        {| settings := settings w; uploader := uploader w;
           editor := setLine (during_wait env (editor w)) lineNumber
                       (replace_first_empty IMAGE_LINE_REGEX line);
           notices := notices w ++ [lit "Image deleted successfully"];
           console_errors := console_errors w;
           requests := requests w ++ [DeleteObject key];
           clients := clients w |}) /\
   exists before after,
     value (during_wait env (editor w)) = before ++ line ++ after /\
     value (editor (snd r))
     = before ++ replace_first_empty IMAGE_LINE_REGEX line ++ after).
Proof.
  intros Hu key r.
  assert (Hsuccess :
    key <> [] -> delete_outcome env 0 key = None ->
    forall line, getLine (during_wait env (editor w)) lineNumber = Some line ->
    r = (Ok tt,
         {| settings := settings w; uploader := uploader w;
            editor := setLine (during_wait env (editor w)) lineNumber
                        (replace_first_empty IMAGE_LINE_REGEX line);
            notices := notices w ++ [lit "Image deleted successfully"];
            console_errors := console_errors w;
            requests := requests w ++ [DeleteObject key];
            clients := clients w |})).
  { intros Hkey Hok text Hline. apply truthy_nonempty in Hkey.
    subst r. unfold deleteImage. fold key.
    run_M. rewrite Hkey. run_M. rewrite Hu. run_M. rewrite Hok. run_M.
    rewrite Hline. run_M. rewrite ?Hu. reflexivity. }
  split; [| split].
  - intros Hkey. subst r. unfold deleteImage. fold key.
    rewrite Hkey. run_M. cbn [truthy]. run_M. reflexivity.
  - intros Hkey err Herr. apply truthy_nonempty in Hkey.
    subst r. unfold deleteImage. fold key.
    run_M. rewrite Hkey. run_M. rewrite Hu. run_M. rewrite Herr.
    run_M. rewrite ?Hu. reflexivity.
  - intros Hkey Hok text Htext. split; [now apply Hsuccess |].
    rewrite (Hsuccess Hkey Hok text Htext). cbn [snd editor].
    exact (setLine_in_place (during_wait env (editor w)) lineNumber text _ Htext).
Qed.

End DeleteOne.

(** C8 at work: the line holds a reference and some text.  When the
    delete request fails the document is as before and the error is
    shown; when it succeeds the reference is gone and the rest of the
    line is kept. *)
Lemma deleteImage_rewrites_only_on_success_witness :
  let url := lit "https://b.r.aliyuncs.com/a%2Fb.png" in
  let failed := snd (@deleteImage example_platform delete_fails url 0
                       (example_world reference_and_text)) in
  let deleted := snd (@deleteImage example_platform quiet_env url 0
                        (example_world reference_and_text)) in
  (value (editor failed) = reference_and_text /\
   notices failed = [lit "Delete failed: connect ETIMEDOUT"])
  /\
  (value (editor deleted) = lit " and text" /\
   requests deleted = [DeleteObject (lit "a/b.png")] /\
   notices deleted = [lit "Image deleted successfully"]).
Proof.
  cbv zeta. split.
  - rewrite (proj1 (proj2 (@deleteImage_rewrites_only_on_success example_platform
                             delete_fails (example_world reference_and_text)
                             example_uploader (lit "https://b.r.aliyuncs.com/a%2Fb.png") 0
                             eq_refl))
               ltac:(vm_compute; discriminate) network_down eq_refl).
    vm_compute. split; reflexivity.
  - rewrite (proj1 (proj2 (proj2 (@deleteImage_rewrites_only_on_success example_platform
                             quiet_env (example_world reference_and_text)
                             example_uploader (lit "https://b.r.aliyuncs.com/a%2Fb.png") 0
                             eq_refl))
               ltac:(vm_compute; discriminate) eq_refl reference_and_text eq_refl)).
    vm_compute. repeat split.
Defined.

(* ===================================================================== *)
(** ** The key an upload is stored under                                  *)
(* ===================================================================== *)

Lemma dropWhile_forallb (f g : code_unit -> bool) (s : jsstring) :
  forallb g s = true -> forallb g (dropWhile f s) = true.
Proof.
  induction s as [| c s IH]; [reflexivity |].
  intros H. cbn [dropWhile]. destruct (f c); [| exact H].
  cbn [forallb] in H. apply andb_prop in H as [_ H]. now apply IH.
Qed.

Lemma forallb_rev (g : code_unit -> bool) (s : jsstring) :
  forallb g (rev s) = forallb g s.
Proof.
  induction s as [| c s IH]; [reflexivity |].
  cbn [rev forallb]. rewrite forallb_app, IH. cbn [forallb].
  rewrite andb_true_r. apply andb_comm.
Qed.

(** What is left of a string without its leading and trailing slashes
    holds only characters of the string. *)
Lemma strip_slashes_forallb (g : code_unit -> bool) (s : jsstring) :
  forallb g s = true -> forallb g (strip_slashes s) = true.
Proof.
  intros H. unfold strip_slashes. rewrite forallb_rev.
  apply dropWhile_forallb. rewrite forallb_rev. now apply dropWhile_forallb.
Qed.

Lemma dropWhile_head (f : code_unit -> bool) (s : jsstring) (c : code_unit) (t : jsstring) :
  dropWhile f s = c :: t -> f c = false.
Proof.
  induction s as [| x s IH]; [discriminate |].
  cbn [dropWhile]. destruct (f x) eqn:Hx; [exact IH |].
  intros E. injection E as <- _. exact Hx.
Qed.

Lemma dropWhile_snoc (f : code_unit -> bool) (s : jsstring) (c : code_unit) :
  f c = false -> dropWhile f (s ++ [c]) = dropWhile f s ++ [c].
Proof.
  intros Hc. induction s as [| x s IH].
  - cbn. now rewrite Hc.
  - cbn [app dropWhile]. destruct (f x); [exact IH | reflexivity].
Qed.

(** It neither starts nor ends with a slash. *)
Lemma strip_slashes_ends (s : jsstring) :
  (forall c t, strip_slashes s = c :: t -> is_slash c = false) /\
  (forall t c, strip_slashes s = t ++ [c] -> is_slash c = false).
Proof.
  unfold strip_slashes. split.
  - intros c t E.
    destruct (dropWhile is_slash s) as [| x d] eqn:Ed; [discriminate |].
    pose proof (dropWhile_head _ _ _ _ Ed) as Hx.
    cbn [rev] in E. rewrite (dropWhile_snoc _ _ _ Hx), rev_app_distr in E.
    cbn [rev app] in E. injection E as <- _. exact Hx.
  - intros t c E.
    apply (f_equal (@rev code_unit)) in E. rewrite rev_involutive, rev_app_distr in E.
    cbn [rev app] in E. exact (dropWhile_head _ _ _ _ E).
Qed.

Lemma uint_digits_digits (d : Decimal.uint) : forallb is_digit (uint_digits d) = true.
Proof. induction d; cbn [uint_digits forallb]; try reflexivity; exact IHd. Qed.

Lemma uint_digits_nonempty (n : N) : uint_digits (N.to_uint n) <> [].
Proof.
  destruct n as [| p]; [discriminate |]. cbn [N.to_uint].
  pose proof (Unsigned.to_uint_nonnil p) as H.
  destruct (Pos.to_uint p); [congruence | discriminate ..].
Qed.

(** A numeral starts with a digit or with the minus sign, and holds
    nothing else than digits after its first character. *)
Lemma Number_toString_shape (z : Z) :
  exists c t, Number_toString z = c :: t /\
              (is_digit c = true \/ c = 45%N) /\ forallb is_digit t = true.
Proof.
  unfold Number_toString. pose proof (uint_digits_digits (N.to_uint (Z.abs_N z))) as Hd.
  destruct (z <? 0)%Z.
  - exists 45%N, (uint_digits (N.to_uint (Z.abs_N z))). auto.
  - pose proof (uint_digits_nonempty (Z.abs_N z)) as Hne.
    destruct (uint_digits (N.to_uint (Z.abs_N z))) as [| c t]; [congruence |].
    cbn [forallb] in Hd. apply andb_prop in Hd as [Hc Ht]. exists c, t. auto.
Qed.

Lemma Number_toString_chars (f : code_unit -> bool) (z : Z) :
  (forall c, is_digit c = true -> f c = true) -> f 45%N = true ->
  forallb f (Number_toString z) = true.
Proof.
  intros Hdig Hminus.
  destruct (Number_toString_shape z) as (c & t & -> & Hc & Ht).
  cbn [forallb]. apply andb_true_intro. split.
  - destruct Hc as [Hc | ->]; auto.
  - apply (forallb_impl is_digit); assumption.
Qed.

(** The extension [generateFileName] takes is a piece of the name. *)
Lemma pop_split_chars (f : code_unit -> bool) (c : code_unit) (s : jsstring) :
  forallb f s = true -> forallb f (pop (split c s)) = true.
Proof.
  intros H. unfold pop, split.
  assert (HF : Forall (fun x => f x = true) s) by (apply Forall_forall; now apply forallb_forall).
  pose proof (split_by_chars (N.eqb c) s _ HF) as Hsegs.
  pose proof (split_by_nonempty (N.eqb c) s) as Hne.
  destruct (exists_last Hne) as (l & seg & E). rewrite E in *.
  rewrite last_last. apply Forall_app in Hsegs as [_ Hseg].
  inversion Hseg as [| ? ? Hs _]; subst.
  apply forallb_forall. now apply Forall_forall.
Qed.

Lemma generateFileName_shape (now : Z) (file : File) :
  exists c t, generateFileName now file = c :: t /\ (is_digit c = true \/ c = 45%N).
Proof.
  unfold generateFileName.
  destruct (Number_toString_shape now) as (c & t & E & Hc & _). rewrite E.
  destruct (truthy (pop (split DOT (file_name file)))); cbn [app]; eauto.
Qed.

Lemma generateFileName_chars (f : code_unit -> bool) (now : Z) (file : File) :
  (forall c, is_digit c = true -> f c = true) -> f 45%N = true -> f DOT = true ->
  forallb f (file_name file) = true ->
  forallb f (generateFileName now file) = true.
Proof.
  intros Hdig Hminus Hdot Hname. unfold generateFileName.
  pose proof (Number_toString_chars f now Hdig Hminus) as Hn.
  pose proof (pop_split_chars f DOT (file_name file) Hname) as He.
  destruct (truthy (pop (split DOT (file_name file)))); [| exact Hn].
  unfold jsstring, code_unit in *. rewrite !forallb_app, Hn, He. cbn [lit list_ascii_of_string map forallb].
  change (N_of_ascii ".") with DOT. now rewrite Hdot.
Qed.

(** The generated name is the time stamp, followed by the part of the
    original name after its last dot when there is such a part. *)
Theorem generateFileName_keeps_extension (now : Z) (base ext type : jsstring) :
  forallb (fun c => negb (DOT =? c)%N) ext = true ->
  generateFileName now {| file_name := base ++ DOT :: ext; file_type := type |}
  = if truthy ext then Number_toString now ++ lit "." ++ ext else Number_toString now.
Proof.
  intros Hext. unfold generateFileName, pop, split. cbn [file_name].
  rewrite split_by_app_sep by apply N.eqb_refl.
  rewrite last_app_nonempty by apply split_by_nonempty.
  rewrite (split_by_none _ _ Hext). reflexivity.
Qed.

(** The extension is what follows the last dot. *)
Lemma generateFileName_keeps_extension_witness :
  generateFileName 1700000000000 jpeg_file = lit "1700000000000.jpeg".
Proof.
  exact (generateFileName_keeps_extension 1700000000000 (lit "photo.final") (lit "jpeg")
           (lit "image/jpeg") eq_refl).
Defined.

Section UploadKey.
Context {P : Platform}.
Variable env : Env.

Lemma getPrefix_shape (s : OssPicbedSettings) :
  getPrefix s = [] \/
  exists c t, strip_slashes (prefix s) = c :: t /\ is_slash c = false /\
              getPrefix s = (c :: t) ++ lit "/".
Proof.
  unfold getPrefix. destruct (strip_slashes (prefix s)) as [| c t] eqn:E; [now left |].
  right. exists c, t. repeat split.
  exact (proj1 (strip_slashes_ends (prefix s)) c t E).
Qed.

Lemma key_of_relative (w : World) (file : File) :
  key_of env w file <> [] /\ startsWith (lit "/") (key_of env w file) = false.
Proof.
  unfold key_of.
  destruct (generateFileName_shape (upload_time env) file) as (c & t & E & Hc).
  rewrite E.
  assert (Hslash : (47 =? c)%N = false).
  { destruct Hc as [Hc | ->]; [| reflexivity].
    unfold is_digit in Hc. apply andb_prop in Hc as [H1 H2].
    apply N.leb_le in H1. apply N.eqb_neq. lia. }
  destruct (getPrefix_shape (settings w)) as [-> | (x & p & _ & Hx & ->)].
  - cbn [app]. split; [discriminate |].
    cbn [lit list_ascii_of_string map startsWith]. change (N_of_ascii "/") with 47%N.
    now rewrite Hslash.
  - cbn [app]. split; [discriminate |].
    cbn [lit list_ascii_of_string map startsWith]. change (N_of_ascii "/") with 47%N.
    unfold is_slash, SLASH in Hx. rewrite N.eqb_sym in Hx. now rewrite Hx.
Qed.

(** The put request of an upload leaves before anything can fail. *)
Lemma upload_requests (u : OssUploader) (file : File) (w : World) :
  requests (snd (upload env u file w))
  = requests w ++ [PutObject (key_of env w file) file (mime_of file)].
Proof.
  unfold upload. run_M. fold (key_of env w file).
  destruct (put_outcome env (key_of env w file)); run_M; [reflexivity |].
  fold (key_of env w file).
  destruct (getUrl (settings w) u (key_of env w file)); reflexivity.
Qed.

(** Whatever the configured prefix, the name of the file and the outcome
    of the request, an upload sends exactly one put request, and the key
    it names is not empty and has no leading slash. *)
Theorem upload_key_is_relative (u : OssUploader) (file : File) (w : World) :
  exists key,
    requests (snd (upload env u file w)) = requests w ++ [PutObject key file (mime_of file)] /\
    key <> [] /\ startsWith (lit "/") key = false.
Proof.
  exists (key_of env w file). split; [apply upload_requests | apply key_of_relative].
Qed.

End UploadKey.

Section UploadRoundTrip.
Context {P : Platform}.
Variable env : Env.

(** The address [https://host/e1/.../en] of the encoded segments of a
    key leads back to the key. *)
Lemma public_address_parses_back (host key : jsstring) (es : list jsstring) :
  URL_follows_standard P ->
  host <> [] ->
  forallb host_char host = true ->
  host_parses host = true ->
  well_formed key = true ->
  startsWith (lit "/") key = false ->
  existsb is_dot_segment (split SLASH key) = false ->
  encode_segments (split SLASH key) = Some es ->
  parseKeyFromUrl (lit "https://" ++ host ++ SLASH :: join [SLASH] es) = key.
Proof.
  intros Hstd Hne Hchars Hhost Hwf Hlead Hdots Es.
  pose proof (well_formed_segments SLASH key Hwf) as Hsegs.
  pose proof (encode_segments_chars _ _ Hsegs Es) as Henc.
  pose proof (decode_segments _ _ Hsegs Es) as Hdec.
  change (lit "/") with [SLASH] in Hdec. rewrite join_split in Hdec.
  assert (Hes : es <> []).
  { pose proof (encode_segments_length _ _ Es) as Hlen.
    pose proof (split_by_nonempty (N.eqb SLASH) key) as Hsplit. unfold split in Hlen.
    destruct es; [| discriminate].
    destruct (split_by (N.eqb SLASH) key); [congruence | discriminate]. }
  set (path := join [SLASH] es) in *.
  assert (Hpathname : URL_pathname (lit "https://" ++ host ++ SLASH :: path)
                      = Some (SLASH :: path)).
  { rewrite Hstd by reflexivity.
    rewrite https_pathname_of_address; try assumption.
    - subst path. rewrite split_by_join.
      + rewrite (parse_path_encoded _ _ Hsegs Hdots Es []). cbn [app].
        now rewrite serialize_path_join.
      + reflexivity.
      + exact Hes.
      + eapply Forall_impl; [| exact Henc]. intros e He.
        apply (forallb_impl encoded_char); [| exact He].
        intros c Hc. apply negb_true_iff. unit_excluded Hc.
    - subst path. apply join_chars; [reflexivity |].
      eapply Forall_impl; [| exact Henc]. intros e He.
      apply (forallb_impl encoded_char); [| exact He].
      intros c Hc. now rewrite Hc. }
  unfold parseKeyFromUrl. rewrite Hpathname.
  change (truthy (lit "https://" ++ host ++ SLASH :: path)) with true. cbn [negb].
  assert (Hstrip : strip_leading_slashes (SLASH :: path) = path).
  { unfold strip_leading_slashes. cbn [dropWhile]. change (is_slash SLASH) with true.
    cbv iota. destruct path as [| c path'] eqn:Ep; [reflexivity |].
    cbn [dropWhile]. destruct (is_slash c) eqn:Hc; [| reflexivity].
    exfalso. unfold is_slash in Hc. apply N.eqb_eq in Hc. subst c.
    cbn [decodeURIComponent] in Hdec. cbn [N.eqb SLASH PERCENT Pos.eqb negb] in Hdec.
    destruct (decodeURIComponent path'); [| discriminate].
    injection Hdec as <-. discriminate. }
  now rewrite Hstrip, Hdec.
Qed.

Lemma is_dot_segment_numeral (c : code_unit) (t : jsstring) :
  is_digit c = true \/ c = 45%N -> is_dot_segment (c :: t) = false.
Proof.
  intros Hc. unfold is_dot_segment.
  assert (E : (c =? 46)%N = false).
  { destruct Hc as [Hc | ->]; [| reflexivity].
    unfold is_digit in Hc. apply andb_prop in Hc as [H1 H2].
    apply N.leb_le in H1, H2. apply N.eqb_neq. lia. }
  cbn [lit list_ascii_of_string map str_eqb]. change (N_of_ascii ".") with 46%N.
  now rewrite E.
Qed.

(** The segments of a key: those of the prefix, then the file name. *)
Lemma key_of_segments (w : World) (file : File) :
  forallb (fun c => negb (is_slash c)) (file_name file) = true ->
  split SLASH (key_of env w file)
  = match strip_slashes (prefix (settings w)) with
    | [] => []
    | p => split SLASH p
    end ++ [generateFileName (upload_time env) file].
Proof.
  intros Hname.
  assert (Hgen : forallb (fun c => negb (SLASH =? c)%N)
                   (generateFileName (upload_time env) file) = true).
  { apply generateFileName_chars; try reflexivity.
    - intros c Hc. unfold is_digit in Hc. apply andb_prop in Hc as [H1 H2].
      apply N.leb_le in H1, H2. apply negb_true_iff, N.eqb_neq. unfold SLASH. lia.
    - apply (forallb_impl (fun c => negb (is_slash c))); [| exact Hname].
      intros c Hc. unfold is_slash in Hc. now rewrite N.eqb_sym. }
  unfold key_of, getPrefix, split.
  destruct (strip_slashes (prefix (settings w))) as [| c p].
  - cbn [truthy app]. now apply split_by_none.
  - cbn [truthy]. change (lit "/") with [SLASH]. rewrite <- app_assoc.
    change ([SLASH] ++ generateFileName (upload_time env) file)
      with (SLASH :: generateFileName (upload_time env) file).
    rewrite split_by_app_sep by apply N.eqb_refl.
    now rewrite (split_by_none _ _ Hgen).
Qed.

(** What a returning upload has gone through. *)
Lemma upload_returns (u : OssUploader) (file : File) (w w' : World) (url key : jsstring) :
  upload env u file w = (Ok (url, key), w') ->
  key_of env w file = key /\
  put_outcome env (key_of env w file) = None /\
  getUrl (settings w) u (key_of env w file) = Ok url.
Proof.
  unfold upload. run_M. fold (key_of env w file).
  destruct (put_outcome env (key_of env w file)); run_M; [discriminate |].
  fold (key_of env w file).
  destruct (getUrl (settings w) u (key_of env w file)); run_M; [| discriminate].
  intros E. repeat split; congruence.
Qed.

(** The address of a returning upload leads back to its key. *)
Lemma upload_parses_back
    (u : OssUploader) (file : File) (w w' : World) (url key : jsstring) :
  URL_follows_standard P ->
  usePublicUrl (settings w) = true ->
  forallb host_char (bucket (settings w)) = true ->
  forallb host_char (region (settings w)) = true ->
  host_parses (bucket (settings w) ++ lit "." ++ region (settings w) ++ lit ".aliyuncs.com")
  = true ->
  well_formed (prefix (settings w)) = true ->
  existsb is_dot_segment (split SLASH (strip_slashes (prefix (settings w)))) = false ->
  well_formed (file_name file) = true ->
  forallb (fun c => negb (is_slash c)) (file_name file) = true ->
  upload env u file w = (Ok (url, key), w') ->
  parseKeyFromUrl url = key /\ key = key_of env w file.
Proof.
  intros Hstd Hpublic Hbucket Hregion Hhost Hwfp Hdots Hwfn Hname Hup.
  destruct (upload_returns u file w w' url key Hup) as (Hkey & _ & Hurl).
  clear Hup. rewrite Hkey in Hurl. split; [| now symmetry].
  unfold getUrl in Hurl. rewrite Hpublic in Hurl.
  destruct (encode_segments (split SLASH key)) as [es |] eqn:Es; [| discriminate].
  assert (Hu : url = lit "https://"
                       ++ (bucket (settings w) ++ lit "." ++ region (settings w)
                             ++ lit ".aliyuncs.com")
                       ++ SLASH :: join [SLASH] es).
  { assert (E : Ok url = Ok (lit "https://"
                       ++ (bucket (settings w) ++ lit "." ++ region (settings w)
                             ++ lit ".aliyuncs.com")
                       ++ SLASH :: join [SLASH] es) :> result jsstring).
    { rewrite <- Hurl. change (lit ".aliyuncs.com/") with (lit ".aliyuncs.com" ++ [SLASH]).
      change (lit "/") with [SLASH]. now rewrite <- !app_assoc. }
    congruence. }
  rewrite Hu. destruct (key_of_relative env w file) as [_ Hlead]. rewrite Hkey in Hlead.
  apply public_address_parses_back; try assumption.
  - destruct (bucket (settings w)); discriminate.
  - rewrite !forallb_app, Hbucket, Hregion. reflexivity.
  - (* every character of the key is a code unit *)
    rewrite <- Hkey. unfold key_of, getPrefix, well_formed.
    assert (Hg : forallb (fun c => (c <? 65536)%N)
                   (generateFileName (upload_time env) file) = true).
    { apply generateFileName_chars; try reflexivity; [| exact Hwfn].
      intros c Hc. unfold is_digit in Hc. apply andb_prop in Hc as [_ H2].
      apply N.leb_le in H2. apply N.ltb_lt. lia. }
    pose proof (strip_slashes_forallb _ _ Hwfp) as Hp. unfold well_formed in Hp.
    destruct (truthy (strip_slashes (prefix (settings w)))); cbn [app]; [| exact Hg].
    unfold jsstring, code_unit in *. rewrite !forallb_app, Hp, Hg. reflexivity.
  - (* no segment of the key is a dot segment *)
    rewrite <- Hkey, (key_of_segments w file Hname), existsb_app.
    destruct (generateFileName_shape (upload_time env) file) as (c & t & -> & Hc).
    cbn [existsb]. rewrite (is_dot_segment_numeral c t Hc).
    destruct (strip_slashes (prefix (settings w))); [reflexivity |].
    rewrite Hdots. reflexivity.
Qed.

(** Round trip through an upload.  On a platform whose [URL] follows the
    standard, in public mode, with a bucket and a region that make a
    host name, a prefix without [.] or [..] segment and a file name
    without slash: the address a successful upload returns leads
    [parseKeyFromUrl] back to the key of the put request, which is the
    key the upload returns. *)
Theorem upload_address_parses_back
    (u : OssUploader) (file : File) (w w' : World) (url key : jsstring) :
  URL_follows_standard P ->
  usePublicUrl (settings w) = true ->
  forallb host_char (bucket (settings w)) = true ->
  forallb host_char (region (settings w)) = true ->
  host_parses (bucket (settings w) ++ lit "." ++ region (settings w) ++ lit ".aliyuncs.com")
  = true ->
  well_formed (prefix (settings w)) = true ->
  existsb is_dot_segment (split SLASH (strip_slashes (prefix (settings w)))) = false ->
  well_formed (file_name file) = true ->
  forallb (fun c => negb (is_slash c)) (file_name file) = true ->
  upload env u file w = (Ok (url, key), w') ->
  parseKeyFromUrl url = key /\
  requests w' = requests w ++ [PutObject key file (mime_of file)].
Proof.
  intros Hstd Hpublic Hbucket Hregion Hhost Hwfp Hdots Hwfn Hname Hup.
  destruct (upload_parses_back u file w w' url key Hstd Hpublic Hbucket Hregion Hhost
              Hwfp Hdots Hwfn Hname Hup) as [Hparse Hkey].
  split; [exact Hparse |].
  pose proof (upload_requests env u file w) as Hreq. rewrite Hup in Hreq. cbn [snd] in Hreq.
  now rewrite Hkey.
Qed.

(** The path of a public address decodes to the key: for a key of code
    units, in public mode, the address [getUrl] builds is [https://],
    the bucket, the region and [.aliyuncs.com/], followed by a path of
    unreserved characters, percent signs and slashes that
    [decodeURIComponent] turns back into the key, dot segments and
    slashes included. *)
Theorem getUrl_path_decodes (s : OssPicbedSettings) (u : OssUploader) (key url : jsstring) :
  usePublicUrl s = true ->
  well_formed key = true ->
  getUrl s u key = Ok url ->
  exists path,
    url = lit "https://" ++ bucket s ++ lit "." ++ region s ++ lit ".aliyuncs.com/" ++ path /\
    forallb (fun c => encoded_char c || is_slash c) path = true /\
    decodeURIComponent path = Some key.
Proof.
  intros Hpublic Hwf Hurl. unfold getUrl in Hurl. rewrite Hpublic in Hurl.
  destruct (encode_segments (split SLASH key)) as [es |] eqn:Es; [| discriminate].
  pose proof (well_formed_segments SLASH key Hwf) as Hsegs.
  pose proof (encode_segments_chars _ _ Hsegs Es) as Henc.
  pose proof (decode_segments _ _ Hsegs Es) as Hdec.
  exists (join (lit "/") es). split; [congruence |]. split.
  - change (lit "/") with [SLASH]. apply join_chars; [reflexivity |].
    eapply Forall_impl; [| exact Henc]. intros e He.
    apply (forallb_impl encoded_char); [| exact He].
    intros c Hc. now rewrite Hc.
  - rewrite Hdec. change (lit "/") with [SLASH]. now rewrite join_split.
Qed.

End UploadRoundTrip.

(** The round trip at work: a PNG pasted under the prefix [/my pics/]. *)
Lemma upload_address_parses_back_witness :
  fst (@upload example_platform quiet_env example_uploader png_file pics_world)
  = Ok (lit "https://b.r.aliyuncs.com/my%20pics/1700000000000.png",
        lit "my pics/1700000000000.png") /\
  @parseKeyFromUrl example_platform (lit "https://b.r.aliyuncs.com/my%20pics/1700000000000.png")
  = lit "my pics/1700000000000.png".
Proof.
  split; [vm_compute; reflexivity |].
  apply (@upload_address_parses_back example_platform quiet_env example_uploader png_file
           pics_world
           (snd (@upload example_platform quiet_env example_uploader png_file pics_world))
           (lit "https://b.r.aliyuncs.com/my%20pics/1700000000000.png")
           (lit "my pics/1700000000000.png")
           example_platform_follows_standard);
    vm_compute; reflexivity.
Defined.

(** The path decodes to the key even where the URL parser would not
    give it back. *)
Lemma getUrl_path_decodes_witness :
  @getUrl example_platform example_settings example_uploader dotted_key
  = Ok (lit "https://b.r.aliyuncs.com/../a//./b%20c.png") /\
  exists path,
    lit "https://b.r.aliyuncs.com/../a//./b%20c.png"
    = lit "https://" ++ lit "b" ++ lit "." ++ lit "r" ++ lit ".aliyuncs.com/" ++ path /\
    forallb (fun c => encoded_char c || is_slash c) path = true /\
    decodeURIComponent path = Some dotted_key.
Proof.
  split; [vm_compute; reflexivity |].
  apply (@getUrl_path_decodes example_platform example_settings example_uploader dotted_key
           (lit "https://b.r.aliyuncs.com/../a//./b%20c.png"));
    vm_compute; reflexivity.
Defined.

(* ===================================================================== *)
(** ** A paste                                                            *)
(* ===================================================================== *)

Section Paste.
Context {P : Platform}.

(** Whatever happens to an upload (no uploader, a failed request, an
    address that cannot be built), [handleImageUpload] returns normally,
    with one more notice; it sends one put request when there is an
    uploader and none when there is not, and leaves the settings and the
    uploader alone. *)
Lemma handleImageUpload_settles (env : Env) (file : File) (w : World) :
  exists e msg,
    handleImageUpload env file w =
    (Ok tt,
     {| settings := settings w; uploader := uploader w; editor := e;
        notices := notices w ++ [msg];
        console_errors := console_errors w;
        requests := requests w ++
                    match uploader w with
                    | Some _ => [PutObject (key_of env w file) file (mime_of file)]
                    | None => []
                    end;
        clients := clients w |}) /\
    (msg = lit "Image uploaded successfully" \/
     exists err, msg = lit "Upload failed: " ++ error_text err).
Proof.
  unfold handleImageUpload. run_M. destruct (uploader w) as [u |] eqn:Hu; run_M.
  - fold (key_of env w file). fold (mime_of file).
    destruct (put_outcome env (key_of env w file)); run_M.
    + rewrite ?Hu. eexists. eexists. split; [reflexivity | eauto].
    + fold (key_of env w file).
      destruct (getUrl (settings w) u (key_of env w file)); run_M;
        rewrite ?Hu; eexists; eexists; (split; [reflexivity | eauto]).
  - rewrite ?Hu, app_nil_r. eexists. eexists. split; [reflexivity | eauto].
Qed.

(** No failure of an upload leaves [handleImageUpload] as an exception:
    it returns normally and shows exactly one notice, the success or the
    failure; without uploader no request is sent. *)
Theorem handleImageUpload_never_throws (env : Env) (file : File) (w : World) :
  let r := handleImageUpload env file w in
  fst r = Ok tt /\
  (exists msg, notices (snd r) = notices w ++ [msg] /\
               (msg = lit "Image uploaded successfully" \/
                exists err, msg = lit "Upload failed: " ++ error_text err)) /\
  settings (snd r) = settings w /\
  uploader (snd r) = uploader w /\
  (uploader w = None -> requests (snd r) = requests w).
Proof.
  destruct (handleImageUpload_settles env file w) as (e & msg & E & Hmsg).
  cbv zeta. rewrite E. cbn [fst snd notices settings uploader requests].
  repeat split; eauto. intros ->. apply app_nil_r.
Qed.

Variable env_at : nat -> Env.

Lemma upload_images_runs (u : OssUploader) (images : list DataTransferItem) :
  forall (i : nat) (w : World),
    uploader w = Some u ->
    exists e ns,
      upload_images env_at i images w =
      (Ok tt,
       {| settings := settings w; uploader := uploader w; editor := e;
          notices := notices w ++ ns;
          console_errors := console_errors w;
          requests := requests w ++ put_requests env_at (settings w) i images;
          clients := clients w |}) /\
      length ns = length (files_of images).
Proof.
  induction images as [| item images IH]; intros i w Hu.
  - exists (editor w), []. cbn [upload_images put_requests files_of flat_map length].
    rewrite !app_nil_r. destruct w; split; reflexivity.
  - cbn [upload_images put_requests files_of flat_map]. fold (files_of images).
    destruct (item_getAsFile item) as [file |].
    + destruct (handleImageUpload_settles (env_at i) file w) as (e1 & msg & E & _).
      unfold bind at 1. rewrite E. rewrite Hu.
      match goal with |- context [upload_images env_at (S i) images ?w1] =>
        destruct (IH (S i) w1 eq_refl) as (e & ns & E2 & Hlen); rewrite E2 end.
      cbn [settings uploader editor notices console_errors requests clients].
      exists e, (msg :: ns). split.
      * unfold key_of. rewrite <- !app_assoc. reflexivity.
      * cbn [length app]. now rewrite Hlen.
    + unfold bind at 1, ret at 1.
      destruct (IH (S i) w Hu) as (e & ns & E2 & Hlen). rewrite E2.
      exists e, ns. split; [reflexivity | exact Hlen].
Qed.

(** Without uploader, without a file in the view or without an image
    item in the clipboard, the paste handler does nothing: the default
    paste is not prevented, no request leaves, and the document, the
    notices and everything else are as they were. *)
Theorem onEditorPaste_leaves_other_pastes_alone
    (evt : ClipboardEvent) (view_file : bool) (w : World) :
  uploader w = None \/ view_file = false \/ images_of evt = [] ->
  onEditorPaste env_at evt view_file w = (Ok false, w).
Proof.
  intros H. unfold onEditorPaste. run_M. fold (images_of evt).
  destruct (uploader w); [| reflexivity].
  destruct view_file; [| reflexivity]. cbn [negb].
  destruct H as [H | [H | H]]; try discriminate. now rewrite H.
Qed.

(** With an uploader, a file in the view and at least one image item,
    the paste handler prevents the default paste and uploads the file of
    every image item, in the order of the items: one put request and one
    notice for each file, none for an item that is no image or gives no
    file.  It returns normally whatever the outcomes. *)
Theorem onEditorPaste_uploads_each_image
    (u : OssUploader) (evt : ClipboardEvent) (w : World) :
  uploader w = Some u ->
  images_of evt <> [] ->
  let r := onEditorPaste env_at evt true w in
  fst r = Ok true /\
  requests (snd r) = requests w ++ put_requests env_at (settings w) 0 (images_of evt) /\
  length (notices (snd r)) = length (notices w) + length (files_of (images_of evt)) /\
  settings (snd r) = settings w /\ uploader (snd r) = uploader w.
Proof.
  intros Hu Himages. cbv zeta. unfold onEditorPaste. run_M. fold (images_of evt).
  rewrite Hu. cbn [negb].
  destruct (images_of evt) as [| item images] eqn:Ei; [congruence |].
  destruct (upload_images_runs u (item :: images) 0 w Hu) as (e & ns & E & Hlen).
  unfold bind. rewrite E. unfold ret. cbn [fst snd requests notices settings uploader].
  repeat split; [now rewrite length_app, Hlen | exact Hu].
Qed.

End Paste.

(** A paste of text is left to the editor. *)
Lemma onEditorPaste_leaves_other_pastes_alone_witness :
  @onEditorPaste example_platform ticking text_paste true (example_world (lit "note"))
  = (Ok false, example_world (lit "note")).
Proof.
  apply (@onEditorPaste_leaves_other_pastes_alone example_platform ticking text_paste true
           (example_world (lit "note"))).
  right. right. reflexivity.
Defined.

(** A paste of a text, a PNG, a PDF, an image whose file is gone and a
    JPEG: the default paste is prevented, the PNG and the JPEG are
    uploaded, in this order, and two notices are shown. *)
Lemma onEditorPaste_uploads_each_image_witness :
  let r := @onEditorPaste example_platform ticking mixed_paste true (example_world []) in
  fst r = Ok true /\
  requests (snd r)
  = [PutObject (lit "1700000000000.png") png_file (lit "image/png");
     PutObject (lit "1700000000002.jpeg") jpeg_file (lit "image/jpeg")] /\
  length (notices (snd r)) = 2.
Proof.
  destruct (@onEditorPaste_uploads_each_image example_platform ticking example_uploader
              mixed_paste (example_world []) eq_refl ltac:(discriminate))
    as (H1 & H2 & H3 & _).
  cbv zeta. split; [exact H1 |]. split; [rewrite H2 | rewrite H3]; reflexivity.
Defined.

(* ===================================================================== *)
(** ** The shape of an image reference                                    *)
(* ===================================================================== *)

(** [.*?] takes the shortest run of characters, none of them a line
    terminator, after which the rest of the pattern matches. *)
Lemma rmatch_lazy (ic : bool) (R : Type) (k : jsstring -> list jsstring -> option R)
    (caps : list jsstring) :
  forall (s : jsstring) (x : R),
    rmatch ic LazyAny s caps k = Some x ->
    exists a t,
      s = a ++ t /\
      forallb (fun c => negb (is_line_terminator c)) a = true /\
      k t caps = Some x /\
      (forall a1 c a2, a = a1 ++ c :: a2 -> k (c :: a2 ++ t) caps = None).
Proof.
  induction s as [| y s IH]; intros x H; cbn [rmatch] in H.
  - destruct (k [] caps) eqn:E; [| discriminate].
    exists [], []. repeat split; [congruence |].
    intros a1 c a2 Ha. destruct a1; discriminate.
  - destruct (k (y :: s) caps) eqn:E.
    + exists [], (y :: s). repeat split; [congruence |].
      intros a1 c a2 Ha. destruct a1; discriminate.
    + destruct (is_line_terminator y) eqn:Hy; [discriminate |].
      destruct (IH x H) as (a & t & Hs & Ha & Hk & Hmin).
      exists (y :: a), t. repeat split.
      * now rewrite Hs.
      * cbn [forallb]. now rewrite Hy, Ha.
      * exact Hk.
      * intros a1 c a2 E1. destruct a1 as [| z a1].
        -- cbn [app] in E1. injection E1 as <- <-. now rewrite <- Hs.
        -- cbn [app] in E1. injection E1 as _ E1. now apply (Hmin a1).
Qed.

(** The two characters a literal of the patterns starts with. *)
Lemma rmatch_two_chars (R : Type) (c1 c2 : code_unit) (s : jsstring) (caps : list jsstring)
    (k : jsstring -> list jsstring -> option R) (x : R) :
  rmatch false (Seq (Chr c1) (Seq (Chr c2) Eps)) s caps k = Some x ->
  exists t, s = c1 :: c2 :: t /\ k t caps = Some x.
Proof.
  cbn [rmatch canonicalize andb]. intros H.
  destruct s as [| y1 [| y2 t]]; try discriminate.
  - destruct (N.eqb_spec y1 c1); discriminate.
  - destruct (N.eqb_spec y1 c1); [| discriminate].
    destruct (N.eqb_spec y2 c2); [| discriminate].
    subst. eauto.
Qed.

(** A match of the image pattern is [![], a text, [](], an address and
    [)]: the address is the capture, and it ends at the first closing
    parenthesis after [](]. *)
Lemma image_match_here (s : jsstring) (n : nat) (caps : list jsstring) :
  match_here IMAGE_MARKDOWN_REGEX s = Some (n, caps) ->
  exists alt url rest,
    s = lit "![" ++ alt ++ lit "](" ++ url ++ lit ")" ++ rest /\
    firstn n s = lit "![" ++ alt ++ lit "](" ++ url ++ lit ")" /\
    caps = [url] /\
    address_text url = true.
Proof.
  unfold match_here, IMAGE_MARKDOWN_REGEX. cbn [pattern ignoreCase].
  change (Lit "![") with (Seq (Chr 33%N) (Seq (Chr 91%N) Eps)).
  change (Lit "](") with (Seq (Chr 93%N) (Seq (Chr 40%N) Eps)).
  change (Lit ")") with (Seq (Chr 41%N) Eps).
  set (k0 := fun (s' : jsstring) (caps : list jsstring) => Some (length s - length s', caps)).
  set (r3 := Seq (Seq (Chr 93%N) (Seq (Chr 40%N) Eps))
               (Seq (Group LazyAny) (Seq (Chr 41%N) Eps))).
  intros H.
  apply (rmatch_two_chars _ 33%N 91%N s []
           (fun s' c' => rmatch false (Seq LazyAny r3) s' c' k0)) in H as (s1 & Hs & H).
  apply (rmatch_lazy false _ (fun s' c' => rmatch false r3 s' c' k0) [])
    in H as (alt & t & Hs1 & _ & H & _).
  apply (rmatch_two_chars _ 93%N 40%N t []
           (fun s' c' => rmatch false (Seq (Group LazyAny) (Seq (Chr 41%N) Eps)) s' c' k0))
    in H as (s2 & Ht & H).
  apply (rmatch_lazy false _
           (fun s' c' => rmatch false (Seq (Chr 41%N) Eps) s'
                           (c' ++ [firstn (length s2 - length s') s2]) k0) [])
    in H as (url & t2 & Hs2 & Hurl & H & Hmin).
  cbn [rmatch canonicalize andb] in H. subst k0. cbv beta in H.
  destruct t2 as [| y rest]; [discriminate |].
  destruct (N.eqb_spec y 41%N) as [-> |]; [| discriminate].
  injection H as Hn Hcaps.
  assert (Hcap : caps = [url]).
  { rewrite <- Hcaps. f_equal. rewrite Hs2, length_app. cbn [length].
    rewrite Nat.add_sub. apply firstn_length_app. }
  clear Hcaps.
  exists alt, url, rest.
  assert (E : s = (lit "![" ++ alt ++ lit "](" ++ url ++ lit ")") ++ rest).
  { subst s s1 t s2. rewrite <- !app_assoc. reflexivity. }
  repeat split.
  - rewrite E. now rewrite <- !app_assoc.
  - rewrite <- Hn, E, length_app, Nat.add_sub. apply firstn_length_app.
  - exact Hcap.
  - unfold address_text. apply forallb_forall. intros c Hc.
    apply in_split in Hc as (a1 & a2 & Ha).
    specialize (Hmin a1 c a2 Ha). cbn [rmatch canonicalize andb] in Hmin. cbv beta in Hmin.
    rewrite forallb_forall in Hurl. rewrite Hurl by (rewrite Ha; apply in_elt).
    destruct (N.eqb_spec c 41%N); [discriminate | reflexivity].
Qed.

(** Where [exec] finds its match, the pattern matches. *)
Lemma exec_match_here (re : RegExp) (s : jsstring) (m : MatchResult) :
  exec re s = Some m ->
  exists n, match_here re (skipn (index m) s) = Some (n, groups m) /\
            matched m = firstn n (skipn (index m) s).
Proof.
  revert m. induction s as [| c s IH]; intros m H; cbn [exec] in H.
  - destruct (match_here re []) as [[n caps] |] eqn:Em; [| discriminate].
    injection H as <-. exists n. cbn [index groups matched skipn]. now rewrite Em.
  - destruct (match_here re (c :: s)) as [[n caps] |] eqn:Em.
    + injection H as <-. exists n. cbn [index groups matched skipn]. now rewrite Em.
    + destruct (exec re s) as [m' |]; [| discriminate].
      injection H as <-. destruct (IH m' eq_refl) as (n & Hn & Hm).
      exists n. cbn [shift index groups matched skipn]. now split.
Qed.

(** So it is with every match of [matchAll]. *)
Lemma matchAll_from_match_here (re : RegExp) (s : jsstring) :
  forall (skip pos : nat) (m : MatchResult),
    In m (matchAll_from re s skip pos) ->
    pos <= index m /\
    exists n, match_here re (skipn (index m - pos) s) = Some (n, groups m) /\
              matched m = firstn n (skipn (index m - pos) s).
Proof.
  induction s as [| c s IH]; intros skip pos m Hin.
  - destruct skip; cbn [matchAll_from] in Hin; [| contradiction].
    destruct (match_here re []) as [[n caps] |] eqn:Em; [| contradiction].
    destruct Hin as [<- | []]. cbn [index groups matched]. rewrite Nat.sub_diag.
    split; [lia |]. exists n. cbn [skipn]. now rewrite Em.
  - assert (Hlater : forall skip', In m (matchAll_from re s skip' (S pos)) ->
              pos <= index m /\
              exists n, match_here re (skipn (index m - pos) (c :: s)) = Some (n, groups m) /\
                        matched m = firstn n (skipn (index m - pos) (c :: s))).
    { intros skip' H. destruct (IH skip' (S pos) m H) as (Hle & n & Hn & Hm).
      split; [lia |]. exists n.
      replace (index m - pos) with (S (index m - S pos)) by lia. now split. }
    destruct skip as [| skip']; cbn [matchAll_from] in Hin; [| now apply (Hlater skip')].
    destruct (match_here re (c :: s)) as [[n caps] |] eqn:Em.
    + destruct Hin as [<- | Hin]; [| now apply (Hlater (n - 1))].
      cbn [index groups matched]. rewrite Nat.sub_diag. split; [lia |].
      exists n. cbn [skipn]. now rewrite Em.
    + now apply (Hlater 0).
Qed.

(** Capturing groups play no part in what a pattern matches. *)
Lemma rmatch_no_groups (ic : bool) (R A : Type) (f : R -> A) (r : regex) :
  forall (s : jsstring) (caps1 caps2 : list jsstring)
         (k1 k2 : jsstring -> list jsstring -> option R),
    (forall s' c1 c2, option_map f (k1 s' c1) = option_map f (k2 s' c2)) ->
    option_map f (rmatch ic r s caps1 k1)
    = option_map f (rmatch ic (no_groups r) s caps2 k2).
Proof.
  induction r as [| c | | r1 IH1 r2 IH2 | r1 IH1 r2 IH2 | r1 IH1 | | r1 IH1];
    intros s caps1 caps2 k1 k2 Hk; cbn [rmatch no_groups].
  - apply Hk.
  - destruct s as [| y s]; [reflexivity |].
    destruct (canonicalize ic y =? canonicalize ic c)%N; [apply Hk | reflexivity].
  - destruct s as [| y s]; [reflexivity |].
    destruct (is_line_terminator y); [reflexivity | apply Hk].
  - apply IH1. intros s' c1 c2. now apply IH2.
  - pose proof (IH1 s caps1 caps2 k1 k2 Hk) as H1.
    destruct (rmatch ic r1 s caps1 k1), (rmatch ic (no_groups r1) s caps2 k2);
      try discriminate; [exact H1 | now apply IH2].
  - pose proof (IH1 s caps1 caps2 k1 k2 Hk) as H1.
    destruct (rmatch ic r1 s caps1 k1), (rmatch ic (no_groups r1) s caps2 k2);
      try discriminate; [exact H1 | apply Hk].
  - induction s as [| y s IHs].
    + pose proof (Hk [] caps1 caps2) as H0.
      destruct (k1 [] caps1), (k2 [] caps2); try discriminate; [exact H0 | reflexivity].
    + pose proof (Hk (y :: s) caps1 caps2) as H0.
      destruct (k1 (y :: s) caps1), (k2 (y :: s) caps2); try discriminate; [exact H0 |].
      destruct (is_line_terminator y); [reflexivity | exact IHs].
  - apply IH1. intros s' c1 c2. apply Hk.
Qed.

Lemma match_here_no_groups (re1 re2 : RegExp) (s : jsstring) :
  pattern re2 = no_groups (pattern re1) -> ignoreCase re2 = ignoreCase re1 ->
  option_map fst (match_here re1 s) = option_map fst (match_here re2 s).
Proof.
  intros Hp Hi. unfold match_here. rewrite Hp, Hi.
  apply rmatch_no_groups. reflexivity.
Qed.

Lemma exec_no_groups (re1 re2 : RegExp) (s : jsstring) :
  pattern re2 = no_groups (pattern re1) -> ignoreCase re2 = ignoreCase re1 ->
  option_map (fun m => (index m, matched m)) (exec re1 s)
  = option_map (fun m => (index m, matched m)) (exec re2 s).
Proof.
  intros Hp Hi. induction s as [| c s IH]; cbn [exec].
  - pose proof (match_here_no_groups re1 re2 [] Hp Hi) as H.
    destruct (match_here re1 []) as [[n1 c1] |], (match_here re2 []) as [[n2 c2] |];
      try discriminate; [| reflexivity].
    cbn in H. injection H as ->. reflexivity.
  - pose proof (match_here_no_groups re1 re2 (c :: s) Hp Hi) as H.
    destruct (match_here re1 (c :: s)) as [[n1 c1] |],
             (match_here re2 (c :: s)) as [[n2 c2] |]; try discriminate.
    + cbn in H. injection H as ->. reflexivity.
    + destruct (exec re1 s) as [m1 |], (exec re2 s) as [m2 |]; try discriminate;
        [| reflexivity].
      cbn [option_map shift index matched] in *. injection IH as -> ->. reflexivity.
Qed.

(** The pattern [deleteImage] cuts out of its line takes the span the
    pattern of the menu matched there. *)
Lemma replace_first_no_groups (re1 re2 : RegExp) (s : jsstring) :
  pattern re2 = no_groups (pattern re1) -> ignoreCase re2 = ignoreCase re1 ->
  replace_first_empty re2 s = replace_first_empty re1 s.
Proof.
  intros Hp Hi. pose proof (exec_no_groups re1 re2 s Hp Hi) as H.
  unfold replace_first_empty.
  destruct (exec re1 s) as [m1 |], (exec re2 s) as [m2 |]; try discriminate; [| reflexivity].
  cbn [option_map] in H. injection H as -> ->. reflexivity.
Qed.

(** The references [deleteAllImages] finds.  Each match reads [![],
    a text, [](], an address, [)]; the address, from which the key is
    parsed, is the capture: the text between [](] and the first closing
    parenthesis after it, on one line. *)
Theorem deleteAllImages_reference_shape (content : jsstring) (m : MatchResult) :
  In m (matchAll IMAGE_MARKDOWN_REGEX content) ->
  exists alt,
    matched m = lit "![" ++ alt ++ lit "](" ++ url_of m ++ lit ")" /\
    groups m = [url_of m] /\
    address_text (url_of m) = true.
Proof.
  intros Hin. apply matchAll_from_match_here in Hin as (_ & n & Hn & Hm).
  apply image_match_here in Hn as (alt & url & rest & _ & Hfirst & Hcaps & Hurl).
  unfold url_of. rewrite Hcaps. cbn [nth]. exists alt. rewrite Hm, Hfirst. now repeat split.
Qed.

(** An address with parentheses is cut at the first closing one. *)
Lemma deleteAllImages_reference_shape_witness :
  matchAll IMAGE_MARKDOWN_REGEX parenthesis_reference = [cut_at_parenthesis] /\
  exists alt,
    matched cut_at_parenthesis
    = lit "![" ++ alt ++ lit "](" ++ lit "https://b.r.aliyuncs.com/cat(1" ++ lit ")" /\
    groups cut_at_parenthesis = [lit "https://b.r.aliyuncs.com/cat(1"] /\
    address_text (lit "https://b.r.aliyuncs.com/cat(1") = true.
Proof.
  split; [vm_compute; reflexivity |].
  apply (deleteAllImages_reference_shape parenthesis_reference cut_at_parenthesis).
  vm_compute. left. reflexivity.
Defined.

(* ===================================================================== *)
(** ** The context menu                                                   *)
(* ===================================================================== *)

Section Menu.
Context {P : Platform}.
Variable env : Env.

(** What the menu handler adds when the plugin holds an uploader. *)
Lemma onEditorMenu_adds (menu : list MenuItem) (w : World) (u : OssUploader) (text : jsstring) :
  uploader w = Some u ->
  getLine (editor w) (line (cursor (editor w))) = Some text ->
  onEditorMenu menu w =
  (Ok ((match exec imageRegex text with
        | Some m =>
            if truthy (url_of m)
            then menu ++ [delete_this_item (url_of m) (line (cursor (editor w)))]
            else menu
        | None => menu
        end) ++ [delete_all_item]), w).
Proof.
  intros Hu Hline. unfold onEditorMenu. run_M. rewrite Hu. run_M. rewrite Hline. reflexivity.
Qed.

(** A successful delete of one image. *)
Lemma deleteImage_deletes (w : World) (u : OssUploader) (url : jsstring) (lineNumber : nat)
    (text : jsstring) :
  uploader w = Some u ->
  parseKeyFromUrl url <> [] ->
  delete_outcome env 0 (parseKeyFromUrl url) = None ->
  getLine (during_wait env (editor w)) lineNumber = Some text ->
  deleteImage env url lineNumber w =
  (Ok tt,
   {| settings := settings w; uploader := uploader w;
      editor := setLine (during_wait env (editor w)) lineNumber
                  (replace_first_empty IMAGE_LINE_REGEX text);
      notices := notices w ++ [lit "Image deleted successfully"];
      console_errors := console_errors w;
      requests := requests w ++ [DeleteObject (parseKeyFromUrl url)];
      clients := clients w |}).
Proof.
  intros Hu Hkey Hok Hline. apply truthy_nonempty in Hkey.
  unfold deleteImage. run_M. rewrite Hkey. run_M. rewrite Hu. run_M. rewrite Hok. run_M.
  rewrite Hline. run_M. rewrite ?Hu. reflexivity.
Qed.

(** From the menu to the deletion.  The plugin holds an uploader and
    the line of the cursor has an image reference with an address.  The
    menu then offers [Delete this image] for the leftmost reference of
    the line, wherever in the line the cursor is, and [Delete all
    images].  A click on the first, with a delete request that succeeds
    and a document nobody touches meanwhile, deletes the key parsed from
    the address of that reference and takes that reference, and nothing
    else, out of the document. *)
Theorem menu_deletes_the_offered_reference
    (w : World) (u : OssUploader) (text : jsstring) (m : MatchResult) :
  uploader w = Some u ->
  getLine (editor w) (line (cursor (editor w))) = Some text ->
  exec imageRegex text = Some m ->
  url_of m <> [] ->
  let this := delete_this_item (url_of m) (line (cursor (editor w))) in
  onEditorMenu [] w = (Ok [this; delete_all_item], w) /\
  (parseKeyFromUrl (url_of m) <> [] ->
   delete_outcome env 0 (parseKeyFromUrl (url_of m)) = None ->
   during_wait env (editor w) = editor w ->
   let w' := snd (click env (onClick this) w) in
   requests w' = requests w ++ [DeleteObject (parseKeyFromUrl (url_of m))] /\
   notices w' = notices w ++ [lit "Image deleted successfully"] /\
   exists before after left right alt,
     value (editor w) = before ++ text ++ after /\
     text = left ++ (lit "![" ++ alt ++ lit "](" ++ url_of m ++ lit ")") ++ right /\
     length left = index m /\
     value (editor w') = before ++ (left ++ right) ++ after).
Proof.
  intros Hu Hline Hexec Hurl this. split.
  - rewrite (onEditorMenu_adds [] w u text Hu Hline), Hexec.
    apply truthy_nonempty in Hurl. now rewrite Hurl.
  - intros Hkey Hok Hquiet w'. subst w' this. cbn [onClick delete_this_item click].
    assert (Hline' : getLine (during_wait env (editor w)) (line (cursor (editor w)))
                     = Some text) by now rewrite Hquiet.
    rewrite (deleteImage_deletes w u _ _ text Hu Hkey Hok Hline').
    cbn [snd requests notices editor]. repeat split.
    rewrite Hquiet.
    rewrite (replace_first_no_groups imageRegex IMAGE_LINE_REGEX text eq_refl eq_refl).
    destruct (setLine_in_place (editor w) (line (cursor (editor w))) text
                (replace_first_empty imageRegex text) Hline)
      as (before & after & Hv & Hv').
    destruct (replace_first_keeps_rest imageRegex text m Hexec)
      as (left & right & Htext & Hleft & Hcut).
    destruct (exec_match_here imageRegex text m Hexec) as (n & Hn & Hm).
    apply image_match_here in Hn as (alt & url & rest & _ & Hfirst & Hcaps & _).
    exists before, after, left, right, alt. repeat split; try assumption.
    + rewrite Htext at 1. unfold url_of. rewrite Hcaps. cbn [nth].
      now rewrite Hm, Hfirst.
    + now rewrite Hv', Hcut.
Qed.

End Menu.

(** The cursor is inside the second reference of its line: the menu
    offers the first one, and the click deletes [a.png]. *)
Lemma menu_deletes_the_offered_reference_witness :
  onEditorMenu [] menu_world
  = (Ok [delete_this_item (lit "https://b.r.aliyuncs.com/a.png") 1; delete_all_item],
     menu_world) /\
  requests (snd (@click example_platform quiet_env
                   (DeleteThisImage (lit "https://b.r.aliyuncs.com/a.png") 1) menu_world))
  = [DeleteObject (lit "a.png")].
Proof.
  destruct (@menu_deletes_the_offered_reference example_platform quiet_env menu_world
              example_uploader two_on_a_line first_on_the_line
              eq_refl ltac:(vm_compute; reflexivity) ltac:(vm_compute; reflexivity)
              ltac:(discriminate))
    as [H1 H2].
  split; [exact H1 |].
  destruct (H2 ltac:(vm_compute; discriminate) eq_refl eq_refl) as (Hreq & _).
  exact Hreq.
Defined.

(* ===================================================================== *)
(** ** Loading, and the settings tab                                      *)
(* ===================================================================== *)

Section Settings.
Context {P : Platform}.

(** With the required fields filled in, [initUploader] asks the SDK for
    a client made from them: it holds the uploader of that client, or
    no uploader when the SDK refuses. *)
Lemma initUploader_complete (w : World) :
  complete (settings w) = true ->
  initUploader w =
  (Ok tt,
   {| settings := settings w;
      uploader := uploader_for (settings w);
      editor := editor w; notices := notices w; console_errors := console_errors w;
      requests := requests w;
      clients := clients w ++ match uploader_for (settings w) with
                              | Some u => [client u]
                              | None => []
                              end |}).
Proof.
  unfold complete, initUploader, new_OssUploader, validateSettings, uploader_for.
  intros H. run_M. rewrite H. run_M.
  apply andb_prop in H as [H Hr]. apply andb_prop in H as [H Hb].
  apply andb_prop in H as [Hi Hs]. rewrite Hi, Hs, Hb, Hr. cbn [negb orb].
  fold (options_of (settings w)).
  destruct (OSS_constructor (options_of (settings w))); cbn [client].
  - now rewrite app_nil_r.
  - reflexivity.
Qed.

Lemma initUploader_not_complete (w : World) :
  complete (settings w) = false -> initUploader w = (Ok tt, w).
Proof.
  unfold complete, initUploader. intros H. run_M. now rewrite H.
Qed.

(** At load.  The plugin starts without uploader; after [onload] its
    settings are the stored fields over the defaults, and it holds an
    uploader, made from these settings, exactly when the four required
    fields are filled in and the SDK's constructor accepts them.  One
    client is created in that case and none otherwise; a refusal of the
    SDK goes no further than [initUploader]. *)
Theorem onload_makes_uploader_when_configured (data : option StoredData) (w : World) :
  uploader w = None ->
  let s := Object_assign DEFAULT_SETTINGS data in
  let made := if complete s then uploader_for s else None in
  onload data w =
  (Ok tt,
   {| settings := s;
      uploader := made;
      editor := editor w; notices := notices w; console_errors := console_errors w;
      requests := requests w;
      clients := clients w ++ match made with Some u => [client u] | None => [] end |}).
Proof.
  intros Hu s made. subst made. unfold onload, loadSettings. run_M. fold s.
  destruct (complete s) eqn:Hc.
  - rewrite initUploader_complete by exact Hc. reflexivity.
  - rewrite initUploader_not_complete by exact Hc.
    unfold set_settings. rewrite Hu, app_nil_r. reflexivity.
Qed.

Lemma complete_assign_prefix (v : jsstring) (s : OssPicbedSettings) :
  complete (assign K_prefix v s) = complete s /\
  options_of (assign K_prefix v s) = options_of s.
Proof. split; reflexivity. Qed.

(** One event of the settings tab keeps the uploader in step. *)
Lemma tab_handler_in_step (ev : tab_event) (w : World) :
  in_step w ->
  exists w', tab_handler ev w = (Ok tt, w') /\ in_step w'.
Proof.
  intros Hw. destruct ev as [key value | value].
  - unfold tab_handler, onChange_text, saveSettings. run_M.
    set (v := if is_prefix_key key then strip_slashes (trim value) else trim value).
    destruct key; cbn [reinit_of display find key_eqb fst snd is_prefix_key] in *.
    5:{ eexists. split; [reflexivity |]. exact Hw. }
    all: match goal with |- context [initUploader ?w1] =>
           destruct (complete (settings w1)) eqn:Hc;
           [ rewrite (initUploader_complete w1 Hc)
           | rewrite (initUploader_not_complete w1 Hc) ];
           eexists; (split; [reflexivity |]); unfold in_step;
           cbn [settings uploader set_settings] in *; intros Hc';
           [reflexivity | congruence]
         end.
  - unfold tab_handler, onChange_toggle, saveSettings. run_M.
    eexists. split; [reflexivity |]. exact Hw.
Qed.

(** Through the settings tab.  As long as the saves succeed, no
    sequence of changes in the tab takes the uploader out of step: when
    the required fields are filled in after the last change, the plugin
    holds the uploader of a client made from the fields as they are
    then, or no uploader when the SDK refuses them; never an uploader
    made from earlier values.  No handler of the tab throws. *)
Theorem settings_tab_keeps_uploader_in_step (evs : list tab_event) (w : World) :
  in_step w ->
  fst (tab_handlers evs w) = Ok tt /\ in_step (snd (tab_handlers evs w)).
Proof.
  revert w. induction evs as [| ev evs IH]; intros w Hw.
  - split; [reflexivity | exact Hw].
  - cbn [tab_handlers]. unfold bind.
    destruct (tab_handler_in_step ev w Hw) as (w' & E & Hw'). rewrite E.
    now apply IH.
Qed.

End Settings.

(** A data file of an earlier version with names the SDK accepts: the
    missing field takes its default, and the uploader is made.  With a
    bucket name the SDK refuses, the plugin holds no uploader and no
    client is left. *)
Lemma onload_makes_uploader_when_configured_witness :
  let w := snd (@onload example_platform (Some old_data) fresh_world) in
  let refused := snd (@onload example_platform (Some short_bucket_data) fresh_world) in
  (usePublicUrl (settings w) = true /\
   prefix (settings w) = lit "notes" /\
   uploader w = Some sdk_uploader /\
   clients w = [client sdk_uploader])
  /\
  (bucket (settings refused) = lit "b" /\
   uploader refused = None /\
   clients refused = []).
Proof.
  cbv zeta.
  rewrite (@onload_makes_uploader_when_configured example_platform (Some old_data)
             fresh_world eq_refl).
  rewrite (@onload_makes_uploader_when_configured example_platform (Some short_bucket_data)
             fresh_world eq_refl).
  vm_compute. repeat split.
Defined.

(** After the three changes the plugin holds an uploader for the bucket
    [my-photos]; after the first letter of a new bucket name, which the
    SDK refuses, it holds none. *)
Lemma settings_tab_keeps_uploader_in_step_witness :
  let r := @tab_handlers example_platform some_changes sdk_world in
  let typing := @tab_handlers example_platform one_letter sdk_world in
  (fst r = Ok tt /\
   prefix (settings (snd r)) = lit "x/y" /\
   uploader (snd r)
   = Some {| client := {| opt_accessKeyId := lit "id"; opt_accessKeySecret := lit "secret";
                          opt_bucket := lit "my-photos";
                          opt_region := lit "oss-cn-beijing";
                          opt_secure := true |} |})
  /\
  (fst typing = Ok tt /\
   bucket (settings (snd typing)) = lit "m" /\
   uploader (snd typing) = None).
Proof.
  destruct (@settings_tab_keeps_uploader_in_step example_platform some_changes
              sdk_world ltac:(intros _; reflexivity))
    as [H1 H2].
  destruct (@settings_tab_keeps_uploader_in_step example_platform one_letter
              sdk_world ltac:(intros _; reflexivity))
    as [H3 H4].
  cbv zeta. split.
  - split; [exact H1 |]. split; [vm_compute; reflexivity |].
    rewrite (H2 ltac:(vm_compute; reflexivity)). vm_compute. reflexivity.
  - split; [exact H3 |]. split; [vm_compute; reflexivity |].
    rewrite (H4 ltac:(vm_compute; reflexivity)). vm_compute. reflexivity.
Defined.

Section Unconfigured.
Context {P : Platform}.

(** A plugin that is not configured stays out of the way.  Loaded with
    a data file, or none, that leaves a required field empty, the
    plugin creates no client; it then lets every paste through
    untouched and adds nothing to the context menu. *)
Theorem unconfigured_plugin_is_inert (data : option StoredData) (w : World) :
  uploader w = None ->
  complete (Object_assign DEFAULT_SETTINGS data) = false ->
  let w1 := snd (onload data w) in
  clients w1 = clients w /\
  (forall env_at evt view_file, onEditorPaste env_at evt view_file w1 = (Ok false, w1)) /\
  (forall menu, onEditorMenu menu w1 = (Ok menu, w1)).
Proof.
  intros Hu Hc. cbv zeta.
  assert (E : onload data w = (Ok tt, set_settings (Object_assign DEFAULT_SETTINGS data) w)).
  { unfold onload, loadSettings. run_M.
    now rewrite initUploader_not_complete by exact Hc. }
  rewrite E. cbn [snd]. repeat split.
  - intros env_at evt view_file. unfold onEditorPaste. run_M. now rewrite Hu.
  - intros menu. unfold onEditorMenu. run_M. now rewrite Hu.
Qed.

End Unconfigured.

(** Without data file nothing is configured. *)
Lemma unconfigured_plugin_is_inert_witness :
  let w1 := snd (@onload example_platform None fresh_world) in
  clients w1 = [] /\
  @onEditorPaste example_platform ticking mixed_paste true w1 = (Ok false, w1) /\
  onEditorMenu [] w1 = (Ok [], w1).
Proof.
  destruct (@unconfigured_plugin_is_inert example_platform None fresh_world eq_refl eq_refl)
    as (H1 & H2 & H3).
  cbv zeta. split; [exact H1 |]. split; [apply H2 | apply H3].
Defined.

(* ===================================================================== *)
(** ** The prefix                                                         *)
(* ===================================================================== *)

Lemma dropWhile_id (f : code_unit -> bool) (s : jsstring) :
  (forall c t, s = c :: t -> f c = false) -> dropWhile f s = s.
Proof.
  intros H. destruct s as [| c t]; [reflexivity |].
  cbn [dropWhile]. now rewrite (H c t eq_refl).
Qed.

(** Stripping the slashes of a stripped string changes nothing. *)
Lemma strip_slashes_idempotent (s : jsstring) :
  strip_slashes (strip_slashes s) = strip_slashes s.
Proof.
  destruct (strip_slashes_ends s) as [Hhead Hlast].
  unfold strip_slashes at 1.
  rewrite (dropWhile_id is_slash (strip_slashes s)) by exact Hhead.
  rewrite dropWhile_id; [apply rev_involutive |].
  intros c t E. apply (Hlast (rev t) c).
  rewrite <- (rev_involutive (strip_slashes s)), E. reflexivity.
Qed.

Section Prefix.
Context {P : Platform}.

(** A prefix typed in the settings tab is stored without the white
    space around it and without leading and trailing slashes.  The
    change makes no new client and leaves the uploader the plugin
    holds; the next upload of that uploader stores its file under the
    stored prefix, a slash and the generated name, or under the
    generated name alone when the stored prefix is empty. *)
Theorem prefix_change_reaches_next_upload
    (value : jsstring) (w : World) (env : Env) (u : OssUploader) (file : File) :
  let p := strip_slashes (trim value) in
  let w' := snd (tab_handler (TextChanged K_prefix value) w) in
  fst (tab_handler (TextChanged K_prefix value) w) = Ok tt /\
  prefix (settings w') = p /\
  uploader w' = uploader w /\ clients w' = clients w /\
  requests (snd (upload env u file w'))
  = requests w ++ [PutObject ((if truthy p then p ++ lit "/" else [])
                               ++ generateFileName (upload_time env) file)
                     file (mime_of file)].
Proof.
  cbv zeta.
  assert (E : tab_handler (TextChanged K_prefix value) w
              = (Ok tt, set_settings (assign K_prefix (strip_slashes (trim value))
                                        (settings w)) w)).
  { unfold tab_handler, onChange_text, saveSettings. run_M. reflexivity. }
  rewrite E. cbn [fst snd]. repeat split.
  rewrite upload_requests. cbn [requests set_settings].
  unfold key_of, getPrefix. cbn [settings set_settings assign prefix].
  now rewrite strip_slashes_idempotent.
Qed.

End Prefix.

(* ===================================================================== *)
(** ** What the operations never do                                       *)
(* ===================================================================== *)

Section Never.
Context {P : Platform}.
Variable env : Env.

(** [deleteImage] turns every failure into a notice. *)
Lemma deleteImage_settles (url : jsstring) (lineNumber : nat) (w : World) :
  exists e msg rs,
    deleteImage env url lineNumber w =
    (Ok tt,
     {| settings := settings w; uploader := uploader w; editor := e;
        notices := notices w ++ [msg]; console_errors := console_errors w;
        requests := requests w ++ rs; clients := clients w |}) /\
    (rs = [] \/ (rs = [DeleteObject (parseKeyFromUrl url)] /\ parseKeyFromUrl url <> [])) /\
    ((msg = lit "Invalid image URL" /\ e = editor w /\ rs = []) \/
     (exists err, msg = lit "Delete failed: " ++ error_text err /\
                  (e = editor w \/ e = during_wait env (editor w))) \/
     (msg = lit "Image deleted successfully" /\
      rs = [DeleteObject (parseKeyFromUrl url)] /\
      delete_outcome env 0 (parseKeyFromUrl url) = None)).
Proof.
  unfold deleteImage. run_M.
  destruct (truthy (parseKeyFromUrl url)) eqn:Hkey; run_M.
  2:{ exists (editor w), (lit "Invalid image URL"), []. rewrite app_nil_r.
      repeat split; auto. }
  assert (Hne : parseKeyFromUrl url <> []) by now apply truthy_nonempty.
  destruct (uploader w) as [u |] eqn:Hu; run_M.
  2:{ rewrite ?Hu. eexists. eexists. exists []. rewrite app_nil_r.
      split; [reflexivity |]. split; [now left |]. right. left. eauto. }
  rewrite ?Hkey. run_M.
  destruct (delete_outcome env 0 (parseKeyFromUrl url)) as [err |] eqn:Hd; run_M.
  { rewrite ?Hu. eexists. eexists. eexists. split; [reflexivity |].
    split; [right; now split |]. right. left. eauto. }
  destruct (getLine (during_wait env (editor w)) lineNumber) as [text |] eqn:Hl; run_M.
  - rewrite ?Hu. eexists. eexists. eexists. split; [reflexivity |].
    split; [right; now split |]. right. right. auto.
  - rewrite ?Hu. eexists. eexists. eexists. split; [reflexivity |].
    split; [right; now split |]. right. left. eauto.
Qed.

(** No failure leaves [deleteImage] as an exception, be it a missing
    uploader, a failed request or a line number the document does not
    have: it returns normally with exactly one notice.  The document is
    rewritten only under the success notice, which is shown only after
    a delete request that succeeded; under [Invalid image URL] nothing
    was sent. *)
Theorem deleteImage_never_throws (url : jsstring) (lineNumber : nat) (w : World) :
  let r := deleteImage env url lineNumber w in
  fst r = Ok tt /\
  exists msg,
    notices (snd r) = notices w ++ [msg] /\
    ((msg = lit "Invalid image URL" /\
      editor (snd r) = editor w /\ requests (snd r) = requests w) \/
     (exists err, msg = lit "Delete failed: " ++ error_text err /\
                  (editor (snd r) = editor w \/
                   editor (snd r) = during_wait env (editor w))) \/
     (msg = lit "Image deleted successfully" /\
      requests (snd r) = requests w ++ [DeleteObject (parseKeyFromUrl url)] /\
      delete_outcome env 0 (parseKeyFromUrl url) = None)).
Proof.
  destruct (deleteImage_settles url lineNumber w) as (e & msg & rs & E & _ & Hmsg).
  cbv zeta. rewrite E. cbn [fst snd notices editor requests]. split; [reflexivity |].
  exists msg. split; [reflexivity |].
  destruct Hmsg as [(-> & -> & ->) | [(err & -> & He) | (-> & -> & Hd)]].
  - left. rewrite app_nil_r. auto.
  - right. left. eauto.
  - right. right. auto.
Qed.

Lemma send_deletes_requests (keys : list jsstring) :
  forallb truthy keys = true ->
  forall w, exists rs,
    requests (snd (send_deletes keys w)) = requests w ++ rs /\
    forallb names_a_key rs = true.
Proof.
  induction keys as [| key keys IH]; intros Hk w.
  - exists []. now rewrite app_nil_r.
  - cbn [forallb] in Hk. apply andb_prop in Hk as [Hkey Hkeys].
    cbn [send_deletes]. run_M.
    destruct (uploader w) eqn:Hu; run_M.
    + rewrite Hkey. run_M.
      match goal with |- context [send_deletes keys ?w1] =>
        destruct (IH Hkeys w1) as (rs & E & Hrs) end.
      exists (DeleteObject key :: rs). rewrite E. cbn [requests].
      rewrite <- app_assoc. split; [reflexivity |]. cbn [forallb names_a_key].
      now rewrite Hkey, Hrs.
    + exists []. now rewrite app_nil_r.
Qed.

Lemma settle_deletes_requests (keys : list jsstring) (i : nat) (w : World) :
  fst (settle_deletes env i keys w) = Ok tt /\
  requests (snd (settle_deletes env i keys w)) = requests w.
Proof. rewrite settle_deletes_all. split; reflexivity. Qed.

Lemma deleteAllImages_requests (w : World) :
  exists rs,
    requests (snd (deleteAllImages env w)) = requests w ++ rs /\
    forallb names_a_key rs = true.
Proof.
  unfold deleteAllImages. run_M.
  destruct (matchAll IMAGE_MARKDOWN_REGEX (value (editor w))) as [| m ms] eqn:Em.
  - run_M. exists []. now rewrite app_nil_r.
  - set (keys := keys_of (m :: ms)).
    destruct (send_deletes_requests keys (keys_of_truthy (m :: ms)) w) as (rs & E & Hrs).
    exists rs. split; [| exact Hrs]. rewrite <- E.
    destruct (send_deletes keys w) as [[[] | err] w1]; [| reflexivity].
    cbn [snd]. destruct keys; run_M; rewrite settle_deletes_all; reflexivity.
Qed.

(** No request without a key.  Whatever the document, the settings, the
    clipboard file or the address clicked on, and whether or not the
    plugin holds an uploader, the requests an upload, a delete of one
    image or a delete of all images sends each name a key that is not
    empty. *)
Theorem no_request_without_key (w : World) :
  (forall file,
     exists rs, requests (snd (handleImageUpload env file w)) = requests w ++ rs /\
                forallb names_a_key rs = true) /\
  (forall action,
     exists rs, requests (snd (click env action w)) = requests w ++ rs /\
                forallb names_a_key rs = true).
Proof.
  split.
  - intros file. destruct (handleImageUpload_settles env file w) as (e & msg & E & _).
    rewrite E. cbn [snd requests]. eexists. split; [reflexivity |].
    destruct (uploader w); [| reflexivity].
    cbn [forallb names_a_key]. rewrite andb_true_r.
    apply truthy_nonempty. apply key_of_relative.
  - intros [url lineNumber |]; cbn [click].
    + destruct (deleteImage_settles url lineNumber w) as (e & msg & rs & E & Hrs & _).
      rewrite E. cbn [snd requests]. exists rs. split; [reflexivity |].
      destruct Hrs as [-> | [-> Hkey]]; [reflexivity |].
      cbn [forallb names_a_key]. rewrite andb_true_r. now apply truthy_nonempty.
    + apply deleteAllImages_requests.
Qed.

(** After a failed upload that took its token out of the document, the
    cursor is at the end of the document, wherever it was. *)
Theorem failed_upload_moves_cursor_to_end
    (w : World) (u : OssUploader) (file : File) (err : JsError) :
  uploader w = Some u ->
  put_outcome env (key_of env w file) = Some err ->
  includes (token_of env) (value (editor_at_settlement env w)) = true ->
  let e := editor (snd (handleImageUpload env file w)) in
  toOffset (value e) (cursor e) = length (value e).
Proof.
  intros Hu Hput Hin. cbv zeta.
  rewrite (handleImageUpload_failure env w u file err Hu Hput). cbn [snd editor].
  unfold removeToken. rewrite Hin. cbn [negb setCursor value cursor setValue].
  now apply posToOffset_offsetToPos.
Qed.

(** A second cleanup pass finds nothing to do. *)
Theorem cleanupPastedImages_idempotent (e : Editor) :
  cleanupPastedImages (cleanupPastedImages e) = cleanupPastedImages e.
Proof.
  pose proof (cleanupPastedImages_complete e) as H.
  set (e' := cleanupPastedImages e) in *. unfold cleanupPastedImages.
  destruct (length (value e')); cbn [cleanup_loop]; [reflexivity |]. now rewrite H.
Qed.

End Never.

(** The document [ab], the cursor between the letters: after the failed
    upload the cursor is behind the [b]. *)
Lemma failed_upload_moves_cursor_to_end_witness :
  cursor (editor (snd (@handleImageUpload example_platform failing_env png_file world_ab)))
  = {| line := 0; ch := 2 |} /\
  toOffset (lit "ab") {| line := 0; ch := 2 |} = 2.
Proof.
  split; [vm_compute; reflexivity |].
  pose proof (@failed_upload_moves_cursor_to_end example_platform failing_env world_ab
                example_uploader png_file network_down eq_refl eq_refl
                ltac:(vm_compute; reflexivity)) as H.
  cbv zeta in H. vm_compute in H. exact H.
Defined.

(* ===================================================================== *)
(** ** Two uploads under way                                              *)
(* ===================================================================== *)

Lemma no_brace_cons (c : code_unit) (x : jsstring) :
  no_brace (c :: x) = true -> c <> OPEN_BRACE /\ c <> CLOSE_BRACE /\ no_brace x = true.
Proof.
  unfold no_brace. cbn [forallb]. intros H.
  apply andb_prop in H as [Hc Hx]. apply andb_prop in Hc as [Ho Hcl].
  apply negb_true_iff, N.eqb_neq in Ho, Hcl. auto.
Qed.

(** An opening brace found in a block after its first two characters
    lies behind the block. *)
Lemma block_skips (y : jsstring) :
  no_brace y = true ->
  forall d rest q,
    d ++ OPEN_BRACE :: rest = y ++ [CLOSE_BRACE; CLOSE_BRACE] ++ q ->
    exists r, d = y ++ [CLOSE_BRACE; CLOSE_BRACE] ++ r.
Proof.
  induction y as [| c y IH]; intros Hy d rest q E.
  - cbn [app] in E. destruct d as [| a [| b d]]; try discriminate.
    cbn [app] in E. injection E as -> -> _. now exists d.
  - apply no_brace_cons in Hy as (Ho & _ & Hy).
    destruct d as [| a d]; cbn [app] in E.
    + injection E as E _. congruence.
    + injection E as -> E. destruct (IH Hy d rest q E) as [r ->]. now exists r.
Qed.

(** A block that starts before another one in a text ends before it. *)
Lemma block_before (x y pre post p q : jsstring) :
  no_brace y = true ->
  pre ++ block x ++ post = p ++ block y ++ q ->
  length p < length pre ->
  exists r, pre = p ++ block y ++ r.
Proof.
  intros Hy E Hlt.
  apply app_eq_app in E as [d [[Hpre Hd] | [Hp Hd]]].
  2:{ rewrite Hp, length_app in Hlt. lia. }
  assert (Hne : d <> []).
  { intros ->. rewrite app_nil_r in Hpre. subst. lia. }
  subst pre. symmetry in Hd. unfold block in Hd. cbn [app] in Hd.
  rewrite <- !app_assoc in Hd. cbn [app] in Hd.
  destruct d as [| a d]; [congruence |]. cbn [app] in Hd. injection Hd as -> Hd.
  destruct d as [| b d]; cbn [app] in Hd.
  - (* the other block would start at the second brace *)
    exfalso. injection Hd as Hd. destruct y as [| c y]; cbn [app] in Hd.
    + discriminate.
    + apply no_brace_cons in Hy as (Ho & _). injection Hd as Hd _. congruence.
  - injection Hd as -> Hd.
    destruct (block_skips y Hy d _ _ Hd) as [r ->].
    exists r. unfold block. cbn [app]. now rewrite <- !app_assoc.
Qed.

(** Two blocks that start at the same place are the same. *)
Lemma block_same (x : jsstring) :
  forall y post q,
    no_brace x = true -> no_brace y = true ->
    x ++ [CLOSE_BRACE; CLOSE_BRACE] ++ post = y ++ [CLOSE_BRACE; CLOSE_BRACE] ++ q ->
    x = y.
Proof.
  induction x as [| c x IH]; intros y post q Hx Hy E.
  - destruct y as [| c y]; [reflexivity |].
    apply no_brace_cons in Hy as (_ & Hc & _). cbn [app] in E. injection E as E _. congruence.
  - apply no_brace_cons in Hx as (_ & Hc & Hx).
    destruct y as [| c' y]; cbn [app] in E.
    + injection E as E _. congruence.
    + apply no_brace_cons in Hy as (_ & _ & Hy). injection E as -> E.
      f_equal. exact (IH y post q Hx Hy E).
Qed.

(** So two different blocks never share a character of a text: where
    one of them occurs, the other lies before it or behind it. *)
Lemma block_apart (x y pre post p q : jsstring) :
  no_brace x = true -> no_brace y = true -> x <> y ->
  pre ++ block x ++ post = p ++ block y ++ q ->
  (exists r, pre = p ++ block y ++ r) \/ (exists r, post = r ++ block y ++ q).
Proof.
  intros Hx Hy Hxy E.
  destruct (Nat.lt_trichotomy (length p) (length pre)) as [Hlt | [Heq | Hgt]].
  - left. exact (block_before x y pre post p q Hy E Hlt).
  - exfalso. apply app_eq_app in E as [d [[Hpre Hd] | [Hp Hd]]].
    + assert (d = []) by (rewrite Hpre, length_app in Heq; destruct d; simpl in Heq; [reflexivity | lia]).
      subst d. cbn [app] in Hd. unfold block in Hd. cbn [app] in Hd.
      rewrite <- !app_assoc in Hd. injection Hd as Hd. symmetry in Hd.
      exact (Hxy (block_same x y post q Hx Hy Hd)).
    + assert (d = []) by (rewrite Hp, length_app in Heq; destruct d; simpl in Heq; [reflexivity | lia]).
      subst d. cbn [app] in Hd. unfold block in Hd. cbn [app] in Hd.
      rewrite <- !app_assoc in Hd. injection Hd as Hd.
      exact (Hxy (block_same x y post q Hx Hy Hd)).
  - right. destruct (block_before y x p q pre post Hx (eq_sym E) Hgt) as [r Hp].
    exists r. rewrite Hp, <- !app_assoc in E.
    apply app_inv_head in E. apply app_inv_head in E. exact E.
Qed.

Lemma Number_toString_no_braces (z : Z) : no_brace (Number_toString z) = true.
Proof.
  apply Number_toString_chars; [| reflexivity].
  intros c Hc. unfold is_digit in Hc. apply andb_prop in Hc as [H1 H2].
  apply N.leb_le in H1, H2. unfold OPEN_BRACE, CLOSE_BRACE.
  apply andb_true_intro. split; apply negb_true_iff, N.eqb_neq; lia.
Qed.

(** A token is a block. *)
Lemma generateUploadToken_block (now : Z) (random : jsstring) :
  no_brace random = true ->
  generateUploadToken now random
  = block (lit "OSS_UPLOADING:" ++ Number_toString now ++ lit "-" ++ random) /\
  no_brace (lit "OSS_UPLOADING:" ++ Number_toString now ++ lit "-" ++ random) = true.
Proof.
  intros Hr. split.
  - unfold generateUploadToken, block. rewrite <- !app_assoc. reflexivity.
  - pose proof (Number_toString_no_braces now) as Hn.
    unfold no_brace, jsstring, code_unit in *. rewrite !forallb_app, Hn, Hr. reflexivity.
Qed.

Section TwoUploads.
Context {P : Platform}.

Lemma includes_inv (p s : jsstring) :
  includes p s = true -> exists pre post, s = pre ++ p ++ post.
Proof.
  unfold includes. destruct (indexOf p s) as [i |] eqn:E; [| discriminate].
  intros _. apply indexOf_Some in E as (post & Hs & _). eauto.
Qed.

(** A text that holds a token still holds it when the first occurrence
    of a different token is replaced by any text. *)
Lemma other_token_stays (A B s M : jsstring) (x y : jsstring) (i : nat) :
  A = block x -> B = block y -> no_brace x = true -> no_brace y = true -> A <> B ->
  indexOf A s = Some i ->
  includes B s = true ->
  includes B (firstn i s ++ M ++ skipn (i + length A) s) = true.
Proof.
  intros HA HB Hx Hy Hne Hi Hin.
  apply indexOf_Some in Hi as (post & Hs & Hlen).
  set (pre := firstn i s) in *.
  assert (Hskip : skipn (i + length A) s = post).
  { rewrite Hs, <- Hlen. apply skipn_two_app. }
  rewrite Hskip. apply includes_inv in Hin as (p & q & Hpq).
  rewrite Hpq in Hs at 1. symmetry in Hs. rewrite HA, HB in Hs.
  destruct (block_apart x y pre post p q Hx Hy) as [[r Hr] | [r Hr]]; try assumption.
  - intros ->. congruence.
  - rewrite Hr, HB, <- !app_assoc. apply includes_app.
  - rewrite Hr, HB.
    replace (pre ++ M ++ r ++ block y ++ q) with ((pre ++ M ++ r) ++ block y ++ q)
      by now rewrite <- !app_assoc.
    apply includes_app.
Qed.

(** Two uploads under way do not take each other's token.  When an
    upload settles, its token replaced by the reference or removed, the
    token of another upload (another time stamp or other random digits)
    that is in the document is still in it afterwards. *)
Theorem settling_keeps_other_tokens
    (e : Editor) (url : jsstring) (now other_now : Z) (random other_random : jsstring) :
  let token := generateUploadToken now random in
  let other := generateUploadToken other_now other_random in
  no_brace random = true -> no_brace other_random = true ->
  token <> other ->
  includes other (value e) = true ->
  includes other (value (replaceTokenWithImage e token url)) = true /\
  includes other (value (removeToken e token)) = true.
Proof.
  intros token other Hr Hr' Hne Hin.
  destruct (generateUploadToken_block now random Hr) as [HA Hx].
  destruct (generateUploadToken_block other_now other_random Hr') as [HB Hy].
  fold token in HA. fold other in HB.
  destruct (indexOf token (value e)) as [i |] eqn:Hi.
  2:{ rewrite (replaceTokenWithImage_absent e token url Hi), (removeToken_absent e token Hi).
      now split. }
  pose proof (indexOf_Some _ _ _ Hi) as (post & Hs & Hlen).
  assert (Hl : length (value e) = i + (length token + length post)).
  { rewrite Hs at 1. now rewrite !length_app, Hlen. }
  assert (Hi_le : i <= length (value e)) by lia.
  assert (Hend : i + length token <= length (value e)) by lia.
  split.
  - unfold replaceTokenWithImage. rewrite Hi.
    match goal with
    | |- includes _ (value (if ?c then setCursor ?x ?p else ?x)) = _ =>
        replace (value (if c then setCursor x p else x)) with (value x)
          by (destruct c; reflexivity)
    end.
    rewrite replaceRange_value by assumption.
    exact (other_token_stays token other (value e) _ _ _ i HA HB Hx Hy Hne Hi Hin).
  - assert (Hinc : includes token (value e) = true) by (unfold includes; now rewrite Hi).
    unfold removeToken. rewrite Hinc. cbn [negb setCursor setValue value].
    unfold replace_string. rewrite Hi.
    exact (other_token_stays token other (value e) [] _ _ i HA HB Hx Hy Hne Hi Hin).
Qed.

End TwoUploads.

(** Two tokens in a document: the first upload settles, the token of
    the second one stays. *)
Lemma settling_keeps_other_tokens_witness :
  let other := generateUploadToken 1700000000001 (lit "a1b2c3") in
  includes other
    (value (@replaceTokenWithImage example_platform two_tokens
              (generateUploadToken 1700000000000 (lit "k3x9qz"))
              (lit "https://b.r.aliyuncs.com/1700000000000.png"))) = true /\
  includes other
    (value (@removeToken example_platform two_tokens
              (generateUploadToken 1700000000000 (lit "k3x9qz")))) = true.
Proof.
  apply (@settling_keeps_other_tokens example_platform two_tokens
           (lit "https://b.r.aliyuncs.com/1700000000000.png")
           1700000000000 1700000000001 (lit "k3x9qz") (lit "a1b2c3")
           eq_refl eq_refl).
  - vm_compute. discriminate.
  - vm_compute. reflexivity.
Defined.

(* ===================================================================== *)
(** ** From the upload to the deletion                                    *)
(* ===================================================================== *)

(** [.*?] stops at the first place where the rest of the pattern
    matches. *)
Lemma rmatch_lazy_finds (ic : bool) (R : Type) (k : jsstring -> list jsstring -> option R)
    (caps : list jsstring) (x : R) :
  forall a t,
    forallb (fun c => negb (is_line_terminator c)) a = true ->
    (forall a1 c a2, a = a1 ++ c :: a2 -> k (c :: a2 ++ t) caps = None) ->
    k t caps = Some x ->
    rmatch ic LazyAny (a ++ t) caps k = Some x.
Proof.
  induction a as [| c a IH]; intros t Ha Hmin Hk.
  - cbn [app]. destruct t; cbn [rmatch]; now rewrite Hk.
  - cbn [app rmatch]. rewrite (Hmin [] c a eq_refl).
    cbn [forallb] in Ha. apply andb_prop in Ha as [Hc Ha].
    apply negb_true_iff in Hc. rewrite Hc.
    apply IH; [exact Ha | | exact Hk].
    intros a1 c' a2 E. apply (Hmin (c :: a1)). now rewrite E.
Qed.

(** Two literal characters of a pattern take the two characters. *)
Lemma rmatch_two_chars_found (R : Type) (c1 c2 : code_unit) (r : regex) (t : jsstring)
    (caps : list jsstring) (k : jsstring -> list jsstring -> option R) :
  rmatch false (Seq (Seq (Chr c1) (Seq (Chr c2) Eps)) r) (c1 :: c2 :: t) caps k
  = rmatch false r t caps k.
Proof. cbn [rmatch canonicalize andb]. now rewrite !N.eqb_refl. Qed.

(** The reference the plugin writes is matched as a whole, with its
    address as the capture, when the address holds no closing
    parenthesis and no line terminator. *)
Lemma image_match_found (url rest : jsstring) :
  address_text url = true ->
  match_here imageRegex (lit "![](" ++ url ++ lit ")" ++ rest)
  = Some (length (lit "![](" ++ url ++ lit ")"), [url]).
Proof.
  intros Hurl. unfold match_here, imageRegex. cbn [pattern ignoreCase].
  change (Lit "![") with (Seq (Chr 33%N) (Seq (Chr 91%N) Eps)).
  change (Lit "](") with (Seq (Chr 93%N) (Seq (Chr 40%N) Eps)).
  change (Lit ")") with (Seq (Chr 41%N) Eps).
  change (lit "![](" ++ url ++ lit ")" ++ rest)
    with (33%N :: 91%N :: 93%N :: 40%N :: url ++ 41%N :: rest).
  set (s := 33%N :: 91%N :: 93%N :: 40%N :: url ++ 41%N :: rest).
  set (k0 := fun (s' : jsstring) (caps : list jsstring) => Some (length s - length s', caps)).
  assert (Hinner :
    rmatch false LazyAny (url ++ 41%N :: rest) []
      (fun s' c' => rmatch false (Seq (Chr 41%N) Eps) s'
                      (c' ++ [firstn (length (url ++ 41%N :: rest) - length s')
                                (url ++ 41%N :: rest)]) k0)
    = Some (length (lit "![](" ++ url ++ lit ")"), [url])).
  { apply rmatch_lazy_finds.
    - apply (forallb_impl (fun c => negb (c =? 41)%N && negb (is_line_terminator c)));
        [| exact Hurl].
      intros c Hc. now apply andb_prop in Hc as [_ Hc].
    - intros a1 c a2 E. cbn [rmatch canonicalize andb].
      unfold address_text in Hurl. rewrite forallb_forall in Hurl.
      assert (Hc : In c url) by (rewrite E; apply in_elt).
      apply Hurl, andb_prop in Hc as [Hc _]. apply negb_true_iff in Hc. now rewrite Hc.
    - cbn [rmatch canonicalize andb N.eqb Pos.eqb app]. subst k0. cbv beta.
      f_equal. f_equal.
      + subst s. cbn [length lit list_ascii_of_string map app].
        rewrite !length_app. cbn [length]. lia.
      + f_equal. rewrite length_app. cbn [length].
        replace (length url + S (length rest) - S (length rest)) with (length url) by lia.
        apply firstn_length_app. }
  (* the text between the brackets is empty: the lazy star takes nothing *)
  subst s.
  rewrite (rmatch_two_chars_found _ 33%N 91%N).
  apply (rmatch_lazy_finds false _
           (fun s' c' =>
              rmatch false
                (Seq (Seq (Chr 93%N) (Seq (Chr 40%N) Eps))
                   (Seq (Group LazyAny) (Seq (Chr 41%N) Eps))) s' c' k0)
           [] _ [] (93%N :: 40%N :: url ++ 41%N :: rest) eq_refl).
  - intros a1 c a2 E. destruct a1; discriminate.
  - rewrite (rmatch_two_chars_found _ 93%N 40%N). exact Hinner.
Qed.

(** Before it, characters other than [!] are skipped. *)
Lemma exec_image_found (left url right : jsstring) :
  forallb (fun c => negb (c =? 33)%N) left = true ->
  address_text url = true ->
  exec imageRegex (left ++ lit "![](" ++ url ++ lit ")" ++ right)
  = Some {| index := length left; matched := lit "![](" ++ url ++ lit ")";
            groups := [url] |}.
Proof.
  intros Hleft Hurl. induction left as [| c left IH].
  - cbn [app length]. set (doc := lit "![](" ++ url ++ lit ")" ++ right).
    assert (Hm := image_match_found url right Hurl). fold doc in Hm.
    destruct doc as [| d doc'] eqn:Ed; cbn [exec]; rewrite Hm; f_equal; f_equal;
      rewrite <- Ed; subst doc;
      replace (lit "![](" ++ url ++ lit ")" ++ right)
        with ((lit "![](" ++ url ++ lit ")") ++ right) by (now rewrite <- !app_assoc);
      apply firstn_length_app.
  - cbn [forallb] in Hleft. apply andb_prop in Hleft as [Hc Hleft].
    cbn [app exec].
    assert (Hno : match_here imageRegex (c :: left ++ lit "![](" ++ url ++ lit ")" ++ right)
                  = None).
    { unfold match_here, imageRegex. cbn [pattern ignoreCase].
      change (Lit "![") with (Seq (Chr 33%N) (Seq (Chr 91%N) Eps)).
      cbn [rmatch canonicalize andb]. apply negb_true_iff in Hc. now rewrite Hc. }
    rewrite Hno, (IH Hleft). reflexivity.
Qed.

Section UploadThenDelete.
Context {P : Platform}.
Variable env : Env.

(** With an uploader and a key, [deleteImage] sends its request. *)
Lemma deleteImage_sends (env' : Env) (w : World) (u : OssUploader) (url : jsstring)
    (lineNumber : nat) :
  uploader w = Some u ->
  parseKeyFromUrl url <> [] ->
  requests (snd (deleteImage env' url lineNumber w))
  = requests w ++ [DeleteObject (parseKeyFromUrl url)].
Proof.
  intros Hu Hkey. apply truthy_nonempty in Hkey.
  unfold deleteImage. run_M. rewrite Hkey. run_M. rewrite Hu. run_M.
  destruct (delete_outcome env' 0 (parseKeyFromUrl url)); run_M; [reflexivity |].
  destruct (getLine (during_wait env' (editor w)) lineNumber); reflexivity.
Qed.

(** What was uploaded is what gets deleted.  Take the address and the
    key a successful upload returned, under the conditions of the round
    trip, the address holding no closing parenthesis (which
    [encodeURIComponent] would leave as it is, and at which the pattern
    of the menu would cut the address short).  Later the reference
    [![](address)] stands in the line of the cursor, with no [!] before
    it in the line, and the plugin holds an uploader.  Then the menu
    offers [Delete this image] with that address, and the click sends
    the delete request for the very key the file was stored under. *)
Theorem menu_deletes_what_was_uploaded
    (u : OssUploader) (file : File) (w0 w0' : World) (url key : jsstring)
    (env' : Env) (w : World) (u' : OssUploader) (left right : jsstring) :
  URL_follows_standard P ->
  usePublicUrl (settings w0) = true ->
  forallb host_char (bucket (settings w0)) = true ->
  forallb host_char (region (settings w0)) = true ->
  host_parses (bucket (settings w0) ++ lit "." ++ region (settings w0) ++ lit ".aliyuncs.com")
  = true ->
  well_formed (prefix (settings w0)) = true ->
  existsb is_dot_segment (split SLASH (strip_slashes (prefix (settings w0)))) = false ->
  well_formed (file_name file) = true ->
  forallb (fun c => negb (is_slash c)) (file_name file) = true ->
  upload env u file w0 = (Ok (url, key), w0') ->
  address_text url = true ->
  uploader w = Some u' ->
  getLine (editor w) (line (cursor (editor w)))
  = Some (left ++ lit "![](" ++ url ++ lit ")" ++ right) ->
  forallb (fun c => negb (c =? 33)%N) left = true ->
  let this := delete_this_item url (line (cursor (editor w))) in
  onEditorMenu [] w = (Ok [this; delete_all_item], w) /\
  requests (snd (click env' (onClick this) w)) = requests w ++ [DeleteObject key].
Proof.
  intros Hstd Hpublic Hbucket Hregion Hhost Hwfp Hdots Hwfn Hname Hup Haddr Hu Hline Hleft this.
  destruct (upload_parses_back env u file w0 w0' url key Hstd Hpublic Hbucket Hregion Hhost
              Hwfp Hdots Hwfn Hname Hup) as [Hparse Hkey].
  assert (Hkne : parseKeyFromUrl url <> []).
  { rewrite Hparse, Hkey. apply key_of_relative. }
  assert (Hurl : truthy url = true).
  { destruct url; [| reflexivity]. exfalso. now apply Hkne. }
  split.
  - rewrite (onEditorMenu_adds [] w u' _ Hu Hline), (exec_image_found left url right Hleft Haddr).
    unfold url_of. cbn [groups nth]. now rewrite Hurl.
  - subst this. cbn [onClick delete_this_item click].
    rewrite (deleteImage_sends env' w u' url _ Hu Hkne). now rewrite Hparse.
Qed.

End UploadThenDelete.

(** The PNG uploaded under [my pics], and its reference later on. *)
Lemma menu_deletes_what_was_uploaded_witness :
  fst (@upload example_platform quiet_env example_uploader png_file pics_world)
  = Ok (lit "https://b.r.aliyuncs.com/my%20pics/1700000000000.png",
        lit "my pics/1700000000000.png") /\
  onEditorMenu [] uploaded_world
  = (Ok [delete_this_item (lit "https://b.r.aliyuncs.com/my%20pics/1700000000000.png") 0;
         delete_all_item], uploaded_world) /\
  requests (snd (@click example_platform delete_fails
                   (DeleteThisImage
                      (lit "https://b.r.aliyuncs.com/my%20pics/1700000000000.png") 0)
                   uploaded_world))
  = [DeleteObject (lit "my pics/1700000000000.png")].
Proof.
  split; [vm_compute; reflexivity |].
  apply (@menu_deletes_what_was_uploaded example_platform quiet_env example_uploader png_file
           pics_world
           (snd (@upload example_platform quiet_env example_uploader png_file pics_world))
           (lit "https://b.r.aliyuncs.com/my%20pics/1700000000000.png")
           (lit "my pics/1700000000000.png")
           delete_fails uploaded_world example_uploader (lit "shot: ") (lit " done")
           example_platform_follows_standard);
    vm_compute; reflexivity.
Defined.

(* ===================================================================== *)
(** ** A successful upload in a quiet document                            *)
(* ===================================================================== *)

Section QuietSuccess.
Context {P : Platform}.
Variable env : Env.

(** The cleanup pass leaves a document without embed as it is. *)
Lemma cleanupPastedImages_nothing (e : Editor) :
  exec PASTED_IMAGE_REGEX (value e) = None -> cleanupPastedImages e = e.
Proof.
  intros H. unfold cleanupPastedImages.
  destruct (length (value e)); cbn [cleanup_loop]; [reflexivity |]. now rewrite H.
Qed.

(** Scenario A of the specification, for any document.  The token's
    text is not in the document before the paste, the put request
    succeeds with an address, nobody touches the document while it is
    under way, and the document with the reference holds no pasted-image
    embed: then the document is afterwards what it was before the
    paste, with the reference [![](address)] where the cursor was. *)
Theorem quiet_upload_inserts_reference
    (w : World) (u : OssUploader) (file : File) (url : jsstring) :
  uploader w = Some u ->
  put_outcome env (key_of env w file) = None ->
  getUrl (settings w) u (key_of env w file) = Ok url ->
  no_open_brace (token_random env) = true ->
  includes (token_of env) (value (editor w)) = false ->
  during_wait env (editor_with_token env w) = editor_with_token env w ->
  let a := toOffset (value (editor w)) (cursor (editor w)) in
  let doc := firstn a (value (editor w)) ++ lit "![](" ++ url ++ lit ")"
               ++ skipn a (value (editor w)) in
  exec PASTED_IMAGE_REGEX doc = None ->
  value (editor (snd (handleImageUpload env file w))) = doc /\
  notices (snd (handleImageUpload env file w))
  = notices w ++ [lit "Image uploaded successfully"].
Proof.
  intros Hu Hput Hurl Hrandom Hfresh Hquiet a doc Hclean.
  rewrite (handleImageUpload_success env w u file url Hu Hput Hurl). cbn [snd editor notices].
  split; [| reflexivity].
  unfold editor_at_settlement. rewrite Hquiet.
  set (v := value (editor w)) in *.
  assert (Hv : value (editor_with_token env w) = firstn a v ++ token_of env ++ skipn a v)
    by reflexivity.
  assert (Hdoc : value (replaceTokenWithImage (editor_with_token env w) (token_of env) url)
                 = doc).
  { apply (replaceTokenWithImage_first _ (token_of env) url (firstn a v) (skipn a v) Hv).
    intros pre' post' Heq.
    destruct (Nat.le_gt_cases (length (firstn a v)) (length pre')) as [Hle | Hlt];
      [exact Hle | exfalso].
    destruct (generateUploadToken_shape (token_time env) (token_random env) Hrandom)
      as (tail & Hshape & Htail).
    destruct (token_occurs_earlier (token_of env) _ _ _ _ tail Hshape Htail Heq Hlt)
      as (rest & Hpre).
    assert (Hocc : v = pre' ++ token_of env ++ (rest ++ skipn a v)).
    { rewrite <- (firstn_skipn a v) at 1. rewrite Hpre. now rewrite <- !app_assoc. }
    rewrite Hocc, includes_app in Hfresh. discriminate. }
  rewrite cleanupPastedImages_nothing; [exact Hdoc | now rewrite Hdoc].
Qed.

End QuietSuccess.

(** Scenario A at work: the document [ab], the cursor between the
    letters. *)
Lemma quiet_upload_inserts_reference_witness :
  value (editor (snd (@handleImageUpload example_platform quiet_env png_file world_ab)))
  = lit "a![](https://b.r.aliyuncs.com/1700000000000.png)b" /\
  notices (snd (@handleImageUpload example_platform quiet_env png_file world_ab))
  = [lit "Image uploaded successfully"].
Proof.
  apply (@quiet_upload_inserts_reference example_platform quiet_env world_ab
           example_uploader png_file (lit "https://b.r.aliyuncs.com/1700000000000.png"));
    vm_compute; reflexivity.
Defined.
